(** * background.js: connection management and command relay

    A shallow embedding of the extension's background script
    (src/extension/background.js).  The script is a set of event
    handlers over three module globals and the browser's storage, alarm,
    port and WebSocket objects.  Every handler runs to completion; the
    places where the source suspends (an [await], or a callback that
    the browser delivers later) are separate transitions of the step
    function at the end of the definitions. *)

From stdpp Require Import gmap strings list fin_maps.
From Stdlib Require Import Ascii QArith.
Close Scope Q_scope.
Set Warnings "-register-all".
Open Scope string_scope.
Open Scope list_scope.

(** ** JavaScript values *)

(** The values that cross the program's boundaries are JSON values: the
    result of [JSON.parse], the contents of [chrome.storage], the
    messages exchanged with the popup.  A number is kept as its canonical
    decimal rendering (what [String(n)] gives): the program only
    stringifies and forwards numbers.  [undefined] is [None] of
    [option JsVal].  An object is the list of its own properties. *)
Inductive JsVal : Type :=
| JNull
| JBool (b : bool)
| JNum (repr : string)
| JStr (s : string)
| JArr (items : list JsVal)
| JObj (fields : list (string * JsVal)).

Fixpoint JsVal_eqb (a b : JsVal) {struct a} : bool :=
  match a, b with
  | JNull, JNull => true
  | JBool x, JBool y => Bool.eqb x y
  | JNum x, JNum y => String.eqb x y
  | JStr x, JStr y => String.eqb x y
  | JArr xs, JArr ys =>
      (fix items_eqb (xs ys : list JsVal) {struct xs} : bool :=
         match xs, ys with
         | [], [] => true
         | x :: xs', y :: ys' => JsVal_eqb x y && items_eqb xs' ys'
         | _, _ => false
         end) xs ys
  | JObj fs, JObj gs =>
      (fix fields_eqb (fs gs : list (string * JsVal)) {struct fs} : bool :=
         match fs, gs with
         | [], [] => true
         | (k, x) :: fs', (l, y) :: gs' =>
             String.eqb k l && JsVal_eqb x y && fields_eqb fs' gs'
         | _, _ => false
         end) fs gs
  | _, _ => false
  end.

(** [a === b] against a string or boolean literal. *)
Definition strict_eq (a : option JsVal) (b : JsVal) : bool :=
  match a with
  | Some v => JsVal_eqb v b
  | None => false
  end.

(** ToBoolean. *)
Definition truthy (v : option JsVal) : bool :=
  match v with
  | None => false
  | Some JNull => false
  | Some (JBool b) => b
  | Some (JNum r) => negb (String.eqb r "0" || String.eqb r "NaN")
  | Some (JStr s) => negb (String.eqb s "")
  | Some (JArr _) => true
  | Some (JObj _) => true
  end.

(** [a || b]. *)
Definition or_else (a : option JsVal) (b : JsVal) : JsVal :=
  match a with
  | Some v => if truthy a then v else b
  | None => b
  end.

Fixpoint assoc (k : string) (fs : list (string * JsVal)) : option JsVal :=
  match fs with
  | [] => None
  | (k', v) :: fs' => if String.eqb k k' then Some v else assoc k fs'
  end.

(** ** Exceptions and completions *)

Inductive Exception : Type :=
| SyntaxError
| TypeError
| InvalidStateError
| ConnectionFailed      (* new Error('WebSocket connection failed.') *)
| DisconnectedPort.

Inductive Completion (A : Type) : Type :=
| Normal (a : A)
| Throw (e : Exception).
Arguments Normal {A} a.
Arguments Throw {A} e.

(** ToString, as applied by a template literal, by [+] with a string
    operand and by a string-valued attribute of the DOM.  An array
    joins its elements with commas ([null] elements give the empty
    string).  An object is converted through its [toString] property:
    a parsed object that has an own property of that name, which is
    never a function, has no conversion and [TypeError] is thrown, also
    when the object is an element of an array; any other object gives
    [[object Object]]. *)
Fixpoint ToString (v : JsVal) : Completion string :=
  match v with
  | JNull => Normal "null"
  | JBool true => Normal "true"
  | JBool false => Normal "false"
  | JNum r => Normal r
  | JStr s => Normal s
  | JArr items =>
      match
        (fix join (items : list JsVal) : Completion (list string) :=
           match items with
           | [] => Normal []
           | x :: items' =>
               match (match x with JNull => Normal "" | _ => ToString x end) with
               | Normal s =>
                   match join items' with
                   | Normal ss => Normal (s :: ss)
                   | Throw e => Throw e
                   end
               | Throw e => Throw e
               end
           end) items
      with
      | Normal ss => Normal (String.concat "," ss)
      | Throw e => Throw e
      end
  | JObj fields =>
      match assoc "toString" fields with
      | Some _ => Throw TypeError
      | None => Normal "[object Object]"
      end
  end.

Definition ToString_opt (v : option JsVal) : Completion string :=
  match v with
  | Some x => ToString x
  | None => Normal "undefined"
  end.

(** [v.k] for the property names the program reads ([action], [status],
    [type], [text], [is_recording], [config]); none of them is a
    built-in property of a string, number, boolean or array.  Reading a
    property of [null] throws. *)
Definition get_prop (v : JsVal) (k : string) : Completion (option JsVal) :=
  match v with
  | JNull => Throw TypeError
  | JObj fs => Normal (assoc k fs)
  | _ => Normal None
  end.

(** ** Time of day *)

(** [new Date()] is read from the environment: the local wall-clock time,
    in seconds.  [toLocaleTimeString('vi-VN')] renders it as the 24-hour
    token HH:MM:SS. *)
Definition Date : Type := N.
Bind Scope N_scope with Date.

Definition digit (n : N) : ascii := ascii_of_N (48 + n mod 10).

Definition two_digits (n : N) : string :=
  String (digit (n / 10)) (String (digit n) "").

Definition toLocaleTimeString (d : Date) : string :=
  two_digits (d / 3600 mod 24) +:+ ":" +:+ two_digits (d / 60 mod 60) +:+ ":"
  +:+ two_digits (d mod 60).

(** ** Constants *)

Definition NATIVE_WS_URL : string := "ws://localhost:8766".
Definition ALARM_HEALTH_CHECK : string := "websocket-health-check".

Module STORAGE_KEYS.
Definition isRecording : string := "session_isRecording".
Definition config : string := "session_config".
Definition transcript : string := "local_transcript".
Definition summary : string := "local_summary".
End STORAGE_KEYS.

Definition ICONS (state : string) : option string :=
  if String.eqb state "idle" then Some "mic-idle"
  else if String.eqb state "recording" then Some "mic-recording"
  else if String.eqb state "error" then Some "mic-error"
  else None.

(** ** Platform objects *)

Inductive ReadyState : Type := CONNECTING | OPEN | CLOSING | CLOSED.

Inductive PromiseState : Type := Pending | Fulfilled | Rejected.

(** A socket made by [new WebSocket(url)], together with the promise whose
    executor made it: [getWebSocket] creates the two as a pair, and the
    socket's [onopen] and [onerror] handlers settle that promise. *)
Record WebSocket : Type := {
  url : string;
  readyState : ReadyState;
  promise : PromiseState
}.

(** A port opened by [chrome.runtime.connect]. *)
Record Port : Type := {
  name : string;
  connected : bool
}.

(** An outbound command, [{action, data?}]. *)
Record Command : Type := {
  action : string;
  data : option JsVal
}.

(** The messages posted to the popup. *)
Inductive Envelope : Type :=
| NATIVE_APP_MESSAGE (data : JsVal)
| INITIAL_STATE (isRecording transcript summary : JsVal).

Record AlarmInfo : Type := {
  delayInMinutes : Q;
  periodInMinutes : Q
}.

Record StorageChange : Type := {
  oldValue : option JsVal;
  newValue : option JsVal
}.

(** The arguments of a [chrome.storage.onChanged] notification. *)
Record ChangeEvent : Type := {
  changes : gmap string StorageChange;
  namespace : string
}.

(** What [getWebSocket()] resolves with: the open socket at once, or the
    outcome of a pending connection promise. *)
Inductive Handle : Type :=
| Immediate (ws : nat)
| Awaiting (p : nat).

(** The asynchronous block started by a popup attaching, suspended at its
    first or second [await]. *)
Inductive AttachTask : Type :=
| AwaitSession (port : nat) (sessionState : option JsVal)
| AwaitLocal (port : nat) (sessionState : option JsVal)
    (localTranscript localSummary : option JsVal).

(** Calls that only produce output.  A console call is recorded by the
    fixed part of its text. *)
Inductive Effect : Type :=
| console_log (text : string)
| console_warn (text : string)
| console_error (text : string)
| port_postMessage (port : nat) (message : Envelope)
| ws_send (ws : nat) (frame : Command)
| setIcon (path : list (nat * string))
| setBadgeText (text : string)
| setBadgeBackgroundColor (color : string)
| setTitle (title : string).

(** ** The state *)

(** The three globals of the script, the browser objects it holds or
    reaches, the continuations and notifications not yet run, and the
    output produced so far.  Sockets and ports are named by their index
    in [sockets] and [ports]. *)
Record World : Type := {
  nativeWebSocket : option nat;
  popupPort : option nat;
  connectionPromise : option nat;
  sockets : list WebSocket;
  ports : list Port;
  session : gmap string JsVal;
  local : gmap string JsVal;
  alarms : gmap string AlarmInfo;
  changeEvents : list ChangeEvent;
  transcriptUpdates : list (option JsVal * option JsVal);
  sends : list (Handle * Command);
  attaches : list AttachTask;
  effects : list Effect
}.

Definition initial : World := {|
  nativeWebSocket := None;
  popupPort := None;
  connectionPromise := None;
  sockets := [];
  ports := [];
  session := ∅;
  local := ∅;
  alarms := ∅;
  changeEvents := [];
  transcriptUpdates := [];
  sends := [];
  attaches := [];
  effects := []
|}.

(** Assignment to one component of the state. *)
Definition with_nativeWebSocket (x : option nat) (w : World) : World :=
  {| nativeWebSocket := x; popupPort := popupPort w;
     connectionPromise := connectionPromise w; sockets := sockets w;
     ports := ports w; session := session w; local := local w;
     alarms := alarms w; changeEvents := changeEvents w;
     transcriptUpdates := transcriptUpdates w; sends := sends w;
     attaches := attaches w; effects := effects w |}.

Definition with_popupPort (x : option nat) (w : World) : World :=
  {| nativeWebSocket := nativeWebSocket w; popupPort := x;
     connectionPromise := connectionPromise w; sockets := sockets w;
     ports := ports w; session := session w; local := local w;
     alarms := alarms w; changeEvents := changeEvents w;
     transcriptUpdates := transcriptUpdates w; sends := sends w;
     attaches := attaches w; effects := effects w |}.

Definition with_connectionPromise (x : option nat) (w : World) : World :=
  {| nativeWebSocket := nativeWebSocket w; popupPort := popupPort w;
     connectionPromise := x; sockets := sockets w; ports := ports w;
     session := session w; local := local w; alarms := alarms w;
     changeEvents := changeEvents w;
     transcriptUpdates := transcriptUpdates w; sends := sends w;
     attaches := attaches w; effects := effects w |}.

Definition with_sockets (x : list WebSocket) (w : World) : World :=
  {| nativeWebSocket := nativeWebSocket w; popupPort := popupPort w;
     connectionPromise := connectionPromise w; sockets := x;
     ports := ports w; session := session w; local := local w;
     alarms := alarms w; changeEvents := changeEvents w;
     transcriptUpdates := transcriptUpdates w; sends := sends w;
     attaches := attaches w; effects := effects w |}.

Definition with_ports (x : list Port) (w : World) : World :=
  {| nativeWebSocket := nativeWebSocket w; popupPort := popupPort w;
     connectionPromise := connectionPromise w; sockets := sockets w;
     ports := x; session := session w; local := local w;
     alarms := alarms w; changeEvents := changeEvents w;
     transcriptUpdates := transcriptUpdates w; sends := sends w;
     attaches := attaches w; effects := effects w |}.

Definition with_session (x : gmap string JsVal) (w : World) : World :=
  {| nativeWebSocket := nativeWebSocket w; popupPort := popupPort w;
     connectionPromise := connectionPromise w; sockets := sockets w;
     ports := ports w; session := x; local := local w;
     alarms := alarms w; changeEvents := changeEvents w;
     transcriptUpdates := transcriptUpdates w; sends := sends w;
     attaches := attaches w; effects := effects w |}.

Definition with_local (x : gmap string JsVal) (w : World) : World :=
  {| nativeWebSocket := nativeWebSocket w; popupPort := popupPort w;
     connectionPromise := connectionPromise w; sockets := sockets w;
     ports := ports w; session := session w; local := x;
     alarms := alarms w; changeEvents := changeEvents w;
     transcriptUpdates := transcriptUpdates w; sends := sends w;
     attaches := attaches w; effects := effects w |}.

Definition with_alarms (x : gmap string AlarmInfo) (w : World) : World :=
  {| nativeWebSocket := nativeWebSocket w; popupPort := popupPort w;
     connectionPromise := connectionPromise w; sockets := sockets w;
     ports := ports w; session := session w; local := local w;
     alarms := x; changeEvents := changeEvents w;
     transcriptUpdates := transcriptUpdates w; sends := sends w;
     attaches := attaches w; effects := effects w |}.

Definition with_changeEvents (x : list ChangeEvent) (w : World) : World :=
  {| nativeWebSocket := nativeWebSocket w; popupPort := popupPort w;
     connectionPromise := connectionPromise w; sockets := sockets w;
     ports := ports w; session := session w; local := local w;
     alarms := alarms w; changeEvents := x;
     transcriptUpdates := transcriptUpdates w; sends := sends w;
     attaches := attaches w; effects := effects w |}.

Definition with_transcriptUpdates (x : list (option JsVal * option JsVal)) (w : World) : World :=
  {| nativeWebSocket := nativeWebSocket w; popupPort := popupPort w;
     connectionPromise := connectionPromise w; sockets := sockets w;
     ports := ports w; session := session w; local := local w;
     alarms := alarms w; changeEvents := changeEvents w;
     transcriptUpdates := x; sends := sends w; attaches := attaches w;
     effects := effects w |}.

Definition with_sends (x : list (Handle * Command)) (w : World) : World :=
  {| nativeWebSocket := nativeWebSocket w; popupPort := popupPort w;
     connectionPromise := connectionPromise w; sockets := sockets w;
     ports := ports w; session := session w; local := local w;
     alarms := alarms w; changeEvents := changeEvents w;
     transcriptUpdates := transcriptUpdates w; sends := x;
     attaches := attaches w; effects := effects w |}.

Definition with_attaches (x : list AttachTask) (w : World) : World :=
  {| nativeWebSocket := nativeWebSocket w; popupPort := popupPort w;
     connectionPromise := connectionPromise w; sockets := sockets w;
     ports := ports w; session := session w; local := local w;
     alarms := alarms w; changeEvents := changeEvents w;
     transcriptUpdates := transcriptUpdates w; sends := sends w;
     attaches := x; effects := effects w |}.

Definition with_effects (x : list Effect) (w : World) : World :=
  {| nativeWebSocket := nativeWebSocket w; popupPort := popupPort w;
     connectionPromise := connectionPromise w; sockets := sockets w;
     ports := ports w; session := session w; local := local w;
     alarms := alarms w; changeEvents := changeEvents w;
     transcriptUpdates := transcriptUpdates w; sends := sends w;
     attaches := attaches w; effects := x |}.

Definition emit (e : Effect) (w : World) : World :=
  with_effects (effects w ++ [e]) w.

(** ** Code that may throw *)

Definition M (A : Type) : Type := World -> Completion A * World.

Definition ret {A : Type} (a : A) : M A := fun w => (Normal a, w).

Definition throw {A : Type} (e : Exception) : M A := fun w => (Throw e, w).

Definition bind {A B : Type} (m : M A) (k : A -> M B) : M B :=
  fun w =>
    match m w with
    | (Normal a, w') => k a w'
    | (Throw e, w') => (Throw e, w')
    end.

(** [try { body } catch (e) { handler }] *)
Definition try_catch {A : Type} (body : M A) (handler : Exception -> M A) : M A :=
  fun w =>
    match body w with
    | (Normal a, w') => (Normal a, w')
    | (Throw e, w') => handler e w'
    end.

Definition lift (f : World -> World) : M unit := fun w => (Normal tt, f w).

Definition of_completion {A : Type} (c : Completion A) : M A := fun w => (c, w).

Declare Scope js_scope.
Delimit Scope js_scope with js.
Notation "'let*' x ':=' m 'in' k" := (bind m (fun x => k))
  (at level 10, x name, m at level 100, k at level 200) : js_scope.
Notation "m ';;' k" := (bind m (fun _ => k))
  (at level 100, k at level 200, right associativity) : js_scope.

(** The state an event handler leaves behind; an exception that reaches
    the top of a handler is reported by the browser and changes nothing
    more. *)
Definition run_handler {A : Type} (m : M A) (w : World) : World := snd (m w).

(** ** 2. UI and badge management *)

Definition updateIcon (state : string) (w : World) : World :=
  match ICONS state with
  | None => w
  | Some icon =>
      emit (setIcon [(16, "icons/" +:+ icon +:+ "-16.png");
                     (32, "icons/" +:+ icon +:+ "-32.png");
                     (48, "icons/" +:+ icon +:+ "-48.png");
                     (128, "icons/" +:+ icon +:+ "-128.png")]) w
  end.

Definition is_open (w : World) (ws : nat) : bool :=
  match sockets w !! ws with
  | Some s => match readyState s with OPEN => true | _ => false end
  | None => false
  end.

Definition updateBadge (isRecording : bool) (w : World) : World :=
  if isRecording then
    updateIcon "recording"
      (emit (setTitle "Audio Capture - Đang ghi âm")
         (emit (setBadgeBackgroundColor "#FF0000")
            (emit (setBadgeText "REC") w)))
  else
    let w1 := emit (setTitle "Audio Capture") (emit (setBadgeText "") w) in
    match nativeWebSocket w1 with
    | None => updateIcon "idle" w1
    | Some ws => if is_open w1 ws then updateIcon "idle" w1 else updateIcon "error" w1
    end.

(** ** chrome.storage *)

(** [area.set(items)] writes each item; a key whose stored value really
    changes is reported in the [onChanged] notification, which the
    browser delivers later (no notification when nothing changed). *)
Definition store_item (acc : gmap string JsVal * gmap string StorageChange)
    (kv : string * JsVal) : gmap string JsVal * gmap string StorageChange :=
  let unchanged :=
    match acc.1 !! kv.1 with
    | Some old => JsVal_eqb old kv.2
    | None => false
    end in
  if unchanged then acc
  else (<[kv.1 := kv.2]> acc.1,
        <[kv.1 := {| oldValue := acc.1 !! kv.1; newValue := Some kv.2 |}]> acc.2).

Definition area_set (items : list (string * JsVal)) (area : gmap string JsVal)
  : gmap string JsVal * gmap string StorageChange :=
  foldl store_item (area, ∅) items.

Definition notify (ns : string) (chg : gmap string StorageChange) (w : World) : World :=
  if bool_decide (size chg = 0) then w
  else with_changeEvents (changeEvents w ++ [{| changes := chg; namespace := ns |}]) w.

Definition session_set (items : list (string * JsVal)) (w : World) : World :=
  let r := area_set items (session w) in
  notify "session" r.2 (with_session r.1 w).

Definition local_set (items : list (string * JsVal)) (w : World) : World :=
  let r := area_set items (local w) in
  notify "local" r.2 (with_local r.1 w).

(** ** 4. Port-based communication with the popup *)

(** [port.postMessage(message)] throws on a disconnected port. *)
Definition postMessage (port : nat) (message : Envelope) : M unit :=
  fun w =>
    match ports w !! port with
    | Some p =>
        if connected p then (Normal tt, emit (port_postMessage port message) w)
        else (Throw DisconnectedPort, w)
    | None => (Throw DisconnectedPort, w)
    end.

Definition broadcastToUI (message : Envelope) : M unit :=
  fun w =>
    match popupPort w with
    | Some port =>
        try_catch (postMessage port message)
          (fun _ => lift (emit (console_warn
             "Could not send message via port, it might be closing."))) w
    | None => (Normal tt, w)
    end.

(** ** 3. WebSocket connection management *)

Definition open_connection (w : World) : option nat :=
  match nativeWebSocket w with
  | Some ws => if is_open w ws then Some ws else None
  | None => None
  end.

Definition getWebSocket (w : World) : Handle * World :=
  match open_connection w with
  | Some ws => (Immediate ws, w)
  | None =>
      match connectionPromise w with
      | Some p =>
          (Awaiting p, emit (console_log "Waiting for an existing connection attempt...") w)
      | None =>
          let w1 := emit (console_log "Attempting to connect to native app...") w in
          let ws := length (sockets w1) in
          (Awaiting ws,
           with_connectionPromise (Some ws)
             (with_sockets (sockets w1 ++
                [{| url := NATIVE_WS_URL; readyState := CONNECTING; promise := Pending |}]) w1))
      end
  end.

Definition with_readyState (r : ReadyState) (s : WebSocket) : WebSocket :=
  {| url := url s; readyState := r; promise := promise s |}.

(** [resolve] and [reject] have no effect on a settled promise. *)
Definition settle (p : PromiseState) (s : WebSocket) : WebSocket :=
  match promise s with
  | Pending => {| url := url s; readyState := readyState s; promise := p |}
  | _ => s
  end.

Definition alter_socket (f : WebSocket -> WebSocket) (ws : nat) (w : World) : World :=
  with_sockets (alter f ws (sockets w)) w.

Definition cleanup (w : World) : World := with_connectionPromise None w.

(** [ws.onopen]; [setupWebSocketListeners(ws)] installs the message and
    close handlers below on [ws]. *)
Definition onopen (ws : nat) (w : World) : World :=
  let w1 := emit (console_log "WebSocket connection established.") w in
  let w2 := with_nativeWebSocket (Some ws) w1 in
  let w3 := updateIcon "idle" w2 in
  let w4 := cleanup w3 in
  alter_socket (settle Fulfilled) ws w4.

(** [ws.onerror] *)
Definition onerror (ws : nat) (w : World) : World :=
  let w1 := emit (console_error "WebSocket connection error.") w in
  let w2 := with_nativeWebSocket None w1 in
  let w3 := updateIcon "error" w2 in
  let w4 := cleanup w3 in
  alter_socket (settle Rejected) ws w4.

(** [ws.onclose] *)
Definition onclose (w : World) : World :=
  let w1 := emit (console_log "WebSocket connection closed.") w in
  let w2 := with_nativeWebSocket None w1 in
  let w3 := updateIcon "error" w2 in
  session_set [(STORAGE_KEYS.isRecording, JBool false)] w3.

(** ** Inbound frames *)

Definition newline : string := String (ascii_of_nat 10) "".

(** A [message] event of the socket, by what [JSON.parse(event.data)]
    gives: the parsed value, or [None] when it throws a SyntaxError.
    [JSON.parse] belongs to the platform. *)
Definition MessageEvent : Type := option JsVal.

Definition JSON_parse (event : MessageEvent) : M JsVal :=
  match event with
  | Some message => ret message
  | None => throw SyntaxError
  end.

(** [updateTranscriptStorage(newText)] up to its [await]: the read of the
    stored transcript is issued, and the rest of the function waits for
    its answer. *)
Definition updateTranscriptStorage (newText : option JsVal) (w : World) : World :=
  with_transcriptUpdates
    (transcriptUpdates w ++ [(local w !! STORAGE_KEYS.transcript, newText)]) w.

(** [updateTranscriptStorage] from its [await] on.  The two string
    conversions (of [newText] in the template literal, of the stored
    transcript in the concatenation) may throw; the promise of the
    function is then rejected and nothing is written. *)
Definition updateTranscriptStorage_resume (now : Date)
    (currentTranscript newText : option JsVal) : M unit :=
  let timestamp := toLocaleTimeString now in
  bind (of_completion (ToString_opt newText)) (fun text =>
  let finalLine := "[" +:+ timestamp +:+ "] " +:+ text in
  bind (if truthy currentTranscript
        then bind (of_completion (ToString_opt currentTranscript))
               (fun current => ret (current +:+ newline))
        else ret "") (fun prefix =>
  let updatedTranscript := prefix +:+ finalLine in
  lift (local_set [(STORAGE_KEYS.transcript, JStr updatedTranscript)]))).

Open Scope js_scope.

(** The body of the [try] block of [ws.onmessage]. *)
Definition onmessage_try (event : MessageEvent) (now : Date) : M unit :=
  let* message := JSON_parse event in
  lift (emit (console_log "Received from native app:"));;
  (let* action1 := of_completion (get_prop message "action") in
   if strict_eq action1 (JStr "get_status") then
     let* is_recording := of_completion (get_prop message "is_recording") in
     let isNowRecording := strict_eq is_recording (JBool true) in
     lift (session_set [(STORAGE_KEYS.isRecording, JBool isNowRecording)])
   else
     let* status := of_completion (get_prop message "status") in
     if strict_eq status (JStr "error") then
       lift (session_set [(STORAGE_KEYS.isRecording, JBool false)])
     else
       let* action3 := of_completion (get_prop message "action") in
       let* is_final :=
         (if strict_eq action3 (JStr "transcript") then
            let* type := of_completion (get_prop message "type") in
            ret (strict_eq type (JStr "final"))
          else ret false) in
       if is_final then
         let* text := of_completion (get_prop message "text") in
         lift (updateTranscriptStorage text)
       else
         let* action4 := of_completion (get_prop message "action") in
         if strict_eq action4 (JStr "summary_update") then
           let timestamp := toLocaleTimeString now in
           let* text := of_completion (get_prop message "text") in
           let* text := of_completion (ToString_opt text) in
           let finalLine := "[" +:+ timestamp +:+ "] " +:+ newline +:+ " " +:+ text in
           lift (local_set [(STORAGE_KEYS.summary, JStr finalLine)])
         else ret tt);;
  broadcastToUI (NATIVE_APP_MESSAGE message).

(** [ws.onmessage] *)
Definition onmessage (event : MessageEvent) (now : Date) : M unit :=
  try_catch (onmessage_try event now)
    (fun _ => lift (emit (console_error "Error parsing native message:"))).

(** ** Outbound commands *)

(** [sendMessageToNative(message)] up to its [await]: [getWebSocket()] is
    called, and the rest waits for the connection it stands for. *)
Definition sendMessageToNative (message : Command) (w : World) : World :=
  let r := getWebSocket w in
  with_sends (sends r.2 ++ [(r.1, message)]) r.2.

(** [ws.send(JSON.stringify(message))]; whether the transmit throws is
    the platform's choice. *)
Definition transmit (throws : bool) (ws : nat) (message : Command) : M unit :=
  if throws then throw InvalidStateError
  else lift (emit (ws_send ws message)).

Definition connectivity_error : Envelope :=
  NATIVE_APP_MESSAGE
    (JObj [("status", JStr "error");
           ("message", JStr "Không thể kết nối với ứng dụng native.")]).

(** [sendMessageToNative] from its [await] on: [settled] is the outcome
    of the awaited connection. *)
Definition sendMessageToNative_resume (settled : Completion nat) (throws : bool)
    (message : Command) : M unit :=
  try_catch
    (let* ws := of_completion settled in
     transmit throws ws message)
    (fun _ =>
       lift (emit (console_error "Failed to send message to native app"));;
       broadcastToUI connectivity_error;;
       lift (session_set [(STORAGE_KEYS.isRecording, JBool false)])).

(** The outcome of awaiting a handle, once there is one. *)
Definition await (h : Handle) (w : World) : option (Completion nat) :=
  match h with
  | Immediate ws => Some (Normal ws)
  | Awaiting p =>
      match sockets w !! p with
      | Some s =>
          match promise s with
          | Pending => None
          | Fulfilled => Some (Normal p)
          | Rejected => Some (Throw ConnectionFailed)
          end
      | None => None
      end
  end.

(** ** 5. Main command handler and event listeners *)

Definition handleUICommand (message : JsVal) : M unit :=
  let* type := of_completion (get_prop message "type") in
  if strict_eq type (JStr "START_CAPTURE") then
    let* config := of_completion (get_prop message "config") in
    lift (sendMessageToNative {| action := "start_capture"; data := config |})
  else if strict_eq type (JStr "STOP_CAPTURE") then
    lift (sendMessageToNative {| action := "stop_capture"; data := None |})
  else if strict_eq type (JStr "CLEAR_TRANSCRIPT") then
    lift (local_set [(STORAGE_KEYS.transcript, JStr ""); (STORAGE_KEYS.summary, JStr "")]);;
    broadcastToUI (NATIVE_APP_MESSAGE
      (JObj [("action", JStr "transcript"); ("type", JStr "clear")]))
  else if strict_eq type (JStr "GET_DEVICES") then
    lift (sendMessageToNative {| action := "get_devices"; data := None |})
  else if strict_eq type (JStr "GET_STATUS") then
    lift (sendMessageToNative {| action := "get_status"; data := None |})
  else ret tt.

(** The [chrome.storage.onChanged] listener. *)
Definition onChanged (ev : ChangeEvent) (w : World) : World :=
  if String.eqb (namespace ev) "session" then
    match changes ev !! STORAGE_KEYS.isRecording with
    | Some change =>
        let isNowRecording := truthy (newValue change) in
        let w1 := updateBadge isNowRecording w in
        if isNowRecording then
          with_alarms (<[ALARM_HEALTH_CHECK :=
            {| delayInMinutes := 3 # 10; periodInMinutes := 3 # 10 |}]> (alarms w1)) w1
        else
          with_alarms (delete ALARM_HEALTH_CHECK (alarms w1)) w1
    | None => w
    end
  else w.

(** The [chrome.alarms.onAlarm] listener. *)
Definition onAlarm (alarm_name : string) (w : World) : World :=
  if String.eqb alarm_name ALARM_HEALTH_CHECK then
    sendMessageToNative {| action := "ping"; data := None |}
      (emit (console_log "Health check alarm: Pinging native app...") w)
  else w.

(** ** 6. Extension lifecycle hooks *)

Definition reset_state (w : World) : World :=
  updateBadge false
    (local_set [(STORAGE_KEYS.transcript, JStr ""); (STORAGE_KEYS.summary, JStr "")]
       (session_set [(STORAGE_KEYS.isRecording, JBool false);
                     (STORAGE_KEYS.config, JObj [])] w)).

Definition onStartup (w : World) : World :=
  reset_state (emit (console_log "Browser started. Resetting state.") w).

Definition onInstalled (reason : string) (w : World) : World :=
  reset_state (emit (console_log ("Extension " +:+ reason +:+ ". Resetting state.")) w).

(** ** Popup attachment *)

(** The [chrome.runtime.onConnect] listener, up to the first [await] of
    its asynchronous block.  The browser has made the port; the listener
    keeps it only under the name [popup-connection]. *)
Definition onConnect (port_name : string) (w : World) : World :=
  let port := length (ports w) in
  let w1 := with_ports (ports w ++ [{| name := port_name; connected := true |}]) w in
  if String.eqb port_name "popup-connection" then
    let w2 := with_popupPort (Some port) w1 in
    let w3 := emit (console_log "Popup connected.") w2 in
    with_attaches
      (attaches w3 ++ [AwaitSession port (session w3 !! STORAGE_KEYS.isRecording)]) w3
  else w1.

(** The asynchronous block of [onConnect] from one [await] to the next. *)
Definition attach_resume (task : AttachTask) : M unit :=
  match task with
  | AwaitSession port sessionState =>
      lift (fun w =>
        with_attaches
          (attaches w ++ [AwaitLocal port sessionState
                            (local w !! STORAGE_KEYS.transcript)
                            (local w !! STORAGE_KEYS.summary)]) w)
  | AwaitLocal port sessionState localTranscript localSummary =>
      postMessage port
        (INITIAL_STATE (or_else sessionState (JBool false))
           (or_else localTranscript (JStr ""))
           (or_else localSummary (JStr "")));;
      lift (sendMessageToNative {| action := "get_status"; data := None |});;
      lift (sendMessageToNative {| action := "get_devices"; data := None |})
  end.

(** The [port.onDisconnect] listener, installed on popup ports only. *)
Definition onDisconnect (w : World) : World :=
  with_popupPort None (emit (console_log "Popup disconnected.") w).

Close Scope js_scope.

Definition disconnect_port (p : Port) : Port :=
  {| name := name p; connected := false |}.

(** ** The event loop *)

(** One event of the browser: a handler of the script runs to
    completion, or a suspended continuation is resumed.  Inputs that the
    platform chooses (the parse of a frame, the clock, whether a transmit
    throws) come with the event. *)
Inductive Event : Type :=
| PortConnect (port_name : string)
| PortDisconnect (port : nat)
| PortMessage (port : nat) (message : JsVal)
| AttachStep
| SocketOpen (ws : nat)
| SocketError (ws : nat)
| SocketClosing (ws : nat)
| SocketClose (ws : nat)
| SocketLost (ws : nat)
| SocketMessage (ws : nat) (event : MessageEvent) (now : Date)
| TranscriptRead (now : Date)
| SendResume (i : nat) (throws : bool)
| StorageChanged
| Alarm (alarm_name : string)
| Startup
| Installed (reason : string).

Definition socket_state (w : World) (ws : nat) : option ReadyState :=
  readyState <$> sockets w !! ws.

Definition popup_port (w : World) (port : nat) : bool :=
  match ports w !! port with
  | Some p => connected p && String.eqb (name p) "popup-connection"
  | None => false
  end.

(** [step e w] is the state after event [e], or [None] when the browser
    cannot deliver [e] in [w].  A socket opens or fails to open while it
    is connecting ([SocketError] is the failure of the opening
    handshake: the error event, followed by a close event for which no
    handler is installed yet), receives frames and starts closing while
    open, and closes once.  The connection of a socket that has opened
    may also fail ([SocketLost]): the browser sets the state to CLOSED
    and fires the error event and then the close event in one task, so
    [ws.onerror], which stays installed after the socket has opened, and
    [ws.onclose] run one after the other.  The handlers of a socket are
    those [getWebSocket] and [setupWebSocketListeners] put on it.
    Storage answers and change notifications arrive in the order the
    requests were made. *)
Definition step (e : Event) (w : World) : option World :=
  match e with
  | PortConnect port_name => Some (onConnect port_name w)
  | PortDisconnect port =>
      match ports w !! port with
      | Some p =>
          if connected p then
            let w1 := with_ports (alter disconnect_port port (ports w)) w in
            Some (if String.eqb (name p) "popup-connection" then onDisconnect w1 else w1)
          else None
      | None => None
      end
  | PortMessage port message =>
      if popup_port w port then Some (run_handler (handleUICommand message) w) else None
  | AttachStep =>
      match attaches w with
      | task :: rest => Some (run_handler (attach_resume task) (with_attaches rest w))
      | [] => None
      end
  | SocketOpen ws =>
      match socket_state w ws with
      | Some CONNECTING => Some (onopen ws (alter_socket (with_readyState OPEN) ws w))
      | _ => None
      end
  | SocketError ws =>
      match socket_state w ws with
      | Some CONNECTING => Some (onerror ws (alter_socket (with_readyState CLOSED) ws w))
      | _ => None
      end
  | SocketClosing ws =>
      match socket_state w ws with
      | Some OPEN => Some (alter_socket (with_readyState CLOSING) ws w)
      | _ => None
      end
  | SocketClose ws =>
      match socket_state w ws with
      | Some OPEN | Some CLOSING =>
          Some (onclose (alter_socket (with_readyState CLOSED) ws w))
      | _ => None
      end
  | SocketLost ws =>
      match socket_state w ws with
      | Some OPEN | Some CLOSING =>
          Some (onclose (onerror ws (alter_socket (with_readyState CLOSED) ws w)))
      | _ => None
      end
  | SocketMessage ws event now =>
      match socket_state w ws with
      | Some OPEN | Some CLOSING => Some (run_handler (onmessage event now) w)
      | _ => None
      end
  | TranscriptRead now =>
      match transcriptUpdates w with
      | (currentTranscript, newText) :: rest =>
          Some (run_handler (updateTranscriptStorage_resume now currentTranscript newText)
                  (with_transcriptUpdates rest w))
      | [] => None
      end
  | SendResume i throws =>
      match sends w !! i with
      | Some (h, message) =>
          match await h w with
          | Some settled =>
              Some (run_handler (sendMessageToNative_resume settled throws message)
                      (with_sends (delete i (sends w)) w))
          | None => None
          end
      | None => None
      end
  | StorageChanged =>
      match changeEvents w with
      | ev :: rest => Some (onChanged ev (with_changeEvents rest w))
      | [] => None
      end
  | Alarm alarm_name =>
      match alarms w !! alarm_name with
      | Some _ => Some (onAlarm alarm_name w)
      | None => None
      end
  | Startup => Some (onStartup w)
  | Installed reason => Some (onInstalled reason w)
  end.

Fixpoint run (trace : list Event) (w : World) : option World :=
  match trace with
  | [] => Some w
  | e :: trace' =>
      match step e w with
      | Some w' => run trace' w'
      | None => None
      end
  end.

(** The states the script can be in: those a sequence of events leads to
    from a fresh profile. *)
Inductive reachable : World -> Prop :=
| reachable_initial : reachable initial
| reachable_step e w w' : reachable w -> step e w = Some w' -> reachable w'.

(** * Specification-side definitions *)

(** ** The dispatch rules of the message router *)

(** The four rules of the router, in the order in which [ws.onmessage]
    tests them. *)
Inductive Rule : Type := StatusReport | NativeError | FinalTranscript | SummaryUpdate.

Definition rules : list Rule := [StatusReport; NativeError; FinalTranscript; SummaryUpdate].

Definition matches (fields : list (string * JsVal)) (r : Rule) : bool :=
  match r with
  | StatusReport => strict_eq (assoc "action" fields) (JStr "get_status")
  | NativeError => strict_eq (assoc "status" fields) (JStr "error")
  | FinalTranscript =>
      strict_eq (assoc "action" fields) (JStr "transcript")
      && strict_eq (assoc "type" fields) (JStr "final")
  | SummaryUpdate => strict_eq (assoc "action" fields) (JStr "summary_update")
  end.

(** Whether a value can be converted to a string, and the string it
    gives when it can. *)
Definition convertible (v : option JsVal) : bool :=
  match ToString_opt v with
  | Normal _ => true
  | Throw _ => false
  end.

Definition rendered (v : option JsVal) : string :=
  match ToString_opt v with
  | Normal s => s
  | Throw _ => ""
  end.

Definition summary_block (now : Date) (text : option JsVal) : string :=
  "[" +:+ toLocaleTimeString now +:+ "] " +:+ newline +:+ " " +:+ rendered text.

(** Whether the update of a rule runs to its end on a message: the
    summary rule formats the text of the message, and throws when the
    text cannot be converted to a string; the other rules convert
    nothing. *)
Definition completes (fields : list (string * JsVal)) (r : Rule) : bool :=
  match r with
  | SummaryUpdate => convertible (assoc "text" fields)
  | _ => true
  end.

Definition fire (fields : list (string * JsVal)) (now : Date) (r : Rule) (w : World) : World :=
  match r with
  | StatusReport =>
      session_set [(STORAGE_KEYS.isRecording,
                    JBool (strict_eq (assoc "is_recording" fields) (JBool true)))] w
  | NativeError => session_set [(STORAGE_KEYS.isRecording, JBool false)] w
  | FinalTranscript => updateTranscriptStorage (assoc "text" fields) w
  | SummaryUpdate =>
      local_set [(STORAGE_KEYS.summary, JStr (summary_block now (assoc "text" fields)))] w
  end.

Definition received (w : World) : World :=
  emit (console_log "Received from native app:") w.

Definition forward (fields : list (string * JsVal)) (w : World) : World :=
  run_handler (broadcastToUI (NATIVE_APP_MESSAGE (JObj fields))) w.

(** The router as the specification words it: the rules are evaluated
    independently, every rule that matches fires, and the message is
    forwarded. *)
Definition route_independent (fields : list (string * JsVal)) (now : Date) (w : World) : World :=
  forward fields
    (foldl (fun w r => if matches fields r then fire fields now r w else w) (received w) rules).

(** The state after the [catch] block of [ws.onmessage]. *)
Definition dropped (w : World) : World :=
  emit (console_error "Error parsing native message:") w.

(** The router as a priority chain: the first rule that matches fires,
    no other does, and the message is forwarded; when the update of that
    rule throws, nothing is stored and the message is dropped. *)
Definition route_first_match (fields : list (string * JsVal)) (now : Date) (w : World) : World :=
  match find (matches fields) rules with
  | Some r =>
      if completes fields r then forward fields (fire fields now r (received w))
      else dropped (received w)
  | None => forward fields (received w)
  end.

(** The state after the [catch] block of [sendMessageToNative]. *)
Definition send_failed (w : World) : World :=
  session_set [(STORAGE_KEYS.isRecording, JBool false)]
    (run_handler (broadcastToUI connectivity_error)
       (emit (console_error "Failed to send message to native app") w)).

(** ** The transcript log *)

(** A final transcript segment on which rule 3 fires: the error rule
    comes first in the chain, so the message is not an error report. *)
Definition final_transcript (fields : list (string * JsVal)) : Prop :=
  assoc "action" fields = Some (JStr "transcript") /\
  assoc "type" fields = Some (JStr "final") /\
  assoc "status" fields <> Some (JStr "error").

Definition transcript_line (now : Date) (text : option JsVal) : string :=
  "[" +:+ toLocaleTimeString now +:+ "] " +:+ rendered text.

(** The lines already held by a stored transcript: none when the key is
    absent or holds the empty string. *)
Definition stored_lines (currentTranscript : option JsVal) : list string :=
  if truthy currentTranscript then [rendered currentTranscript] else [].

(** The value [updateTranscriptStorage] writes back. *)
Definition appended (currentTranscript : option JsVal) (line : string) : string :=
  String.concat newline (stored_lines currentTranscript ++ [line]).

(** The storage reads answered in order, one per clock reading. *)
Fixpoint drain (nows : list Date) (w : World) : World :=
  match nows with
  | [] => w
  | now :: nows' =>
      match transcriptUpdates w with
      | (currentTranscript, newText) :: rest =>
          drain nows'
            (run_handler (updateTranscriptStorage_resume now currentTranscript newText)
               (with_transcriptUpdates rest w))
      | [] => w
      end
  end.

(** A frame handled to the end before anything else happens: the
    message is dispatched and the storage read it issued is answered. *)
Definition deliver (w : World) (m : list (string * JsVal) * Date) : World :=
  drain [m.2] (run_handler (onmessage (Some (JObj m.1)) m.2) w).

Definition cleared : Envelope :=
  NATIVE_APP_MESSAGE (JObj [("action", JStr "transcript"); ("type", JStr "clear")]).

Definition final_segment (text : string) : JsVal :=
  JObj [("action", JStr "transcript"); ("type", JStr "final"); ("text", JStr text)].

Definition failed_segment (text : string) : JsVal :=
  JObj [("action", JStr "transcript"); ("type", JStr "final"); ("text", JStr text);
        ("status", JStr "error")].

(** ** Footprints *)

(** A function that only writes to the console, the popup port or the
    toolbar button. *)
Definition output_only (f : World -> World) : Prop :=
  forall w, exists es, f w = with_effects (effects w ++ es) w.


(** The pending notifications that the [onChanged] listener acts on:
    the changes of the recording flag in session storage, oldest first. *)
Definition flag_change (ev : ChangeEvent) : option StorageChange :=
  if String.eqb (namespace ev) "session" then changes ev !! STORAGE_KEYS.isRecording
  else None.

Definition pending_flag_changes (w : World) : list StorageChange :=
  omap flag_change (changeEvents w).

(** [same_flag w w']: the recording flag, its pending notifications and
    the alarms are the same in [w'] as in [w]. *)
Definition same_flag (w w' : World) : Prop :=
  session w' = session w /\
  pending_flag_changes w' = pending_flag_changes w /\
  alarms w' = alarms w.

(** [same_connection w w']: the connection globals and the sockets are
    the same in [w'] as in [w]. *)
Definition same_connection (w w' : World) : Prop :=
  nativeWebSocket w' = nativeWebSocket w /\
  connectionPromise w' = connectionPromise w /\
  sockets w' = sockets w.

(** ** Connection attempts *)

Definition connecting (w : World) (ws : nat) : Prop :=
  socket_state w ws = Some CONNECTING.

(** The connection marker names a socket that is connecting, and a
    connection promise is pending exactly while its socket is
    connecting. *)
Definition connection_invariant (w : World) : Prop :=
  (forall ws, connectionPromise w = Some ws -> connecting w ws) /\
  (forall ws s, sockets w !! ws = Some s ->
     (promise s = Pending <-> readyState s = CONNECTING)).

(** The socket [getWebSocket] makes. *)
Definition new_socket : WebSocket :=
  {| url := NATIVE_WS_URL; readyState := CONNECTING; promise := Pending |}.

(** [n] calls of [getWebSocket()] in a row, as made by callers that
    run before any socket event is delivered. *)
Fixpoint acquire (n : nat) (w : World) : list Handle * World :=
  match n with
  | O => ([], w)
  | S n' =>
      let r := getWebSocket w in
      let rs := acquire n' r.2 in
      (r.1 :: rs.1, rs.2)
  end.

(** ** Writers of the recording flag *)

(** The events the specification names as writers of the flag: the
    message router and the startup and install resets. *)
Definition router_or_reset (e : Event) : Prop :=
  match e with
  | SocketMessage _ _ _ | Startup | Installed _ => True
  | _ => False
  end.

(** The events that write the flag in the code: the router on a status
    report or an error report, the close handler of the socket, the
    [catch] block of [sendMessageToNative], and the two resets. *)
Definition writes_flag (e : Event) (w : World) : Prop :=
  match e with
  | SocketMessage _ (Some (JObj fields)) _ =>
      matches fields StatusReport = true \/ matches fields NativeError = true
  | SocketClose _ | SocketLost _ | Startup | Installed _ => True
  | SendResume i throws =>
      throws = true \/
      exists h message e, sends w !! i = Some (h, message) /\ await h w = Some (Throw e)
  | _ => False
  end.

(** ** The health-check alarm *)

Definition health_check : AlarmInfo :=
  {| delayInMinutes := 3 # 10; periodInMinutes := 3 # 10 |}.

Definition timer_active (w : World) : Prop :=
  alarms w !! ALARM_HEALTH_CHECK = Some health_check.

Definition recording (w : World) : Prop :=
  session w !! STORAGE_KEYS.isRecording = Some (JBool true).

(** The notifications form a chain from the value the listener last
    saw to the stored value. *)
Fixpoint linked (seen : option JsVal) (pending : list StorageChange)
    (stored : option JsVal) : Prop :=
  match pending with
  | [] => seen = stored
  | change :: pending' => oldValue change = seen /\ linked (newValue change) pending' stored
  end.

Definition boolean_or_absent (v : option JsVal) : Prop :=
  v = None \/ exists b, v = Some (JBool b).

(** A notification of the flag: it carries a boolean, and the value
    really changed. *)
Definition flag_transition (change : StorageChange) : Prop :=
  (exists b, newValue change = Some (JBool b)) /\ oldValue change <> newValue change.

(** The alarm follows the flag as the listener last saw it. *)
Definition alarm_invariant (w : World) : Prop :=
  boolean_or_absent (session w !! STORAGE_KEYS.isRecording) /\
  (forall name a, alarms w !! name = Some a ->
     name = ALARM_HEALTH_CHECK /\ a = health_check) /\
  Forall flag_transition (pending_flag_changes w) /\
  exists seen,
    linked seen (pending_flag_changes w) (session w !! STORAGE_KEYS.isRecording) /\
    (timer_active w <-> truthy seen = true).

(** The items of the two writes to the flag: the flag alone, or the
    flag with the configuration as in the resets. *)
Definition flag_items (items : list (string * JsVal)) : Prop :=
  exists b, items = [(STORAGE_KEYS.isRecording, JBool b)] \/
            items = [(STORAGE_KEYS.isRecording, JBool b); (STORAGE_KEYS.config, JObj [])].

(** The state a sequence of events leads to from a fresh profile (the
    initial state when the sequence cannot happen). *)
Definition after (trace : list Event) : World := default initial (run trace initial).


(** * Further definitions *)

(** ** Observable output *)

(** The frames put on a socket and the envelopes posted to a port, in
    the order of the calls. *)
Definition sent_frame (e : Effect) : option (nat * Command) :=
  match e with
  | ws_send ws frame => Some (ws, frame)
  | _ => None
  end.

Definition posted_message (e : Effect) : option (nat * Envelope) :=
  match e with
  | port_postMessage port message => Some (port, message)
  | _ => None
  end.

Definition wire (w : World) : list (nat * Command) := omap sent_frame (effects w).

Definition posted (w : World) : list (nat * Envelope) := omap posted_message (effects w).

(** A function that writes neither to a socket nor to a port. *)
Definition quiet (f : World -> World) : Prop :=
  forall w, exists es,
    f w = with_effects (effects w ++ es) w /\
    omap sent_frame es = [] /\ omap posted_message es = [].

(** The port a broadcast reaches: the one [popupPort] holds, when it
    is still connected. *)
Definition observer (w : World) : option nat :=
  match popupPort w with
  | Some port =>
      match ports w !! port with
      | Some p => if connected p then Some port else None
      | None => None
      end
  | None => None
  end.

(** ** Commands of the popup *)

(** The outbound command of a popup message, by the [type] of the
    message; [CLEAR_TRANSCRIPT] and unknown types have none. *)
Definition outbound_command (fields : list (string * JsVal)) : option Command :=
  match assoc "type" fields with
  | Some (JStr type) =>
      if String.eqb type "START_CAPTURE"
      then Some {| action := "start_capture"; data := assoc "config" fields |}
      else if String.eqb type "STOP_CAPTURE"
      then Some {| action := "stop_capture"; data := None |}
      else if String.eqb type "GET_DEVICES"
      then Some {| action := "get_devices"; data := None |}
      else if String.eqb type "GET_STATUS"
      then Some {| action := "get_status"; data := None |}
      else None
  | _ => None
  end.

Definition command_actions : list string :=
  ["start_capture"; "stop_capture"; "get_status"; "get_devices"; "ping"].

Definition known_command (c : Command) : Prop := In (action c) command_actions.

(** ** Delivery of the waiting notifications *)


(** A summary update on which rule 4 fires. *)
Definition summary_update (fields : list (string * JsVal)) : Prop :=
  assoc "action" fields = Some (JStr "summary_update") /\
  assoc "status" fields <> Some (JStr "error").

(** An error report on which rule 2 fires. *)
Definition error_report (fields : list (string * JsVal)) : Prop :=
  assoc "status" fields = Some (JStr "error") /\
  assoc "action" fields <> Some (JStr "get_status").

(** The message the router forwards for a frame: the parsed value,
    unless parsing failed or gave [null], or the update of the first
    rule that matches threw (a summary update whose text cannot be
    converted to a string). *)
Definition forwarded (event : MessageEvent) : option JsVal :=
  match event with
  | Some JNull => None
  | Some (JObj fields) =>
      match find (matches fields) rules with
      | Some r => if completes fields r then Some (JObj fields) else None
      | None => Some (JObj fields)
      end
  | Some message => Some message
  | None => None
  end.

(** ** Popup attachment *)

Definition get_status_command : Command := {| action := "get_status"; data := None |}.
Definition get_devices_command : Command := {| action := "get_devices"; data := None |}.

(** A stored value that is absent or a string. *)
Definition is_text (v : option JsVal) : Prop :=
  match v with
  | None | Some (JStr _) => True
  | Some _ => False
  end.

(** The snapshot a popup receives when it attaches in state [w]. *)
Definition initial_state (w : World) : Envelope :=
  INITIAL_STATE (or_else (session w !! STORAGE_KEYS.isRecording) (JBool false))
    (or_else (local w !! STORAGE_KEYS.transcript) (JStr ""))
    (or_else (local w !! STORAGE_KEYS.summary) (JStr "")).

(** ** The queue of commands *)

(** The socket a handle stands for. *)
Definition handle_socket (h : Handle) : nat :=
  match h with
  | Immediate ws => ws
  | Awaiting p => p
  end.

(** Every socket was made for the native application; every command
    that waits in [sendMessageToNative] and every frame written to a
    socket names a socket that exists and carries one of the actions of
    the script. *)
Definition queue_invariant (w : World) : Prop :=
  Forall (fun s => url s = NATIVE_WS_URL) (sockets w) /\
  Forall (fun q => handle_socket q.1 < length (sockets w) /\ known_command q.2) (sends w) /\
  Forall (fun f => f.1 < length (sockets w) /\ known_command f.2) (wire w).

(** ** Writers of local storage *)

(** The events that write to [chrome.storage.local]: a summary update
    of the native application, the answer to the storage read of
    [updateTranscriptStorage], the [CLEAR_TRANSCRIPT] command and the
    two resets. *)
Definition writes_local (e : Event) : Prop :=
  match e with
  | SocketMessage _ (Some (JObj fields)) _ =>
      find (matches fields) rules = Some SummaryUpdate
  | PortMessage _ (JObj fields) => assoc "type" fields = Some (JStr "CLEAR_TRANSCRIPT")
  | TranscriptRead _ | Startup | Installed _ => True
  | _ => False
  end.

(** ** The popup script *)

(** [popup.js], the script of the window the toolbar button opens.  The
    state is what the handlers read and write: the properties of the
    status line, of the two capture buttons, of the two text areas and
    of the three selectors, the port to the background script with the
    messages posted on it, the calls to [chrome.storage], and the
    console.  The document of the popup has the elements the script asks
    for by id.  Scroll positions are layout and are left out, and so
    are the copy buttons, which only talk to the clipboard, and the
    device lists, whose options [populateDeviceDropdowns] builds from
    the document. *)
Module popup.

(** A read of local storage under way, named by what its callback
    updates. *)
Inductive LocalRead : Type := ReadTranscript | ReadSummary.

Record State : Type := {
  statusDiv_className : string;
  statusDiv_textContent : string;
  startBtn_disabled : bool;
  stopBtn_disabled : bool;
  transcriptArea_value : string;
  summaryArea_value : string;
  micDeviceSelect_value : string;
  systemDeviceSelect_value : string;
  languageSelect_value : string;
  (* the port made by [chrome.runtime.connect], and whether it is still
     connected *)
  port_open : bool;
  posts : list JsVal;
  (* [chrome.storage.sync.set(items)] *)
  sync_sets : list (list (string * JsVal));
  (* [chrome.storage.sync.get(['micDevice', 'systemDevice'], ...)], each
     with the device list its callback will show *)
  sync_gets : list (option JsVal);
  (* [chrome.storage.local.get([key], ...)] *)
  local_gets : list LocalRead;
  console : list string
}.

Definition with_status (className textContent : string) (p : State) : State :=
  {| statusDiv_className := className; statusDiv_textContent := textContent;
     startBtn_disabled := startBtn_disabled p; stopBtn_disabled := stopBtn_disabled p;
     transcriptArea_value := transcriptArea_value p;
     summaryArea_value := summaryArea_value p;
     micDeviceSelect_value := micDeviceSelect_value p;
     systemDeviceSelect_value := systemDeviceSelect_value p;
     languageSelect_value := languageSelect_value p; port_open := port_open p;
     posts := posts p; sync_sets := sync_sets p; sync_gets := sync_gets p;
     local_gets := local_gets p; console := console p |}.

Definition with_buttons (start stop : bool) (p : State) : State :=
  {| statusDiv_className := statusDiv_className p;
     statusDiv_textContent := statusDiv_textContent p; startBtn_disabled := start;
     stopBtn_disabled := stop; transcriptArea_value := transcriptArea_value p;
     summaryArea_value := summaryArea_value p;
     micDeviceSelect_value := micDeviceSelect_value p;
     systemDeviceSelect_value := systemDeviceSelect_value p;
     languageSelect_value := languageSelect_value p; port_open := port_open p;
     posts := posts p; sync_sets := sync_sets p; sync_gets := sync_gets p;
     local_gets := local_gets p; console := console p |}.

Definition with_transcriptArea (value : string) (p : State) : State :=
  {| statusDiv_className := statusDiv_className p;
     statusDiv_textContent := statusDiv_textContent p;
     startBtn_disabled := startBtn_disabled p; stopBtn_disabled := stopBtn_disabled p;
     transcriptArea_value := value; summaryArea_value := summaryArea_value p;
     micDeviceSelect_value := micDeviceSelect_value p;
     systemDeviceSelect_value := systemDeviceSelect_value p;
     languageSelect_value := languageSelect_value p; port_open := port_open p;
     posts := posts p; sync_sets := sync_sets p; sync_gets := sync_gets p;
     local_gets := local_gets p; console := console p |}.

Definition with_summaryArea (value : string) (p : State) : State :=
  {| statusDiv_className := statusDiv_className p;
     statusDiv_textContent := statusDiv_textContent p;
     startBtn_disabled := startBtn_disabled p; stopBtn_disabled := stopBtn_disabled p;
     transcriptArea_value := transcriptArea_value p; summaryArea_value := value;
     micDeviceSelect_value := micDeviceSelect_value p;
     systemDeviceSelect_value := systemDeviceSelect_value p;
     languageSelect_value := languageSelect_value p; port_open := port_open p;
     posts := posts p; sync_sets := sync_sets p; sync_gets := sync_gets p;
     local_gets := local_gets p; console := console p |}.

Definition with_port_open (b : bool) (p : State) : State :=
  {| statusDiv_className := statusDiv_className p;
     statusDiv_textContent := statusDiv_textContent p;
     startBtn_disabled := startBtn_disabled p; stopBtn_disabled := stopBtn_disabled p;
     transcriptArea_value := transcriptArea_value p;
     summaryArea_value := summaryArea_value p;
     micDeviceSelect_value := micDeviceSelect_value p;
     systemDeviceSelect_value := systemDeviceSelect_value p;
     languageSelect_value := languageSelect_value p; port_open := b; posts := posts p;
     sync_sets := sync_sets p; sync_gets := sync_gets p; local_gets := local_gets p;
     console := console p |}.

Definition with_posts (x : list JsVal) (p : State) : State :=
  {| statusDiv_className := statusDiv_className p;
     statusDiv_textContent := statusDiv_textContent p;
     startBtn_disabled := startBtn_disabled p; stopBtn_disabled := stopBtn_disabled p;
     transcriptArea_value := transcriptArea_value p;
     summaryArea_value := summaryArea_value p;
     micDeviceSelect_value := micDeviceSelect_value p;
     systemDeviceSelect_value := systemDeviceSelect_value p;
     languageSelect_value := languageSelect_value p; port_open := port_open p; posts := x;
     sync_sets := sync_sets p; sync_gets := sync_gets p; local_gets := local_gets p;
     console := console p |}.

Definition with_sync_sets (x : list (list (string * JsVal))) (p : State) : State :=
  {| statusDiv_className := statusDiv_className p;
     statusDiv_textContent := statusDiv_textContent p;
     startBtn_disabled := startBtn_disabled p; stopBtn_disabled := stopBtn_disabled p;
     transcriptArea_value := transcriptArea_value p;
     summaryArea_value := summaryArea_value p;
     micDeviceSelect_value := micDeviceSelect_value p;
     systemDeviceSelect_value := systemDeviceSelect_value p;
     languageSelect_value := languageSelect_value p; port_open := port_open p;
     posts := posts p; sync_sets := x; sync_gets := sync_gets p;
     local_gets := local_gets p; console := console p |}.

Definition with_sync_gets (x : list (option JsVal)) (p : State) : State :=
  {| statusDiv_className := statusDiv_className p;
     statusDiv_textContent := statusDiv_textContent p;
     startBtn_disabled := startBtn_disabled p; stopBtn_disabled := stopBtn_disabled p;
     transcriptArea_value := transcriptArea_value p;
     summaryArea_value := summaryArea_value p;
     micDeviceSelect_value := micDeviceSelect_value p;
     systemDeviceSelect_value := systemDeviceSelect_value p;
     languageSelect_value := languageSelect_value p; port_open := port_open p;
     posts := posts p; sync_sets := sync_sets p; sync_gets := x;
     local_gets := local_gets p; console := console p |}.

Definition with_local_gets (x : list LocalRead) (p : State) : State :=
  {| statusDiv_className := statusDiv_className p;
     statusDiv_textContent := statusDiv_textContent p;
     startBtn_disabled := startBtn_disabled p; stopBtn_disabled := stopBtn_disabled p;
     transcriptArea_value := transcriptArea_value p;
     summaryArea_value := summaryArea_value p;
     micDeviceSelect_value := micDeviceSelect_value p;
     systemDeviceSelect_value := systemDeviceSelect_value p;
     languageSelect_value := languageSelect_value p; port_open := port_open p;
     posts := posts p; sync_sets := sync_sets p; sync_gets := sync_gets p; local_gets := x;
     console := console p |}.

Definition with_console (x : list string) (p : State) : State :=
  {| statusDiv_className := statusDiv_className p;
     statusDiv_textContent := statusDiv_textContent p;
     startBtn_disabled := startBtn_disabled p; stopBtn_disabled := stopBtn_disabled p;
     transcriptArea_value := transcriptArea_value p;
     summaryArea_value := summaryArea_value p;
     micDeviceSelect_value := micDeviceSelect_value p;
     systemDeviceSelect_value := systemDeviceSelect_value p;
     languageSelect_value := languageSelect_value p; port_open := port_open p;
     posts := posts p; sync_sets := sync_sets p; sync_gets := sync_gets p;
     local_gets := local_gets p; console := x |}.

Definition console_log (text : string) (p : State) : State :=
  with_console (console p ++ [text]) p.

(** A handler that may throw, followed by another: the second runs
    only when the first returns. *)
Definition and_then (m k : State -> Completion unit * State) (p : State)
  : Completion unit * State :=
  match m p with
  | (Normal _, p') => k p'
  | (Throw e, p') => (Throw e, p')
  end.

Definition effect (f : State -> State) (p : State) : Completion unit * State :=
  (Normal tt, f p).

(** [statusDiv.className = className]. *)
Definition with_className (className : string) (p : State) : State :=
  with_status className (statusDiv_textContent p) p.

(** A value assigned to [textContent], a nullable string: [null] and
    [undefined] give the empty string, any other value is converted to
    a string, and the assignment throws when the conversion does. *)
Definition text_of (v : option JsVal) : Completion string :=
  match v with
  | None | Some JNull => Normal ""
  | Some x => ToString x
  end.

(** [statusDiv.textContent = v]. *)
Definition set_textContent (v : option JsVal) (p : State) : Completion unit * State :=
  match text_of v with
  | Normal text => (Normal tt, with_status (statusDiv_className p) text p)
  | Throw e => (Throw e, p)
  end.

(** The value a text area reports after a string was assigned to its
    [value]: the string with every line break, written CR LF or CR
    alone, replaced by a line feed. *)
Fixpoint normalize_newlines (s : string) : string :=
  match s with
  | EmptyString => EmptyString
  | String c s' =>
      if Ascii.eqb c (ascii_of_nat 13) then
        match s' with
        | String c' s'' =>
            if Ascii.eqb c' (ascii_of_nat 10)
            then String (ascii_of_nat 10) (normalize_newlines s'')
            else String (ascii_of_nat 10) (normalize_newlines s')
        | EmptyString => String (ascii_of_nat 10) EmptyString
        end
      else String c (normalize_newlines s')
  end.

(** *** 2. UI update functions *)

(** [message] defaults to [null]. *)
Definition updateRecordingUI (isRecording message : option JsVal) : State
  -> Completion unit * State :=
  if truthy isRecording then
    and_then (effect (with_className "status recording"))
      (and_then
         (set_textContent (Some (or_else message (JStr "Trạng thái: Đang ghi âm..."))))
         (effect (with_buttons true false)))
  else
    and_then (effect (with_className "status ready"))
      (and_then
         (set_textContent (Some (or_else message (JStr "Trạng thái: Sẵn sàng"))))
         (effect (with_buttons false true))).

Definition updateTranscriptUI (transcriptText : option JsVal) (p : State)
  : Completion unit * State :=
  match ToString (or_else transcriptText (JStr "")) with
  | Normal value => (Normal tt, with_transcriptArea (normalize_newlines value) p)
  | Throw e => (Throw e, p)
  end.

Definition updateSummaryUI (summaryText : option JsVal) (p : State)
  : Completion unit * State :=
  match ToString (or_else summaryText (JStr "")) with
  | Normal value => (Normal tt, with_summaryArea (normalize_newlines value) p)
  | Throw e => (Throw e, p)
  end.

(** [statusType] defaults to ['warning']. *)
Definition showNotification (message statusType : option JsVal) (p : State)
  : Completion unit * State :=
  let statusType := match statusType with Some v => v | None => JStr "warning" end in
  match ToString statusType with
  | Normal statusType =>
      and_then (effect (with_className ("status " +:+ statusType))) (set_textContent message) p
  | Throw e => (Throw e, p)
  end.

(** *** 3. The port and its listeners *)

(** [port.postMessage(message)] throws on a disconnected port. *)
Definition postMessage (message : JsVal) (p : State) : Completion unit * State :=
  if port_open p then (Normal tt, with_posts (posts p ++ [message]) p)
  else (Throw DisconnectedPort, p).

(** The [port.onMessage] listener.  The fields of [message.data] are
    taken by a destructuring pattern, which throws on [null]. *)
Definition port_onMessage (message : Envelope) (p : State) : Completion unit * State :=
  let p := console_log "Received message via port:" p in
  match message with
  | INITIAL_STATE isRecording transcript summary =>
      and_then (updateRecordingUI (Some isRecording) None)
        (and_then (updateTranscriptUI (Some transcript))
           (and_then (updateSummaryUI (Some summary))
              (effect (console_log "Received message via port:")))) p
  | NATIVE_APP_MESSAGE data =>
      match get_prop data "action" with
      | Throw e => (Throw e, p)
      | Normal action =>
          let field k := match get_prop data k with Normal v => v | Throw _ => None end in
          let status := field "status" in
          let devices := field "devices" in
          let msgText := field "message" in
          let is_recording := field "is_recording" in
          let transcriptType := field "type" in
          and_then
            (if strict_eq action (JStr "get_devices") then
               effect (fun p => with_sync_gets (sync_gets p ++ [devices]) p)
             else if strict_eq action (JStr "get_status") then
               updateRecordingUI is_recording msgText
             else if strict_eq action (JStr "transcript") then
               if strict_eq transcriptType (JStr "clear") then
                 and_then (updateTranscriptUI (Some (JStr "")))
                   (updateSummaryUI (Some (JStr "")))
               else effect (fun p => with_local_gets (local_gets p ++ [ReadTranscript]) p)
             else if strict_eq action (JStr "summary_update") then
               effect (fun p => with_local_gets (local_gets p ++ [ReadSummary]) p)
             else effect id)
            (if strict_eq status (JStr "error") || strict_eq status (JStr "warning")
             then showNotification msgText status
             else effect id) p
      end
  end.

(** The callback of a read of local storage, given what the read
    returns. *)
Definition local_get_callback (r : LocalRead) (result : gmap string JsVal) (p : State)
  : Completion unit * State :=
  match r with
  | ReadTranscript => updateTranscriptUI (result !! STORAGE_KEYS.transcript) p
  | ReadSummary => updateSummaryUI (result !! STORAGE_KEYS.summary) p
  end.

(** The [port.onDisconnect] listener. *)
Definition port_onDisconnect : State -> Completion unit * State :=
  and_then
    (showNotification (Some (JStr "Mất kết nối với background. Vui lòng mở lại popup."))
       (Some (JStr "error")))
    (effect (with_buttons true true)).

(** *** 4. Event handlers *)

Definition settings (p : State) : list (string * JsVal) :=
  [("micDevice", JStr (micDeviceSelect_value p));
   ("systemDevice", JStr (systemDeviceSelect_value p));
   ("language", JStr (languageSelect_value p))].

Definition saveSettings (p : State) : State :=
  with_sync_sets (sync_sets p ++ [settings p]) p.

(** The [click] listener of [startBtn]. *)
Definition startBtn_click (p : State) : Completion unit * State :=
  let p := saveSettings p in
  let config := JObj (settings p) in
  and_then (postMessage (JObj [("type", JStr "START_CAPTURE"); ("config", config)]))
    (and_then
       (showNotification (Some (JStr "Đang khởi động...")) (Some (JStr "recording")))
       (effect (with_buttons true true))) p.

(** The [click] listener of [stopBtn]. *)
Definition stopBtn_click : State -> Completion unit * State :=
  and_then (postMessage (JObj [("type", JStr "STOP_CAPTURE")]))
    (and_then (showNotification (Some (JStr "Đang dừng...")) (Some (JStr "ready")))
       (effect (with_buttons true true))).

(** The [click] listener of [clearTranscriptBtn]. *)
Definition clearTranscriptBtn_click : State -> Completion unit * State :=
  and_then (postMessage (JObj [("type", JStr "CLEAR_TRANSCRIPT")]))
    (and_then (updateTranscriptUI (Some (JStr ""))) (updateSummaryUI (Some (JStr "")))).

End popup.

(** * Properties *)

(** ** JavaScript values *)

Lemma String_eqb_true (a b : string) : String.eqb a b = true <-> a = b.
Proof. apply String.eqb_eq. Qed.

Lemma JsVal_eqb_sound : forall a b : JsVal, JsVal_eqb a b = true -> a = b.
Proof.
  fix IH 1. intros a b. destruct a, b; simpl; try discriminate.
  - reflexivity.
  - intros H. apply Bool.eqb_prop in H. congruence.
  - intros H. apply String.eqb_eq in H. congruence.
  - intros H. apply String.eqb_eq in H. congruence.
  - revert items0. induction items as [|x xs IHxs]; intros [|y ys] H; try discriminate.
    + reflexivity.
    + apply andb_true_iff in H as [Hx Hxs].
      apply IH in Hx. apply IHxs in Hxs. congruence.
  - revert fields0. induction fields as [|[k x] fs IHfs]; intros [|[l y] gs] H; try discriminate.
    + reflexivity.
    + apply andb_true_iff in H as [H Hfs]. apply andb_true_iff in H as [Hk Hx].
      apply String.eqb_eq in Hk. apply IH in Hx. apply IHfs in Hfs. congruence.
Qed.

Lemma JsVal_eqb_refl : forall a : JsVal, JsVal_eqb a a = true.
Proof.
  fix IH 1. intros a. destruct a; simpl.
  - reflexivity.
  - apply Bool.eqb_reflx.
  - apply String.eqb_refl.
  - apply String.eqb_refl.
  - induction items as [|x xs IHxs]; [reflexivity|].
    rewrite IH, IHxs. reflexivity.
  - induction fields as [|[k x] fs IHfs]; [reflexivity|].
    rewrite String.eqb_refl, IH, IHfs. reflexivity.
Qed.

Lemma JsVal_eqb_eq (a b : JsVal) : JsVal_eqb a b = true <-> a = b.
Proof.
  split; [apply JsVal_eqb_sound|]. intros ->. apply JsVal_eqb_refl.
Qed.

Lemma strict_eq_true (a : option JsVal) (b : JsVal) :
  strict_eq a b = true <-> a = Some b.
Proof.
  destruct a as [v|]; simpl; [|split; discriminate].
  rewrite JsVal_eqb_eq. split; congruence.
Qed.

#[global] Instance JsVal_eq_dec : EqDecision JsVal.
Proof.
  intros a b. destruct (JsVal_eqb a b) eqn:H.
  - left. apply JsVal_eqb_sound, H.
  - right. intros ->. rewrite JsVal_eqb_refl in H. discriminate.
Defined.

(** ** Output-only code *)

Lemma with_effects_id (w : World) : with_effects (effects w) w = w.
Proof. destruct w; reflexivity. Qed.

Lemma with_effects_twice (a b : list Effect) (w : World) :
  with_effects b (with_effects a w) = with_effects b w.
Proof. reflexivity. Qed.

Lemma output_only_id : output_only (fun w => w).
Proof. intros w. exists []. rewrite app_nil_r. symmetry. apply with_effects_id. Qed.

Lemma output_only_emit e : output_only (emit e).
Proof. intros w. exists [e]. reflexivity. Qed.

Lemma output_only_compose f g :
  output_only f -> output_only g -> output_only (fun w => g (f w)).
Proof.
  intros Hf Hg w. destruct (Hf w) as [es ->].
  destruct (Hg (with_effects (effects w ++ es) w)) as [es' ->].
  exists (es ++ es'). simpl. rewrite app_assoc. reflexivity.
Qed.

Lemma output_only_updateIcon state : output_only (updateIcon state).
Proof.
  unfold updateIcon. destruct (ICONS state).
  - apply output_only_emit.
  - apply output_only_id.
Qed.

Lemma output_only_updateBadge b : output_only (updateBadge b).
Proof.
  intros w. unfold updateBadge. destruct b.
  - destruct (output_only_updateIcon "recording"
      (emit (setTitle "Audio Capture - Đang ghi âm")
         (emit (setBadgeBackgroundColor "#FF0000") (emit (setBadgeText "REC") w)))) as [es ->].
    eexists. simpl. rewrite <- !app_assoc. reflexivity.
  - simpl. destruct (nativeWebSocket w) as [ws|]; [destruct (is_open _ ws)|].
    all: match goal with |- context [updateIcon ?s ?x] =>
           destruct (output_only_updateIcon s x) as [es ->] end.
    all: eexists; simpl; rewrite <- !app_assoc; reflexivity.
Qed.

Lemma postMessage_cases port message w :
  postMessage port message w = (Normal tt, emit (port_postMessage port message) w) \/
  postMessage port message w = (Throw DisconnectedPort, w).
Proof.
  unfold postMessage. destruct (ports w !! port) as [p|]; [destruct (connected p)|]; auto.
Qed.

(** [broadcastToUI] catches what [postMessage] throws. *)
Lemma broadcastToUI_normal message w :
  exists es, broadcastToUI message w = (Normal tt, with_effects (effects w ++ es) w).
Proof.
  unfold broadcastToUI. destruct (popupPort w) as [port|].
  - unfold try_catch. destruct (postMessage_cases port message w) as [-> | ->].
    + eexists. reflexivity.
    + eexists. reflexivity.
  - exists []. rewrite app_nil_r, with_effects_id. reflexivity.
Qed.

Lemma broadcastToUI_attached message w port p :
  popupPort w = Some port -> ports w !! port = Some p -> connected p = true ->
  broadcastToUI message w = (Normal tt, emit (port_postMessage port message) w).
Proof.
  intros Hp Hl Hc. unfold broadcastToUI, try_catch, postMessage.
  rewrite Hp, Hl, Hc. reflexivity.
Qed.

(** ** Storage *)

Lemma store_item_stored acc k v : (store_item acc (k, v)).1 = <[k := v]> acc.1.
Proof.
  unfold store_item. simpl. destruct (acc.1 !! k) as [old|] eqn:Hk; [|reflexivity].
  destruct (JsVal_eqb old v) eqn:He; [|reflexivity].
  apply JsVal_eqb_sound in He. subst. symmetry. apply insert_id, Hk.
Qed.

Lemma store_item_changes acc k v :
  (store_item acc (k, v)).2 =
    if bool_decide (acc.1 !! k = Some v) then acc.2
    else <[k := {| oldValue := acc.1 !! k; newValue := Some v |}]> acc.2.
Proof.
  unfold store_item. simpl. destruct (acc.1 !! k) as [old|] eqn:Hk.
  - destruct (JsVal_eqb old v) eqn:He.
    + apply JsVal_eqb_sound in He. subst. rewrite bool_decide_eq_true_2; reflexivity.
    + rewrite bool_decide_eq_false_2; [reflexivity|].
      intros [= ->]. rewrite JsVal_eqb_refl in He. discriminate.
  - rewrite bool_decide_eq_false_2; [reflexivity | discriminate].
Qed.

Lemma area_set_one k v area :
  area_set [(k, v)] area =
    (<[k := v]> area,
     if bool_decide (area !! k = Some v) then ∅
     else {[k := {| oldValue := area !! k; newValue := Some v |}]}).
Proof.
  unfold area_set. simpl.
  rewrite (surjective_pairing (store_item _ _)).
  rewrite store_item_stored, store_item_changes. reflexivity.
Qed.

Lemma area_set_two k1 v1 k2 v2 area :
  area_set [(k1, v1); (k2, v2)] area =
    (<[k2 := v2]> (<[k1 := v1]> area),
     let c1 : gmap string StorageChange :=
       if bool_decide (area !! k1 = Some v1) then ∅
       else {[k1 := {| oldValue := area !! k1; newValue := Some v1 |}]} in
     if bool_decide (<[k1 := v1]> area !! k2 = Some v2) then c1
     else <[k2 := {| oldValue := <[k1 := v1]> area !! k2; newValue := Some v2 |}]> c1).
Proof.
  unfold area_set. simpl.
  rewrite (surjective_pairing (store_item (store_item _ _) _)).
  rewrite store_item_stored, store_item_changes.
  rewrite (surjective_pairing (store_item _ _)).
  rewrite store_item_stored, store_item_changes. reflexivity.
Qed.

Lemma notify_cases ns chg w :
  (chg = ∅ /\ notify ns chg w = w) \/
  (chg <> ∅ /\
   notify ns chg w =
     with_changeEvents (changeEvents w ++ [{| changes := chg; namespace := ns |}]) w).
Proof.
  unfold notify. destruct (bool_decide (size chg = 0)) eqn:H.
  - left. apply bool_decide_eq_true in H. apply map_size_empty_inv in H. auto.
  - right. apply bool_decide_eq_false in H. split; [|reflexivity].
    intros ->. apply H. apply map_size_empty.
Qed.

(** What a [set] leaves alone. *)
Lemma session_set_frame items w :
  let w' := session_set items w in
  nativeWebSocket w' = nativeWebSocket w /\ popupPort w' = popupPort w /\
  connectionPromise w' = connectionPromise w /\ sockets w' = sockets w /\
  ports w' = ports w /\ local w' = local w /\ alarms w' = alarms w /\
  transcriptUpdates w' = transcriptUpdates w /\ sends w' = sends w /\
  attaches w' = attaches w /\ effects w' = effects w.
Proof.
  unfold session_set.
  destruct (notify_cases "session" (area_set items (session w)).2
              (with_session (area_set items (session w)).1 w)) as [[_ ->] | [_ ->]];
    simpl; repeat split.
Qed.

Lemma local_set_frame items w :
  let w' := local_set items w in
  nativeWebSocket w' = nativeWebSocket w /\ popupPort w' = popupPort w /\
  connectionPromise w' = connectionPromise w /\ sockets w' = sockets w /\
  ports w' = ports w /\ session w' = session w /\ alarms w' = alarms w /\
  transcriptUpdates w' = transcriptUpdates w /\ sends w' = sends w /\
  attaches w' = attaches w /\ effects w' = effects w.
Proof.
  unfold local_set.
  destruct (notify_cases "local" (area_set items (local w)).2
              (with_local (area_set items (local w)).1 w)) as [[_ ->] | [_ ->]];
    simpl; repeat split.
Qed.

Lemma session_set_flag v w :
  session (session_set [(STORAGE_KEYS.isRecording, v)] w)
  = <[STORAGE_KEYS.isRecording := v]> (session w).
Proof.
  unfold session_set. rewrite area_set_one. simpl.
  match goal with |- context [notify ?ns ?c ?x] =>
    destruct (notify_cases ns c x) as [[_ ->] | [_ ->]] end; reflexivity.
Qed.

Lemma local_set_one k v w :
  local (local_set [(k, v)] w) = <[k := v]> (local w).
Proof.
  unfold local_set. rewrite area_set_one. simpl.
  match goal with |- context [notify ?ns ?c ?x] =>
    destruct (notify_cases ns c x) as [[_ ->] | [_ ->]] end; reflexivity.
Qed.

Lemma local_set_two k1 v1 k2 v2 w :
  local (local_set [(k1, v1); (k2, v2)] w) = <[k2 := v2]> (<[k1 := v1]> (local w)).
Proof.
  unfold local_set. rewrite area_set_two. simpl.
  match goal with |- context [notify ?ns ?c ?x] =>
    destruct (notify_cases ns c x) as [[_ ->] | [_ ->]] end; reflexivity.
Qed.

Lemma session_set_two k1 v1 k2 v2 w :
  session (session_set [(k1, v1); (k2, v2)] w) = <[k2 := v2]> (<[k1 := v1]> (session w)).
Proof.
  unfold session_set. rewrite area_set_two. simpl.
  match goal with |- context [notify ?ns ?c ?x] =>
    destruct (notify_cases ns c x) as [[_ ->] | [_ ->]] end; reflexivity.
Qed.

(** ** The message router *)

Ltac broadcast_normal :=
  match goal with
  | |- context [broadcastToUI ?m ?x] =>
      let es := fresh "es" in
      destruct (broadcastToUI_normal m x) as [es ->]
  end.

Lemma onmessage_object fields now w :
  onmessage (Some (JObj fields)) now w = (Normal tt, route_first_match fields now w).
Proof.
  unfold route_first_match, forward, run_handler, received, summary_block, dropped.
  unfold completes, convertible, rendered.
  unfold onmessage, onmessage_try, try_catch, bind, JSON_parse, ret, lift, of_completion.
  simpl.
  destruct (strict_eq (assoc "action" fields) (JStr "get_status")); simpl;
    [broadcast_normal; reflexivity|].
  destruct (strict_eq (assoc "status" fields) (JStr "error")); simpl;
    [broadcast_normal; reflexivity|].
  destruct (strict_eq (assoc "action" fields) (JStr "transcript")); simpl;
    [destruct (strict_eq (assoc "type" fields) (JStr "final")); simpl;
       [broadcast_normal; reflexivity|] |].
  all: destruct (strict_eq (assoc "action" fields) (JStr "summary_update")); simpl.
  all: try (broadcast_normal; reflexivity).
  all: unfold summary_block, rendered;
    destruct (ToString_opt (assoc "text" fields)); simpl;
    [broadcast_normal; reflexivity | reflexivity].
Qed.

Lemma onmessage_syntax_error now w :
  onmessage None now w
  = (Normal tt, emit (console_error "Error parsing native message:") w).
Proof. reflexivity. Qed.

Lemma onmessage_null now w :
  onmessage (Some JNull) now w
  = (Normal tt, emit (console_error "Error parsing native message:") (received w)).
Proof. reflexivity. Qed.

(** A message that is neither an object nor [null] has none of the
    properties the rules read. *)
Lemma onmessage_other message now w :
  message <> JNull -> (forall fields, message <> JObj fields) ->
  exists es, onmessage (Some message) now w
             = (Normal tt, with_effects (effects w ++ es) w).
Proof.
  intros Hn Ho.
  unfold onmessage, onmessage_try, try_catch, bind, JSON_parse, ret, lift, of_completion.
  destruct message as [| | | | |fields]; try congruence; simpl.
  all: broadcast_normal; eexists; simpl; rewrite <- app_assoc; reflexivity.
Qed.

Lemma forward_output_only fields : output_only (forward fields).
Proof.
  intros w. unfold forward, run_handler.
  destruct (broadcastToUI_normal (NATIVE_APP_MESSAGE (JObj fields)) w) as [es ->].
  exists es. reflexivity.
Qed.

Ltac forward_out :=
  match goal with
  | |- context [forward ?f ?x] =>
      let es := fresh "es" in
      destruct (forward_output_only f x) as [es ->]; simpl
  end.

(** Where the independent reading and the priority chain agree: on a
    message that matches at most one rule, whose update runs to its
    end. *)
Lemma route_independent_single fields now w :
  length (List.filter (matches fields) rules) <= 1 ->
  convertible (assoc "text" fields) = true ->
  route_first_match fields now w = route_independent fields now w.
Proof.
  unfold route_first_match, route_independent, rules.
  cbn [List.filter foldl find completes]. intros H Hc.
  destruct (matches fields StatusReport), (matches fields NativeError),
    (matches fields FinalTranscript), (matches fields SummaryUpdate);
    cbn [length completes] in *; try lia; try rewrite Hc; reflexivity.
Qed.

(** C1 (as amended): the router is a priority chain.  For every inbound
    message that is a JSON object, [ws.onmessage] applies the state
    update of the first rule that matches, in the order status report,
    native error, final transcript, summary update, and applies no
    other update.  When that update returns, the message is forwarded
    to the popup.  The one update that can throw is that of the summary
    rule, on a text that cannot be converted to a string: then nothing
    is stored, the error is logged and the message is not forwarded. *)
Theorem router_is_priority_chain fields now w :
  onmessage (Some (JObj fields)) now w = (Normal tt, route_first_match fields now w).
Proof. apply onmessage_object. Qed.

(** C1, counterexample: a status report with [is_recording: true] that
    also carries [status: 'error'] matches rules 1 and 2; the handler
    leaves the flag true, where firing both rules would leave it false. *)
Lemma router_fires_first_rule_only :
  let fields := [("action", JStr "get_status"); ("is_recording", JBool true);
                 ("status", JStr "error")] in
  matches fields StatusReport = true /\ matches fields NativeError = true /\
  session (run_handler (onmessage (Some (JObj fields)) 0) initial)
    !! STORAGE_KEYS.isRecording = Some (JBool true) /\
  session (route_independent fields 0 initial)
    !! STORAGE_KEYS.isRecording = Some (JBool false).
Proof. vm_compute. repeat split. Qed.

(** C4: a frame that [JSON.parse] rejects is dropped.  The handler
    returns normally, its only effect is one line on the error console:
    nothing is posted to the popup, and session storage, local storage
    and every queue are as they were. *)
Theorem malformed_frame_dropped now w :
  let w' := run_handler (onmessage None now) w in
  fst (onmessage None now w) = Normal tt /\
  w' = with_effects (effects w ++ [console_error "Error parsing native message:"]) w /\
  session w' = session w /\ local w' = local w /\ alarms w' = alarms w /\
  changeEvents w' = changeEvents w /\ transcriptUpdates w' = transcriptUpdates w /\
  sends w' = sends w.
Proof. repeat split. Qed.

(** C7: a status report sets the recording flag to [true] exactly when
    its [is_recording] field is the boolean [true]; when the field is
    absent or has any other value the flag is set to [false]. *)
Theorem status_report_sets_flag fields now w :
  assoc "action" fields = Some (JStr "get_status") ->
  exists b : bool,
    session (run_handler (onmessage (Some (JObj fields)) now) w)
      !! STORAGE_KEYS.isRecording = Some (JBool b) /\
    (b = true <-> assoc "is_recording" fields = Some (JBool true)).
Proof.
  intros Ha. unfold run_handler. rewrite onmessage_object. simpl.
  unfold route_first_match, rules. simpl. rewrite Ha. simpl.
  exists (strict_eq (assoc "is_recording" fields) (JBool true)). split.
  - forward_out. rewrite session_set_flag. apply lookup_insert_eq.
  - apply strict_eq_true.
Qed.

Lemma status_report_sets_flag_witness :
  exists b : bool,
    session (run_handler (onmessage (Some (JObj [("action", JStr "get_status")])) 0) initial)
      !! STORAGE_KEYS.isRecording = Some (JBool b) /\
    (b = true <-> assoc "is_recording" [("action", JStr "get_status")] = Some (JBool true)).
Proof. apply (status_report_sets_flag [("action", JStr "get_status")] 0%N initial). reflexivity. Defined.

Lemma strict_eq_false (a : option JsVal) (b : JsVal) :
  a <> Some b -> strict_eq a b = false.
Proof.
  intros H. destruct (strict_eq a b) eqn:E; [|reflexivity].
  apply strict_eq_true in E. contradiction.
Qed.

(** C10: a transcript message whose [type] is not ['final'], and which
    is not an error report, changes neither the stored transcript and
    summary nor the recording flag and starts no transcript update; it
    is still forwarded whole as a [NATIVE_APP_MESSAGE] envelope, which
    an attached popup receives. *)
Theorem partial_transcript_is_only_forwarded fields now w :
  assoc "action" fields = Some (JStr "transcript") ->
  assoc "type" fields <> Some (JStr "final") ->
  assoc "status" fields <> Some (JStr "error") ->
  let w' := run_handler (onmessage (Some (JObj fields)) now) w in
  w' = forward fields (received w) /\
  session w' = session w /\ local w' = local w /\
  transcriptUpdates w' = transcriptUpdates w /\ changeEvents w' = changeEvents w /\
  forall port p,
    popupPort w = Some port -> ports w !! port = Some p -> connected p = true ->
    effects w' = effects w ++ [console_log "Received from native app:";
                               port_postMessage port (NATIVE_APP_MESSAGE (JObj fields))].
Proof.
  intros Ha Ht Hs. unfold run_handler. rewrite onmessage_object. simpl.
  unfold route_first_match, rules. cbn [find matches].
  rewrite Ha, (strict_eq_false _ _ Ht), (strict_eq_false _ _ Hs). simpl.
  split; [reflexivity|].
  repeat split; try (forward_out; reflexivity).
  intros port p Hp Hl Hc. unfold forward, run_handler.
  rewrite (broadcastToUI_attached _ _ port p); try assumption.
  simpl. rewrite <- app_assoc. reflexivity.
Qed.

Lemma partial_transcript_is_only_forwarded_witness :
  let fields := [("action", JStr "transcript"); ("type", JStr "partial");
                 ("text", JStr "hel")] in
  let w := after [PortConnect "popup-connection"] in
  let w' := run_handler (onmessage (Some (JObj fields)) 0) w in
  assoc "action" fields = Some (JStr "transcript") /\
  assoc "type" fields <> Some (JStr "final") /\
  assoc "status" fields <> Some (JStr "error") /\
  session w' = session w /\ local w' = local w /\
  effects w' = effects w ++ [console_log "Received from native app:";
                             port_postMessage 0 (NATIVE_APP_MESSAGE (JObj fields))].
Proof.
  cbn zeta.
  assert (Ha : assoc "action" [("action", JStr "transcript"); ("type", JStr "partial");
                               ("text", JStr "hel")] = Some (JStr "transcript"))
    by reflexivity.
  assert (Ht : assoc "type" [("action", JStr "transcript"); ("type", JStr "partial");
                             ("text", JStr "hel")] <> Some (JStr "final"))
    by (simpl; discriminate).
  assert (Hs : assoc "status" [("action", JStr "transcript"); ("type", JStr "partial");
                               ("text", JStr "hel")] <> Some (JStr "error"))
    by (simpl; discriminate).
  destruct (partial_transcript_is_only_forwarded _ 0%N
              (after [PortConnect "popup-connection"]) Ha Ht Hs)
    as (_ & Hse & Hlo & _ & _ & Hpost).
  split; [exact Ha|]. split; [exact Ht|]. split; [exact Hs|].
  split; [exact Hse|]. split; [exact Hlo|].
  apply (Hpost 0 {| name := "popup-connection"; connected := true |}); reflexivity.
Defined.

(** ** Sending *)


Lemma sendMessageToNative_resume_cases settled throws message w :
  let w' := run_handler (sendMessageToNative_resume settled throws message) w in
  (exists ws, settled = Normal ws /\ throws = false /\ w' = emit (ws_send ws message) w) \/
  (((exists e, settled = Throw e) \/ throws = true) /\ w' = send_failed w).
Proof.
  unfold run_handler, send_failed, run_handler.
  unfold sendMessageToNative_resume, try_catch, bind, of_completion, transmit, lift, throw.
  destruct settled as [ws|e]; [destruct throws|]; simpl.
  - right. split; [auto|]. broadcast_normal. reflexivity.
  - left. eauto.
  - right. split; [eauto|]. broadcast_normal. reflexivity.
Qed.



(** ** Strings *)

Lemma string_app_assoc (a b c : string) : (a +:+ b) +:+ c = a +:+ (b +:+ c).
Proof.
  induction a as [|ch a IH]; [reflexivity|].
  change (String ch ((a +:+ b) +:+ c) = String ch (a +:+ (b +:+ c))).
  f_equal. exact IH.
Qed.

Lemma string_app_nonempty (a : string) (ch : ascii) (b : string) :
  a +:+ String ch b <> "".
Proof. destruct a; discriminate. Qed.

Lemma concat_cons (sep x : string) (xs : list string) :
  xs <> [] -> String.concat sep (x :: xs) = x +:+ sep +:+ String.concat sep xs.
Proof. destruct xs; [congruence | reflexivity]. Qed.

Lemma concat_app (sep : string) (xs ys : list string) :
  xs <> [] -> ys <> [] ->
  String.concat sep (xs ++ ys) = String.concat sep xs +:+ sep +:+ String.concat sep ys.
Proof.
  intros Hx Hy. induction xs as [|x xs IH]; [congruence|].
  destruct xs as [|x' xs].
  - simpl app. rewrite concat_cons by assumption. reflexivity.
  - change ((x :: x' :: xs) ++ ys) with (x :: ((x' :: xs) ++ ys)).
    rewrite concat_cons by discriminate.
    rewrite IH by discriminate.
    rewrite (concat_cons sep x (x' :: xs)) by discriminate.
    rewrite !string_app_assoc. reflexivity.
Qed.

(** ** The transcript log *)

Lemma transcript_line_nonempty now text : transcript_line now text <> "".
Proof. unfold transcript_line. discriminate. Qed.

Lemma truthy_JStr (s : string) : s <> "" -> truthy (Some (JStr s)) = true.
Proof.
  intros H. simpl. destruct (String.eqb s "") eqn:E; [|reflexivity].
  apply String.eqb_eq in E. contradiction.
Qed.

Lemma appended_nonempty cur now text : appended cur (transcript_line now text) <> "".
Proof.
  unfold appended, stored_lines. destruct (truthy cur); simpl.
  - unfold transcript_line. apply string_app_nonempty.
  - apply transcript_line_nonempty.
Qed.

(** A value that cannot be converted to a string is an object or an
    array, and those are truthy. *)
Lemma falsy_convertible (v : option JsVal) : truthy v = false -> convertible v = true.
Proof.
  destruct v as [[|[]|r|s|items|fields]|]; try discriminate; reflexivity.
Qed.

Lemma convertible_rendered (v : option JsVal) :
  convertible v = true -> ToString_opt v = Normal (rendered v).
Proof.
  unfold convertible, rendered. destruct (ToString_opt v); [reflexivity | discriminate].
Qed.

Lemma not_convertible (v : option JsVal) :
  convertible v = false -> exists e, ToString_opt v = Throw e.
Proof.
  unfold convertible. destruct (ToString_opt v) as [s|e]; [discriminate | eauto].
Qed.

Lemma convertible_JStr (s : string) : convertible (Some (JStr s)) = true.
Proof. reflexivity. Qed.

(** [updateTranscriptStorage] writes its line when the new text and the
    stored transcript convert to strings, and nothing otherwise. *)
Lemma updateTranscriptStorage_resume_cases now cur text w :
  run_handler (updateTranscriptStorage_resume now cur text) w
  = if convertible text && convertible cur
    then local_set [(STORAGE_KEYS.transcript,
                     JStr (appended cur (transcript_line now text)))] w
    else w.
Proof.
  unfold run_handler, updateTranscriptStorage_resume, bind, of_completion, ret, lift.
  destruct (convertible text) eqn:Ht.
  - rewrite (convertible_rendered text Ht). cbn [andb].
    destruct (truthy cur) eqn:Hc.
    + destruct (convertible cur) eqn:Hcc.
      * rewrite (convertible_rendered cur Hcc). cbn [snd].
        unfold appended, stored_lines, transcript_line. rewrite Hc.
        cbn [app String.concat]. rewrite string_app_assoc. reflexivity.
      * destruct (not_convertible cur Hcc) as [e ->]. reflexivity.
    + rewrite (falsy_convertible cur Hc). cbn [snd].
      unfold appended, stored_lines, transcript_line. rewrite Hc. reflexivity.
  - destruct (not_convertible text Ht) as [e ->]. reflexivity.
Qed.

Lemma updateTranscriptStorage_resume_local now cur text w :
  convertible text = true -> convertible cur = true ->
  local (run_handler (updateTranscriptStorage_resume now cur text) w)
  = <[STORAGE_KEYS.transcript := JStr (appended cur (transcript_line now text))]> (local w).
Proof.
  intros Ht Hc. rewrite updateTranscriptStorage_resume_cases, Ht, Hc. apply local_set_one.
Qed.

Lemma updateTranscriptStorage_resume_queue now cur text w :
  transcriptUpdates (run_handler (updateTranscriptStorage_resume now cur text) w)
  = transcriptUpdates w.
Proof.
  rewrite updateTranscriptStorage_resume_cases.
  destruct (convertible text && convertible cur); [|reflexivity].
  match goal with |- context [local_set ?i w] =>
    destruct (local_set_frame i w) as (_ & _ & _ & _ & _ & _ & _ & H & _) end.
  exact H.
Qed.

(** What the router does with a final transcript segment. *)
Lemma onmessage_final fields now w :
  final_transcript fields ->
  run_handler (onmessage (Some (JObj fields)) now) w
  = forward fields (updateTranscriptStorage (assoc "text" fields) (received w)).
Proof.
  intros (Ha & Ht & Hs). unfold run_handler. rewrite onmessage_object. simpl.
  unfold route_first_match, rules. cbn [find matches].
  rewrite Ha, Ht, (strict_eq_false _ _ Hs). reflexivity.
Qed.

Lemma onmessage_final_queue fields now w :
  final_transcript fields ->
  let w' := run_handler (onmessage (Some (JObj fields)) now) w in
  transcriptUpdates w' = transcriptUpdates w ++ [(local w !! STORAGE_KEYS.transcript,
                                                   assoc "text" fields)] /\
  local w' = local w.
Proof.
  intros H. simpl. rewrite onmessage_final by assumption.
  forward_out. split; reflexivity.
Qed.

(** Answering the reads in order: the last write is that of the last
    pending update. *)
Lemma drain_last nows : forall w queue cur text,
  transcriptUpdates w = queue ++ [(cur, text)] ->
  length nows = S (length queue) ->
  convertible text = true -> convertible cur = true ->
  local (drain nows w) !! STORAGE_KEYS.transcript
    = Some (JStr (appended cur (transcript_line (List.last nows 0%N) text))) /\
  transcriptUpdates (drain nows w) = [].
Proof.
  induction nows as [|now nows IH]; intros w queue cur text Hq Hl Ht Hc; [discriminate|].
  destruct queue as [|[cur0 text0] queue].
  - destruct nows; [|discriminate]. simpl in *. rewrite Hq. simpl.
    rewrite updateTranscriptStorage_resume_local by assumption.
    rewrite updateTranscriptStorage_resume_queue.
    split; [apply lookup_insert_eq | reflexivity].
  - simpl in Hq. cbn [drain]. rewrite Hq.
    destruct nows as [|now' nows]; [discriminate|].
    change (List.last (now :: now' :: nows) 0%N) with (List.last (now' :: nows) 0%N).
    apply (IH _ queue); [|simpl in *; lia | assumption | assumption].
    rewrite updateTranscriptStorage_resume_queue. reflexivity.
Qed.

Lemma deliver_final w fields now :
  transcriptUpdates w = [] -> final_transcript fields ->
  convertible (assoc "text" fields) = true ->
  convertible (local w !! STORAGE_KEYS.transcript) = true ->
  local (deliver w (fields, now)) !! STORAGE_KEYS.transcript
    = Some (JStr (appended (local w !! STORAGE_KEYS.transcript)
                    (transcript_line now (assoc "text" fields)))) /\
  transcriptUpdates (deliver w (fields, now)) = [].
Proof.
  intros Hq Hf Ht Hc. unfold deliver. cbn [fst snd].
  destruct (onmessage_final_queue fields now w Hf) as [Hq' Hl'].
  rewrite Hq in Hq'. simpl in Hq'.
  apply (drain_last [now] _ [] _ _ Hq' eq_refl Ht Hc).
Qed.

Lemma deliver_all msgs : forall w,
  transcriptUpdates w = [] -> Forall (fun m => final_transcript m.1) msgs ->
  Forall (fun m => convertible (assoc "text" m.1) = true) msgs ->
  convertible (local w !! STORAGE_KEYS.transcript) = true ->
  msgs <> [] ->
  local (foldl deliver w msgs) !! STORAGE_KEYS.transcript
    = Some (JStr (String.concat newline
         (stored_lines (local w !! STORAGE_KEYS.transcript)
          ++ map (fun m => transcript_line m.2 (assoc "text" m.1)) msgs))) /\
  transcriptUpdates (foldl deliver w msgs) = [].
Proof.
  induction msgs as [|[fields now] msgs IH]; intros w Hq Hf Ht Hc Hn; [congruence|].
  apply Forall_cons in Hf as [Hm Hf]. simpl in Hm.
  apply Forall_cons in Ht as [Htm Ht]. simpl in Htm.
  destruct (deliver_final w fields now Hq Hm Htm Hc) as [Hl Hq1].
  destruct msgs as [|m msgs].
  - simpl. split; assumption.
  - cbn [foldl]. cbn [foldl] in IH.
    assert (Hc1 : convertible (local (deliver w (fields, now)) !! STORAGE_KEYS.transcript)
                  = true) by (rewrite Hl; reflexivity).
    destruct (IH (deliver w (fields, now)) Hq1 Hf Ht Hc1 ltac:(discriminate)) as [IHl IHq].
    split; [|exact IHq]. rewrite IHl. do 2 f_equal.
    rewrite Hl. unfold stored_lines at 1.
    rewrite truthy_JStr by apply appended_nonempty.
    change (rendered (Some (JStr (appended (local w !! STORAGE_KEYS.transcript)
                                    (transcript_line now (assoc "text" fields))))))
      with (appended (local w !! STORAGE_KEYS.transcript)
              (transcript_line now (assoc "text" fields))).
    unfold appended.
    rewrite (map_cons _ (fields, now)). cbn [fst snd].
    remember (map (fun m0 : list (string * JsVal) * Date =>
                     transcript_line m0.2 (assoc "text" m0.1)) (m :: msgs)) as R eqn:HR.
    assert (HRn : R <> []) by (subst R; discriminate).
    remember (stored_lines (local w !! STORAGE_KEYS.transcript)) as L eqn:HL.
    remember (transcript_line now (assoc "text" fields)) as line eqn:Hline.
    change ([String.concat newline (L ++ [line])] ++ R)
      with (String.concat newline (L ++ [line]) :: R).
    rewrite concat_cons by assumption.
    replace (L ++ line :: R) with ((L ++ [line]) ++ R)
      by (rewrite <- app_assoc; reflexivity).
    rewrite (concat_app newline (L ++ [line]) R);
      [reflexivity | destruct L; discriminate | assumption].
Qed.

Lemma time_token_length (d : Date) : String.length (toLocaleTimeString d) = 8.
Proof. reflexivity. Qed.

(** C5 (as amended): final transcript segments that are not error
    reports and whose text converts to a string, each handled to the
    end before the next arrives, starting with no update in flight and
    with a stored transcript that converts to a string, append one line
    [[HH:MM:SS] text] each; the stored transcript is the lines joined by
    single newlines, in arrival order, with no separator before the
    first line. *)
Theorem final_transcripts_append_in_order
    (msgs : list (list (string * JsVal) * Date)) (w : World) :
  transcriptUpdates w = [] ->
  convertible (local w !! STORAGE_KEYS.transcript) = true ->
  Forall (fun m => final_transcript m.1) msgs ->
  Forall (fun m => convertible (assoc "text" m.1) = true) msgs ->
  msgs <> [] ->
  local (foldl deliver w msgs) !! STORAGE_KEYS.transcript
    = Some (JStr (String.concat newline
         (stored_lines (local w !! STORAGE_KEYS.transcript)
          ++ map (fun m => transcript_line m.2 (assoc "text" m.1)) msgs))).
Proof. intros Hq Hc Hf Ht Hn. apply (deliver_all msgs w Hq Hf Ht Hc Hn). Qed.

Lemma final_transcripts_append_in_order_witness :
  let w := after [PortConnect "popup-connection"; AttachStep; AttachStep; SocketOpen 0;
                  SocketMessage 0 (Some (final_segment "old")) 3600; TranscriptRead 3600] in
  local w !! STORAGE_KEYS.transcript = Some (JStr "[01:00:00] old") /\
  local (foldl deliver w
           [([("action", JStr "transcript"); ("type", JStr "final"); ("text", JStr "hello")],
             3661%N);
            ([("action", JStr "transcript"); ("type", JStr "final"); ("text", JStr "world")],
             3725%N)])
    !! STORAGE_KEYS.transcript
  = Some (JStr ("[01:00:00] old" +:+ newline +:+ "[01:01:01] hello" +:+ newline
                +:+ "[01:02:05] world")).
Proof.
  cbv zeta. split; [vm_compute; reflexivity|].
  eapply eq_trans.
  - apply (final_transcripts_append_in_order
      [([("action", JStr "transcript"); ("type", JStr "final"); ("text", JStr "hello")],
        3661%N);
       ([("action", JStr "transcript"); ("type", JStr "final"); ("text", JStr "world")],
        3725%N)]
      (after [PortConnect "popup-connection"; AttachStep; AttachStep; SocketOpen 0;
              SocketMessage 0 (Some (final_segment "old")) 3600; TranscriptRead 3600])).
    + vm_compute. reflexivity.
    + vm_compute. reflexivity.
    + repeat constructor; simpl; discriminate.
    + repeat constructor.
    + discriminate.
  - vm_compute. reflexivity.
Defined.

(** C5, counterexample: a final transcript segment that also carries
    [status: 'error'] is taken by the error rule; no line is appended
    and no update is started. *)
Lemma failed_segment_not_appended :
  match run [PortConnect "popup-connection"; AttachStep; AttachStep; SocketOpen 0;
             SocketMessage 0 (Some (failed_segment "hello")) 3661] initial with
  | Some w =>
      local w !! STORAGE_KEYS.transcript = None /\ transcriptUpdates w = [] /\
      session w !! STORAGE_KEYS.isRecording = Some (JBool false)
  | None => False
  end.
Proof. vm_compute. repeat split. Qed.

(** Two segments whose storage reads overlap: both updates read the same
    stored transcript, and the second write replaces the first. *)
Lemma overlapping_updates_lose_a_line :
  match run [PortConnect "popup-connection"; AttachStep; AttachStep; SocketOpen 0;
             SocketMessage 0 (Some (final_segment "hello")) 3661;
             SocketMessage 0 (Some (final_segment "world")) 3661;
             TranscriptRead 3661; TranscriptRead 3662] initial with
  | Some w => local w !! STORAGE_KEYS.transcript = Some (JStr "[01:01:02] world")
  | None => False
  end.
Proof. vm_compute. reflexivity. Qed.

Lemma handleUICommand_clear fields w :
  assoc "type" fields = Some (JStr "CLEAR_TRANSCRIPT") ->
  run_handler (handleUICommand (JObj fields)) w
  = run_handler (broadcastToUI cleared)
      (local_set [(STORAGE_KEYS.transcript, JStr ""); (STORAGE_KEYS.summary, JStr "")] w).
Proof.
  intros H. unfold run_handler, handleUICommand, bind, of_completion, lift.
  simpl. rewrite H. reflexivity.
Qed.

(** C6 (as amended): [CLEAR_TRANSCRIPT] is handled locally: it writes
    the empty string to the stored transcript and summary and passes
    the cleared envelope to [broadcastToUI]; it queues no command and
    opens no connection.  When the message that follows is a final
    transcript segment that is not an error report and whose text
    converts to a string, and the storage reads of the transcript
    updates that were in flight at the clear (none, in the plain case)
    are answered only after that segment has arrived, the stored
    transcript, once all these reads and that of the segment are
    answered, is exactly that segment's line. *)
Theorem clear_then_final_is_one_line clear fields now nows w :
  assoc "type" clear = Some (JStr "CLEAR_TRANSCRIPT") ->
  final_transcript fields ->
  convertible (assoc "text" fields) = true ->
  length nows = S (length (transcriptUpdates w)) ->
  let w1 := run_handler (handleUICommand (JObj clear)) w in
  let w2 := drain nows (run_handler (onmessage (Some (JObj fields)) now) w1) in
  w1 = run_handler (broadcastToUI cleared)
         (local_set [(STORAGE_KEYS.transcript, JStr ""); (STORAGE_KEYS.summary, JStr "")] w) /\
  local w1 !! STORAGE_KEYS.transcript = Some (JStr "") /\
  local w1 !! STORAGE_KEYS.summary = Some (JStr "") /\
  sends w1 = sends w /\ sockets w1 = sockets w /\
  connectionPromise w1 = connectionPromise w /\
  local w2 !! STORAGE_KEYS.transcript
    = Some (JStr (transcript_line (List.last nows 0%N) (assoc "text" fields))).
Proof.
  intros Hc Hf Ht Hl. cbn zeta. rewrite (handleUICommand_clear clear w Hc).
  set (w0 := local_set
    [(STORAGE_KEYS.transcript, JStr ""); (STORAGE_KEYS.summary, JStr "")] w).
  set (w1 := run_handler (broadcastToUI cleared) w0).
  assert (Hw1 : exists es, w1 = with_effects (effects w0 ++ es) w0).
  { destruct (broadcastToUI_normal cleared w0) as [es Hb].
    exists es. unfold w1, run_handler. rewrite Hb. reflexivity. }
  destruct Hw1 as [es Hw1].
  destruct (local_set_frame
    [(STORAGE_KEYS.transcript, JStr ""); (STORAGE_KEYS.summary, JStr "")] w)
    as (_ & _ & Hcp & Hso & _ & _ & _ & Htu & Hse & _ & _).
  fold w0 in Hcp, Hso, Htu, Hse.
  assert (Hlocal : local w1
    = <[STORAGE_KEYS.summary := JStr ""]> (<[STORAGE_KEYS.transcript := JStr ""]> (local w))).
  { rewrite Hw1. simpl. apply local_set_two. }
  assert (Htu1 : transcriptUpdates w1 = transcriptUpdates w) by (rewrite Hw1; exact Htu).
  assert (Hlt : local w1 !! STORAGE_KEYS.transcript = Some (JStr "")).
  { rewrite Hlocal, lookup_insert_ne by discriminate. apply lookup_insert_eq. }
  split; [reflexivity|].
  split; [exact Hlt|].
  split; [rewrite Hlocal; apply lookup_insert_eq|].
  split; [rewrite Hw1; exact Hse|].
  split; [rewrite Hw1; exact Hso|].
  split; [rewrite Hw1; exact Hcp|].
  destruct (onmessage_final_queue fields now w1 Hf) as [Hq _].
  rewrite Htu1, Hlt in Hq.
  destruct (drain_last nows _ (transcriptUpdates w) _ _ Hq Hl Ht eq_refl) as [H _].
  rewrite H. reflexivity.
Qed.

Lemma clear_then_final_is_one_line_witness :
  let clear := [("type", JStr "CLEAR_TRANSCRIPT")] in
  let fields := [("action", JStr "transcript"); ("type", JStr "final");
                 ("text", JStr "hello")] in
  let w := after [PortConnect "popup-connection"; AttachStep; AttachStep; SocketOpen 0;
                  SocketMessage 0 (Some (final_segment "old")) 3600; TranscriptRead 3600] in
  let w1 := run_handler (handleUICommand (JObj clear)) w in
  let w2 := drain [3661%N] (run_handler (onmessage (Some (JObj fields)) 3660) w1) in
  local w !! STORAGE_KEYS.transcript = Some (JStr "[01:00:00] old") /\
  local w1 !! STORAGE_KEYS.transcript = Some (JStr "") /\
  local w1 !! STORAGE_KEYS.summary = Some (JStr "") /\
  sends w1 = sends w /\
  local w2 !! STORAGE_KEYS.transcript = Some (JStr "[01:01:01] hello").
Proof.
  cbn zeta. split; [vm_compute; reflexivity|].
  destruct (clear_then_final_is_one_line [("type", JStr "CLEAR_TRANSCRIPT")]
    [("action", JStr "transcript"); ("type", JStr "final"); ("text", JStr "hello")]
    3660%N [3661%N]
    (after [PortConnect "popup-connection"; AttachStep; AttachStep; SocketOpen 0;
            SocketMessage 0 (Some (final_segment "old")) 3600; TranscriptRead 3600]))
    as (_ & H1 & H2 & H3 & _ & _ & H4).
  - reflexivity.
  - repeat split; simpl; discriminate.
  - reflexivity.
  - vm_compute. reflexivity.
  - split; [exact H1|]. split; [exact H2|]. split; [exact H3 | exact H4].
Defined.

(** C6, counterexample: after [CLEAR_TRANSCRIPT], a final transcript
    segment that also carries [status: 'error'] leaves the stored
    transcript empty, with no update in flight that could add a line. *)
Lemma clear_then_failed_segment_is_empty :
  match run [PortConnect "popup-connection"; AttachStep; AttachStep; SocketOpen 0;
             SocketMessage 0 (Some (final_segment "old")) 3600; TranscriptRead 3600;
             PortMessage 0 (JObj [("type", JStr "CLEAR_TRANSCRIPT")]);
             SocketMessage 0 (Some (failed_segment "new")) 3661] initial with
  | Some w =>
      local w !! STORAGE_KEYS.transcript = Some (JStr "") /\ transcriptUpdates w = []
  | None => False
  end.
Proof. vm_compute. repeat split. Qed.

(** ** Footprints of the handlers *)

Section Footprints.

Lemma same_flag_refl w : same_flag w w.
Proof. repeat split. Qed.

Lemma same_flag_trans w1 w2 w3 : same_flag w1 w2 -> same_flag w2 w3 -> same_flag w1 w3.
Proof. intros (a & b & c) (d & e & f). repeat split; congruence. Qed.

Lemma same_connection_refl w : same_connection w w.
Proof. repeat split. Qed.

Lemma same_connection_trans w1 w2 w3 :
  same_connection w1 w2 -> same_connection w2 w3 -> same_connection w1 w3.
Proof. intros (a & b & c) (d & e & f). repeat split; congruence. Qed.

Lemma output_only_same_flag f w : output_only f -> same_flag w (f w).
Proof. intros H. destruct (H w) as [es ->]. repeat split. Qed.

Lemma output_only_same_connection f w : output_only f -> same_connection w (f w).
Proof. intros H. destruct (H w) as [es ->]. repeat split. Qed.

Lemma output_only_broadcastToUI message :
  output_only (run_handler (broadcastToUI message)).
Proof.
  intros w. unfold run_handler.
  destruct (broadcastToUI_normal message w) as [es ->]. exists es. reflexivity.
Qed.

Lemma getWebSocket_same_flag w : same_flag w (getWebSocket w).2.
Proof.
  unfold getWebSocket. destruct (open_connection w); [apply same_flag_refl|].
  destruct (connectionPromise w); repeat split.
Qed.

Lemma sendMessageToNative_same_flag message w : same_flag w (sendMessageToNative message w).
Proof.
  unfold sendMessageToNative. destruct (getWebSocket_same_flag w) as (a & b & c).
  repeat split; simpl; assumption.
Qed.

Lemma pending_flag_changes_snoc_local w chg :
  omap flag_change (changeEvents w ++ [{| changes := chg; namespace := "local" |}])
  = pending_flag_changes w.
Proof.
  rewrite omap_app. simpl. unfold pending_flag_changes. apply app_nil_r.
Qed.

Lemma local_set_same_flag items w : same_flag w (local_set items w).
Proof.
  unfold local_set.
  match goal with |- context [notify ?ns ?c ?x] =>
    destruct (notify_cases ns c x) as [[_ ->] | [_ ->]] end.
  - repeat split.
  - repeat split. unfold pending_flag_changes at 1. simpl.
    apply pending_flag_changes_snoc_local.
Qed.

Lemma session_set_same_connection items w : same_connection w (session_set items w).
Proof.
  destruct (session_set_frame items w) as (a & _ & b & c & _). repeat split; assumption.
Qed.

Lemma local_set_same_connection items w : same_connection w (local_set items w).
Proof.
  destruct (local_set_frame items w) as (a & _ & b & c & _). repeat split; assumption.
Qed.

Lemma updateTranscriptStorage_resume_same_flag now cur text w :
  same_flag w (run_handler (updateTranscriptStorage_resume now cur text) w).
Proof.
  rewrite updateTranscriptStorage_resume_cases.
  destruct (convertible text && convertible cur);
    [apply local_set_same_flag | apply same_flag_refl].
Qed.

(** The three things [handleUICommand] can do. *)
Lemma handleUICommand_cases message w :
  let w' := run_handler (handleUICommand message) w in
  w' = w \/
  (exists command, w' = sendMessageToNative command w) \/
  w' = run_handler (broadcastToUI cleared)
         (local_set [(STORAGE_KEYS.transcript, JStr ""); (STORAGE_KEYS.summary, JStr "")] w).
Proof.
  unfold run_handler, handleUICommand, bind, of_completion, lift, ret.
  destruct message as [| | | | |fields]; simpl; auto.
  destruct (strict_eq (assoc "type" fields) (JStr "START_CAPTURE")); simpl; [eauto|].
  destruct (strict_eq (assoc "type" fields) (JStr "STOP_CAPTURE")); simpl; [eauto|].
  destruct (strict_eq (assoc "type" fields) (JStr "CLEAR_TRANSCRIPT")); simpl.
  { right. right. reflexivity. }
  destruct (strict_eq (assoc "type" fields) (JStr "GET_DEVICES")); simpl; [eauto|].
  destruct (strict_eq (assoc "type" fields) (JStr "GET_STATUS")); simpl; eauto.
Qed.

Lemma handleUICommand_same_flag message w :
  same_flag w (run_handler (handleUICommand message) w).
Proof.
  destruct (handleUICommand_cases message w) as [-> | [[c ->] | ->]].
  - apply same_flag_refl.
  - apply sendMessageToNative_same_flag.
  - eapply same_flag_trans; [apply local_set_same_flag|].
    apply output_only_same_flag, output_only_broadcastToUI.
Qed.

(** The three things a step of the attach block can do. *)
Lemma attach_resume_cases task w :
  let w' := run_handler (attach_resume task) w in
  (exists q, w' = with_attaches q w) \/
  w' = w \/
  (exists port message,
     w' = sendMessageToNative {| action := "get_devices"; data := None |}
            (sendMessageToNative {| action := "get_status"; data := None |}
               (emit (port_postMessage port message) w))).
Proof.
  unfold run_handler, attach_resume. destruct task as [port s | port s t m].
  - left. eexists. reflexivity.
  - unfold bind, lift.
    match goal with |- context [postMessage ?p ?m ?x] =>
      destruct (postMessage_cases p m x) as [-> | ->] end; simpl; eauto.
Qed.

Lemma attach_resume_same_flag task w :
  same_flag w (run_handler (attach_resume task) w).
Proof.
  destruct (attach_resume_cases task w) as [[q ->] | [-> | (port & m & ->)]].
  - repeat split.
  - apply same_flag_refl.
  - eapply same_flag_trans; [|apply sendMessageToNative_same_flag].
    eapply same_flag_trans; [|apply sendMessageToNative_same_flag].
    repeat split.
Qed.

Lemma onConnect_same_flag port_name w : same_flag w (onConnect port_name w).
Proof. unfold onConnect. destruct (String.eqb port_name "popup-connection"); repeat split. Qed.

Lemma onConnect_same_connection port_name w : same_connection w (onConnect port_name w).
Proof. unfold onConnect. destruct (String.eqb port_name "popup-connection"); repeat split. Qed.

Lemma onopen_same_flag ws w : same_flag w (onopen ws w).
Proof.
  unfold onopen, cleanup, alter_socket.
  destruct (output_only_updateIcon "idle"
    (with_nativeWebSocket (Some ws)
       (emit (console_log "WebSocket connection established.") w))) as [es ->].
  repeat split.
Qed.

Lemma onerror_same_flag ws w : same_flag w (onerror ws w).
Proof.
  unfold onerror, cleanup, alter_socket.
  destruct (output_only_updateIcon "error"
    (with_nativeWebSocket None
       (emit (console_error "WebSocket connection error.") w))) as [es ->].
  repeat split.
Qed.

Lemma onAlarm_same_flag alarm_name w : same_flag w (onAlarm alarm_name w).
Proof.
  unfold onAlarm. destruct (String.eqb alarm_name ALARM_HEALTH_CHECK).
  - eapply same_flag_trans; [|apply sendMessageToNative_same_flag]. repeat split.
  - apply same_flag_refl.
Qed.

Lemma onChanged_same_connection ev w : same_connection w (onChanged ev w).
Proof.
  unfold onChanged. destruct (String.eqb (namespace ev) "session"); [|apply same_connection_refl].
  destruct (changes ev !! STORAGE_KEYS.isRecording) as [c|]; [|apply same_connection_refl].
  destruct (output_only_updateBadge (truthy (newValue c)) w) as [es ->].
  destruct (truthy (newValue c)); repeat split.
Qed.

Lemma onmessage_cases event now w :
  let w' := run_handler (onmessage event now) w in
  (exists es, w' = with_effects (effects w ++ es) w) \/
  (exists fields, event = Some (JObj fields) /\ w' = route_first_match fields now w).
Proof.
  unfold run_handler. destruct event as [message|].
  - destruct message as [| | | | |fields].
    6: { right. exists fields. rewrite onmessage_object. auto. }
    1: { left. rewrite onmessage_null.
         exists [console_log "Received from native app:";
                 console_error "Error parsing native message:"].
         unfold received, emit. simpl.
         rewrite <- app_assoc. reflexivity. }
    all: left; match goal with |- context [onmessage (Some ?m)] =>
      destruct (onmessage_other m now w) as [es ->]; [discriminate | discriminate |] end;
      eauto.
  - left. rewrite onmessage_syntax_error. eexists. reflexivity.
Qed.

Lemma fire_same_connection fields now r w : same_connection w (fire fields now r w).
Proof.
  destruct r; simpl.
  - apply session_set_same_connection.
  - apply session_set_same_connection.
  - repeat split.
  - apply local_set_same_connection.
Qed.

Lemma route_first_match_same_connection fields now w :
  same_connection w (route_first_match fields now w).
Proof.
  unfold route_first_match.
  destruct (find (matches fields) rules) as [r|];
    [destruct (completes fields r); [|repeat split] |].
  - eapply same_connection_trans; [|apply output_only_same_connection, forward_output_only].
    eapply same_connection_trans; [|apply fire_same_connection]. repeat split.
  - eapply same_connection_trans; [|apply output_only_same_connection, forward_output_only].
    repeat split.
Qed.

Lemma onmessage_same_connection event now w :
  same_connection w (run_handler (onmessage event now) w).
Proof.
  destruct (onmessage_cases event now w) as [[es ->] | (fields & _ & ->)].
  - repeat split.
  - apply route_first_match_same_connection.
Qed.

Lemma send_failed_same_connection w : same_connection w (send_failed w).
Proof.
  unfold send_failed.
  eapply same_connection_trans; [|apply session_set_same_connection].
  eapply same_connection_trans; [|apply output_only_same_connection, output_only_broadcastToUI].
  repeat split.
Qed.

Lemma sendMessageToNative_resume_same_connection settled throws message w :
  same_connection w (run_handler (sendMessageToNative_resume settled throws message) w).
Proof.
  destruct (sendMessageToNative_resume_cases settled throws message w)
    as [(ws & _ & _ & ->) | [_ ->]].
  - repeat split.
  - apply send_failed_same_connection.
Qed.

Lemma updateTranscriptStorage_resume_same_connection now cur text w :
  same_connection w (run_handler (updateTranscriptStorage_resume now cur text) w).
Proof.
  rewrite updateTranscriptStorage_resume_cases.
  destruct (convertible text && convertible cur);
    [apply local_set_same_connection | apply same_connection_refl].
Qed.

Lemma reset_state_same_connection w : same_connection w (reset_state w).
Proof.
  unfold reset_state.
  eapply same_connection_trans; [|apply output_only_same_connection, output_only_updateBadge].
  eapply same_connection_trans; [|apply local_set_same_connection].
  apply session_set_same_connection.
Qed.

End Footprints.

(** ** Writers of the recording flag *)

Lemma route_first_match_same_flag fields now w :
  matches fields StatusReport = false -> matches fields NativeError = false ->
  same_flag w (route_first_match fields now w).
Proof.
  intros H1 H2. unfold route_first_match, rules. cbn [find]. rewrite H1, H2.
  destruct (matches fields FinalTranscript).
  { cbn [completes].
    eapply same_flag_trans; [|apply output_only_same_flag, forward_output_only].
    repeat split. }
  destruct (matches fields SummaryUpdate).
  - destruct (completes fields SummaryUpdate); [|repeat split].
    eapply same_flag_trans; [|apply output_only_same_flag, forward_output_only].
    eapply same_flag_trans; [|apply local_set_same_flag]. repeat split.
  - eapply same_flag_trans; [|apply output_only_same_flag, forward_output_only].
    repeat split.
Qed.

(** What an event does to the flag, its notifications and the alarms:
    nothing; or one write to the flag, by an event that is one of its
    writers; or the delivery of the oldest notification to the
    [onChanged] listener. *)
Lemma step_flag_cases e w w' :
  step e w = Some w' ->
  same_flag w w' \/
  (writes_flag e w /\
   exists w1 items,
     same_flag w w1 /\ flag_items items /\ same_flag (session_set items w1) w') \/
  (e = StorageChanged /\
   exists ev rest, changeEvents w = ev :: rest /\ w' = onChanged ev (with_changeEvents rest w)).
Proof.
  destruct e; simpl; intros H.
  - (* PortConnect *) injection H as <-. left. apply onConnect_same_flag.
  - (* PortDisconnect *)
    destruct (ports w !! port) as [p|]; [|discriminate].
    destruct (connected p); [|discriminate]. injection H as <-. left.
    destruct (String.eqb (name p) "popup-connection"); repeat split.
  - (* PortMessage *)
    destruct (popup_port w port); [|discriminate]. injection H as <-. left.
    apply handleUICommand_same_flag.
  - (* AttachStep *)
    destruct (attaches w) as [|task rest]; [discriminate|]. injection H as <-. left.
    eapply same_flag_trans; [|apply attach_resume_same_flag]. repeat split.
  - (* SocketOpen *)
    destruct (socket_state w ws) as [[]|]; try discriminate. injection H as <-. left.
    eapply same_flag_trans; [|apply onopen_same_flag]. repeat split.
  - (* SocketError *)
    destruct (socket_state w ws) as [[]|]; try discriminate. injection H as <-. left.
    eapply same_flag_trans; [|apply onerror_same_flag]. repeat split.
  - (* SocketClosing *)
    destruct (socket_state w ws) as [[]|]; try discriminate. injection H as <-. left.
    repeat split.
  - (* SocketClose *)
    right. left. split; [exact I|].
    assert (w' = onclose (alter_socket (with_readyState CLOSED) ws w))
      by (destruct (socket_state w ws) as [[]|]; congruence).
    subst w'. unfold onclose.
    exists (updateIcon "error"
      (with_nativeWebSocket None
         (emit (console_log "WebSocket connection closed.")
            (alter_socket (with_readyState CLOSED) ws w)))),
      [(STORAGE_KEYS.isRecording, JBool false)].
    split; [|split; [exists false; left; reflexivity | apply same_flag_refl]].
    destruct (output_only_updateIcon "error"
      (with_nativeWebSocket None
         (emit (console_log "WebSocket connection closed.")
            (alter_socket (with_readyState CLOSED) ws w)))) as [es ->].
    repeat split.
  - (* SocketLost *)
    right. left. split; [exact I|].
    assert (w' = onclose (onerror ws (alter_socket (with_readyState CLOSED) ws w)))
      by (destruct (socket_state w ws) as [[]|]; congruence).
    subst w'. unfold onclose.
    exists (updateIcon "error"
      (with_nativeWebSocket None
         (emit (console_log "WebSocket connection closed.")
            (onerror ws (alter_socket (with_readyState CLOSED) ws w))))),
      [(STORAGE_KEYS.isRecording, JBool false)].
    split; [|split; [exists false; left; reflexivity | apply same_flag_refl]].
    destruct (output_only_updateIcon "error"
      (with_nativeWebSocket None
         (emit (console_log "WebSocket connection closed.")
            (onerror ws (alter_socket (with_readyState CLOSED) ws w))))) as [es ->].
    eapply same_flag_trans; [|split; [|split]; reflexivity].
    eapply same_flag_trans; [|apply onerror_same_flag]. repeat split.
  - (* SocketMessage *)
    destruct (socket_state w ws) as [[]|]; try discriminate; injection H as <-.
    all: destruct (onmessage_cases event now w) as [[es ->] | (fields & -> & ->)];
      [left; repeat split|].
    all: cbn [writes_flag].
    all: destruct (matches fields StatusReport) eqn:H1;
      [right; left; split; [left; exact H1|] |].
    all: try (destruct (matches fields NativeError) eqn:H2;
      [right; left; split; [right; exact H2|] |
       left; apply route_first_match_same_flag; assumption]).
    all: unfold route_first_match, rules; cbn [find]; rewrite ?H1, ?H2;
      cbn [fire completes].
    all: eexists; eexists; split; [|split; [eexists; left; reflexivity|
           apply output_only_same_flag, forward_output_only]]; repeat split.
  - (* TranscriptRead *)
    destruct (transcriptUpdates w) as [|[cur text] rest]; [discriminate|].
    injection H as <-. left.
    eapply same_flag_trans; [|apply updateTranscriptStorage_resume_same_flag]. repeat split.
  - (* SendResume *)
    destruct (sends w !! i) as [[h message]|] eqn:Hi; [|discriminate].
    destruct (await h w) as [settled|] eqn:Ha; [|discriminate]. injection H as <-.
    destruct (sendMessageToNative_resume_cases settled throws message
                (with_sends (delete i (sends w)) w))
      as [(ws & _ & _ & ->) | [Hfail ->]].
    + left. repeat split.
    + right. left. split.
      * destruct Hfail as [[e ->] | ->]; [right; eauto | left; reflexivity].
      * unfold send_failed. eexists. eexists.
        split; [|split; [exists false; left; reflexivity | apply same_flag_refl]].
        eapply same_flag_trans;
          [|apply output_only_same_flag, output_only_broadcastToUI]. repeat split.
  - (* StorageChanged *)
    destruct (changeEvents w) as [|ev rest]; [discriminate|]. injection H as <-.
    right. right. eauto.
  - (* Alarm *)
    destruct (alarms w !! alarm_name); [|discriminate]. injection H as <-. left.
    apply onAlarm_same_flag.
  - (* Startup *)
    injection H as <-. right. left. split; [exact I|].
    unfold onStartup, reset_state. eexists. eexists.
    split; [|split; [exists false; right; reflexivity|]].
    + apply (output_only_same_flag (emit (console_log "Browser started. Resetting state."))),
        output_only_emit.
    + eapply same_flag_trans; [apply local_set_same_flag|].
      apply output_only_same_flag, output_only_updateBadge.
  - (* Installed *)
    injection H as <-. right. left. split; [exact I|].
    unfold onInstalled, reset_state. eexists. eexists.
    split; [|split; [exists false; right; reflexivity|]].
    + apply (output_only_same_flag
        (emit (console_log ("Extension " +:+ reason +:+ ". Resetting state.")))),
        output_only_emit.
    + eapply same_flag_trans; [apply local_set_same_flag|].
      apply output_only_same_flag, output_only_updateBadge.
Qed.

Lemma onChanged_session ev w : session (onChanged ev w) = session w.
Proof.
  unfold onChanged. destruct (String.eqb (namespace ev) "session"); [|reflexivity].
  destruct (changes ev !! STORAGE_KEYS.isRecording) as [c|]; [|reflexivity].
  destruct (output_only_updateBadge (truthy (newValue c)) w) as [es ->].
  destruct (truthy (newValue c)); reflexivity.
Qed.

(** Every event either belongs to the writers of the flag or leaves
    session storage as it was. *)
Lemma step_session e w w' :
  step e w = Some w' -> writes_flag e w \/ session w' = session w.
Proof.
  intros H.
  destruct (step_flag_cases e w w' H) as [(Hs & _) | [[Hw _] | (_ & ev & rest & _ & ->)]].
  - right. exact Hs.
  - left. exact Hw.
  - right. apply (onChanged_session ev (with_changeEvents rest w)).
Qed.

(** C8 (as amended): the recording flag is written by the message
    router (on a status report or an error report), by the close
    handler of the socket, by the [catch] block of
    [sendMessageToNative], and by the startup and install resets, and by
    nothing else.  Handling a command of the popup, [START_CAPTURE] and
    [STOP_CAPTURE] included, leaves session storage as it was. *)
Theorem flag_writers e w w' :
  step e w = Some w' ->
  (session w' !! STORAGE_KEYS.isRecording <> session w !! STORAGE_KEYS.isRecording ->
   writes_flag e w) /\
  (forall port message, e = PortMessage port message -> session w' = session w).
Proof.
  intros H. destruct (step_session e w w' H) as [Hw | Hs].
  - split; [auto|]. intros port message ->. contradiction.
  - split; [|auto]. intros Hne. rewrite Hs in Hne. contradiction.
Qed.

Lemma flag_writers_witness :
  let w := after [PortConnect "popup-connection"; AttachStep; AttachStep; SocketOpen 0;
                  SocketMessage 0 (Some (JObj [("action", JStr "get_status");
                                               ("is_recording", JBool true)])) 0] in
  let w1 := after [PortConnect "popup-connection"; AttachStep; AttachStep; SocketOpen 0;
                   SocketMessage 0 (Some (JObj [("action", JStr "get_status");
                                                ("is_recording", JBool true)])) 0;
                   SocketClosing 0; PortMessage 0 (JObj [("type", JStr "STOP_CAPTURE")]);
                   SocketError 1] in
  (exists w',
     step (PortMessage 0 (JObj [("type", JStr "STOP_CAPTURE")])) w = Some w' /\
     recording w /\ session w' = session w) /\
  (exists w',
     step (SendResume 2 false) w1 = Some w' /\
     recording w1 /\ session w' !! STORAGE_KEYS.isRecording = Some (JBool false) /\
     writes_flag (SendResume 2 false) w1).
Proof.
  cbn zeta. split.
  - eexists. split; [vm_compute; reflexivity|]. split; [vm_compute; reflexivity|].
    eapply (flag_writers (PortMessage 0 (JObj [("type", JStr "STOP_CAPTURE")]))
              (after [PortConnect "popup-connection"; AttachStep; AttachStep; SocketOpen 0;
                      SocketMessage 0 (Some (JObj [("action", JStr "get_status");
                                                   ("is_recording", JBool true)])) 0])).
    + vm_compute. reflexivity.
    + reflexivity.
  - eexists. split; [vm_compute; reflexivity|]. split; [vm_compute; reflexivity|].
    split; [vm_compute; reflexivity|].
    eapply (flag_writers (SendResume 2 false)
              (after [PortConnect "popup-connection"; AttachStep; AttachStep; SocketOpen 0;
                      SocketMessage 0 (Some (JObj [("action", JStr "get_status");
                                                   ("is_recording", JBool true)])) 0;
                      SocketClosing 0;
                      PortMessage 0 (JObj [("type", JStr "STOP_CAPTURE")]);
                      SocketError 1])).
    + vm_compute. reflexivity.
    + vm_compute. discriminate.
Defined.

(** C8, counterexample: with the flag true, the close handler of the
    socket sets it to false; and when the socket is closing and the
    connection attempt made for a [STOP_CAPTURE] command fails, the
    [catch] block of [sendMessageToNative] sets it to false.  Neither
    event is the router or a reset. *)
Lemma connection_manager_writes_flag :
  match run [PortConnect "popup-connection"; AttachStep; AttachStep; SocketOpen 0;
             SocketMessage 0 (Some (JObj [("action", JStr "get_status");
                                          ("is_recording", JBool true)])) 0] initial with
  | Some w =>
      recording w /\
      (match step (SocketClose 0) w with
       | Some w' =>
           session w' !! STORAGE_KEYS.isRecording = Some (JBool false) /\
           ~ router_or_reset (SocketClose 0)
       | None => False
       end) /\
      (match run [SocketClosing 0; PortMessage 0 (JObj [("type", JStr "STOP_CAPTURE")]);
                  SocketError 1] w with
       | Some w1 =>
           recording w1 /\
           (match step (SendResume 2 false) w1 with
            | Some w' =>
                session w' !! STORAGE_KEYS.isRecording = Some (JBool false) /\
                ~ router_or_reset (SendResume 2 false)
            | None => False
            end)
       | None => False
       end)
  | None => False
  end.
Proof. vm_compute. repeat split; auto. Qed.

(** ** Connection attempts *)

Section Connection.

Lemma connection_invariant_initial : connection_invariant initial.
Proof.
  split.
  - intros ws. simpl. discriminate.
  - intros ws s. simpl. discriminate.
Qed.

Lemma connection_invariant_same w w' :
  same_connection w w' -> connection_invariant w -> connection_invariant w'.
Proof.
  intros (_ & Hp & Hs) [H1 H2]. unfold connection_invariant, connecting, socket_state.
  rewrite Hp, Hs. split; assumption.
Qed.

Lemma getWebSocket_open w ws :
  open_connection w = Some ws -> getWebSocket w = (Immediate ws, w).
Proof. intros H. unfold getWebSocket. rewrite H. reflexivity. Qed.

Lemma getWebSocket_pending w p :
  open_connection w = None -> connectionPromise w = Some p ->
  getWebSocket w
  = (Awaiting p, emit (console_log "Waiting for an existing connection attempt...") w).
Proof. intros Ho Hp. unfold getWebSocket. rewrite Ho, Hp. reflexivity. Qed.

Lemma getWebSocket_fresh w :
  open_connection w = None -> connectionPromise w = None ->
  let r := getWebSocket w in
  r.1 = Awaiting (length (sockets w)) /\
  sockets r.2 = sockets w ++ [new_socket] /\
  connectionPromise r.2 = Some (length (sockets w)) /\
  nativeWebSocket r.2 = nativeWebSocket w.
Proof. intros Ho Hp. unfold getWebSocket. rewrite Ho, Hp. repeat split. Qed.

Lemma getWebSocket_invariant w :
  connection_invariant w -> connection_invariant (getWebSocket w).2.
Proof.
  intros Hinv.
  destruct (open_connection w) as [ws|] eqn:Ho.
  { rewrite (getWebSocket_open w ws Ho). exact Hinv. }
  destruct (connectionPromise w) as [p|] eqn:Hp.
  { rewrite (getWebSocket_pending w p Ho Hp). revert Hinv.
    apply connection_invariant_same. repeat split. }
  destruct (getWebSocket_fresh w Ho Hp) as (_ & Hs & Hc & _).
  destruct Hinv as [H1 H2]. split.
  - intros ws. unfold connecting, socket_state. rewrite Hs, Hc. intros [= <-].
    rewrite lookup_app_r by lia. rewrite Nat.sub_diag. reflexivity.
  - intros ws s. rewrite Hs. intros Hl.
    apply lookup_app_Some in Hl as [Hl | [_ Hl]].
    + eapply H2, Hl.
    + destruct (ws - length (sockets w)); [|discriminate].
      injection Hl as <-. simpl. split; reflexivity.
Qed.

Lemma sendMessageToNative_invariant message w :
  connection_invariant w -> connection_invariant (sendMessageToNative message w).
Proof.
  intros H. apply getWebSocket_invariant in H. revert H.
  apply connection_invariant_same. repeat split.
Qed.

(** The handler of a socket that is no longer connecting clears the
    marker: the socket that opens or fails to open, and also the socket
    whose connection is lost after it had opened. *)
Lemma invariant_settled w w' ws s s' :
  connection_invariant w ->
  sockets w !! ws = Some s ->
  sockets w' = <[ws := s']> (sockets w) ->
  readyState s' <> CONNECTING -> promise s' <> Pending ->
  connectionPromise w' = None ->
  connection_invariant w'.
Proof.
  intros [H1 H2] Hl Hs Hr' Hp' Hc. split.
  - intros j. rewrite Hc. discriminate.
  - intros j sj. rewrite Hs. intros Hj.
    destruct (decide (j = ws)) as [->|Hne].
    + rewrite list_lookup_insert_eq in Hj by (eapply lookup_lt_Some, Hl).
      injection Hj as <-. split; intros; contradiction.
    + rewrite list_lookup_insert_ne in Hj by congruence. eapply H2, Hj.
Qed.

(** An open socket starts closing or closes: the attempt in flight, if
    any, is untouched. *)
Lemma invariant_closed w w' ws s s' :
  connection_invariant w ->
  sockets w !! ws = Some s -> readyState s <> CONNECTING ->
  sockets w' = <[ws := s']> (sockets w) ->
  readyState s' <> CONNECTING -> promise s' = promise s ->
  connectionPromise w' = connectionPromise w ->
  connection_invariant w'.
Proof.
  intros [H1 H2] Hl Hr Hs Hr' Hp' Hc. split.
  - intros j. unfold connecting, socket_state. rewrite Hs, Hc. intros Hj.
    apply H1 in Hj. unfold connecting, socket_state in Hj.
    destruct (decide (j = ws)) as [->|Hne].
    + rewrite Hl in Hj. simpl in Hj. congruence.
    + rewrite list_lookup_insert_ne by congruence. exact Hj.
  - intros j sj. rewrite Hs. intros Hj.
    destruct (decide (j = ws)) as [->|Hne].
    + rewrite list_lookup_insert_eq in Hj by (eapply lookup_lt_Some, Hl).
      injection Hj as <-. rewrite Hp'. split; [|intros; contradiction].
      intros H. apply (H2 ws s Hl) in H. contradiction.
    + rewrite list_lookup_insert_ne in Hj by congruence. eapply H2, Hj.
Qed.

Lemma socket_state_lookup w ws r :
  socket_state w ws = Some r -> exists s, sockets w !! ws = Some s /\ readyState s = r.
Proof.
  unfold socket_state. destruct (sockets w !! ws) as [s|]; [|discriminate].
  intros [= <-]. eauto.
Qed.

Lemma alter_alter_lookup (f g : WebSocket -> WebSocket) ws (l : list WebSocket) s :
  l !! ws = Some s -> alter g ws (alter f ws l) = <[ws := g (f s)]> l.
Proof.
  intros H. apply list_eq. intros j. destruct (decide (j = ws)) as [->|Hne].
  - rewrite !list_lookup_alter_eq, H.
    rewrite list_lookup_insert_eq by (eapply lookup_lt_Some, H). reflexivity.
  - rewrite !list_lookup_alter_ne by congruence.
    rewrite list_lookup_insert_ne by congruence. reflexivity.
Qed.

Lemma alter_lookup (f : WebSocket -> WebSocket) ws (l : list WebSocket) s :
  l !! ws = Some s -> alter f ws l = <[ws := f s]> l.
Proof.
  intros H. apply list_eq. intros j. destruct (decide (j = ws)) as [->|Hne].
  - rewrite list_lookup_alter_eq, H.
    rewrite list_lookup_insert_eq by (eapply lookup_lt_Some, H). reflexivity.
  - rewrite list_lookup_alter_ne by congruence.
    rewrite list_lookup_insert_ne by congruence. reflexivity.
Qed.

Lemma onopen_connection ws w :
  sockets (onopen ws w) = alter (settle Fulfilled) ws (sockets w) /\
  connectionPromise (onopen ws w) = None /\
  nativeWebSocket (onopen ws w) = Some ws.
Proof.
  unfold onopen, cleanup, alter_socket.
  destruct (output_only_updateIcon "idle"
    (with_nativeWebSocket (Some ws)
       (emit (console_log "WebSocket connection established.") w))) as [es ->].
  repeat split.
Qed.

Lemma onerror_connection ws w :
  sockets (onerror ws w) = alter (settle Rejected) ws (sockets w) /\
  connectionPromise (onerror ws w) = None /\
  nativeWebSocket (onerror ws w) = None.
Proof.
  unfold onerror, cleanup, alter_socket.
  destruct (output_only_updateIcon "error"
    (with_nativeWebSocket None
       (emit (console_error "WebSocket connection error.") w))) as [es ->].
  repeat split.
Qed.

Lemma onclose_connection w :
  sockets (onclose w) = sockets w /\ connectionPromise (onclose w) = connectionPromise w.
Proof.
  unfold onclose.
  match goal with |- context [session_set ?i ?x] =>
    destruct (session_set_same_connection i x) as (_ & -> & ->) end.
  destruct (output_only_updateIcon "error"
    (with_nativeWebSocket None
       (emit (console_log "WebSocket connection closed.") w))) as [es ->].
  split; reflexivity.
Qed.

Lemma settle_pending p s :
  promise s = Pending -> settle p s = {| url := url s; readyState := readyState s; promise := p |}.
Proof. intros H. unfold settle. rewrite H. reflexivity. Qed.

Lemma step_connection_invariant e w w' :
  step e w = Some w' -> connection_invariant w -> connection_invariant w'.
Proof.
  destruct e; simpl; intros H Hinv.
  - (* PortConnect *) injection H as <-. revert Hinv.
    apply connection_invariant_same, onConnect_same_connection.
  - (* PortDisconnect *)
    destruct (ports w !! port) as [p|]; [|discriminate].
    destruct (connected p); [|discriminate]. injection H as <-. revert Hinv.
    apply connection_invariant_same.
    destruct (String.eqb (name p) "popup-connection"); repeat split.
  - (* PortMessage *)
    destruct (popup_port w port); [|discriminate]. injection H as <-.
    destruct (handleUICommand_cases message w) as [-> | [[c ->] | ->]].
    + exact Hinv.
    + apply sendMessageToNative_invariant, Hinv.
    + revert Hinv. apply connection_invariant_same.
      eapply same_connection_trans; [apply local_set_same_connection|].
      apply output_only_same_connection, output_only_broadcastToUI.
  - (* AttachStep *)
    destruct (attaches w) as [|task rest]; [discriminate|]. injection H as <-.
    assert (Hinv' : connection_invariant (with_attaches rest w))
      by (revert Hinv; apply connection_invariant_same; repeat split).
    destruct (attach_resume_cases task (with_attaches rest w))
      as [[q ->] | [-> | (port & m & ->)]].
    + revert Hinv'. apply connection_invariant_same. repeat split.
    + exact Hinv'.
    + do 2 apply sendMessageToNative_invariant.
      revert Hinv'. apply connection_invariant_same. repeat split.
  - (* SocketOpen *)
    destruct (socket_state w ws) as [r|] eqn:Hst; [|discriminate].
    destruct r; try discriminate. injection H as <-.
    apply socket_state_lookup in Hst as (s & Hl & Hr).
    destruct (onopen_connection ws (alter_socket (with_readyState OPEN) ws w))
      as (Hs & Hc & _).
    assert (Hs' : sockets (onopen ws (alter_socket (with_readyState OPEN) ws w))
                  = <[ws := settle Fulfilled (with_readyState OPEN s)]> (sockets w)).
    { rewrite Hs. unfold alter_socket. simpl. apply alter_alter_lookup, Hl. }
    assert (Hp : promise s = Pending) by (apply (proj2 Hinv ws s Hl), Hr).
    apply (invariant_settled w _ ws s _ Hinv Hl Hs'); [| |exact Hc].
    + unfold settle. simpl. rewrite Hp. simpl. discriminate.
    + unfold settle. simpl. rewrite Hp. simpl. discriminate.
  - (* SocketError *)
    destruct (socket_state w ws) as [r|] eqn:Hst; [|discriminate].
    destruct r; try discriminate. injection H as <-.
    apply socket_state_lookup in Hst as (s & Hl & Hr).
    destruct (onerror_connection ws (alter_socket (with_readyState CLOSED) ws w))
      as (Hs & Hc & _).
    assert (Hs' : sockets (onerror ws (alter_socket (with_readyState CLOSED) ws w))
                  = <[ws := settle Rejected (with_readyState CLOSED s)]> (sockets w)).
    { rewrite Hs. unfold alter_socket. simpl. apply alter_alter_lookup, Hl. }
    assert (Hp : promise s = Pending) by (apply (proj2 Hinv ws s Hl), Hr).
    apply (invariant_settled w _ ws s _ Hinv Hl Hs'); [| |exact Hc].
    + unfold settle. simpl. rewrite Hp. simpl. discriminate.
    + unfold settle. simpl. rewrite Hp. simpl. discriminate.
  - (* SocketClosing *)
    destruct (socket_state w ws) as [r|] eqn:Hst; [|discriminate].
    destruct r; try discriminate. injection H as <-.
    apply socket_state_lookup in Hst as (s & Hl & Hr).
    apply (invariant_closed w _ ws s (with_readyState CLOSING s) Hinv Hl);
      [congruence | unfold alter_socket; simpl; apply alter_lookup, Hl
      | discriminate | reflexivity | reflexivity].
  - (* SocketClose *)
    destruct (socket_state w ws) as [r|] eqn:Hst; [|discriminate].
    assert (Hr0 : r <> CONNECTING) by (destruct r; discriminate).
    assert (w' = onclose (alter_socket (with_readyState CLOSED) ws w))
      by (destruct r; congruence).
    subst w'. clear H.
    apply socket_state_lookup in Hst as (s & Hl & Hr).
    destruct (onclose_connection (alter_socket (with_readyState CLOSED) ws w)) as (Hs & Hc).
    apply (invariant_closed w _ ws s (with_readyState CLOSED s) Hinv Hl);
      [congruence | rewrite Hs; unfold alter_socket; simpl; apply alter_lookup, Hl
      | discriminate | reflexivity | exact Hc].
  - (* SocketLost *)
    destruct (socket_state w ws) as [r|] eqn:Hst; [|discriminate].
    assert (Hr0 : r <> CONNECTING) by (destruct r; discriminate).
    assert (w' = onclose (onerror ws (alter_socket (with_readyState CLOSED) ws w)))
      by (destruct r; congruence).
    subst w'. clear H.
    apply socket_state_lookup in Hst as (s & Hl & Hr).
    destruct (onclose_connection (onerror ws (alter_socket (with_readyState CLOSED) ws w)))
      as (Hs & Hc).
    destruct (onerror_connection ws (alter_socket (with_readyState CLOSED) ws w))
      as (Hs1 & Hc1 & _).
    assert (Hp : promise s <> Pending).
    { intros Hp. apply (proj2 Hinv ws s Hl) in Hp. congruence. }
    apply (invariant_settled w _ ws s (settle Rejected (with_readyState CLOSED s)) Hinv Hl).
    + rewrite Hs, Hs1. unfold alter_socket. simpl. apply alter_alter_lookup, Hl.
    + unfold settle. simpl. destruct (promise s); simpl; discriminate.
    + unfold settle. simpl. destruct (promise s) eqn:Hps; simpl; congruence.
    + rewrite Hc. exact Hc1.
  - (* SocketMessage *)
    destruct (socket_state w ws) as [[]|]; try discriminate; injection H as <-.
    all: revert Hinv; apply connection_invariant_same, onmessage_same_connection.
  - (* TranscriptRead *)
    destruct (transcriptUpdates w) as [|[cur text] rest]; [discriminate|].
    injection H as <-. revert Hinv. apply connection_invariant_same.
    eapply same_connection_trans;
      [|apply updateTranscriptStorage_resume_same_connection]. repeat split.
  - (* SendResume *)
    destruct (sends w !! i) as [[h message]|] eqn:Hi; [|discriminate].
    destruct (await h w) as [settled|] eqn:Ha; [|discriminate]. injection H as <-.
    revert Hinv. apply connection_invariant_same.
    eapply same_connection_trans;
      [|apply sendMessageToNative_resume_same_connection]. repeat split.
  - (* StorageChanged *)
    destruct (changeEvents w) as [|ev rest]; [discriminate|]. injection H as <-.
    revert Hinv. apply connection_invariant_same.
    eapply same_connection_trans; [|apply onChanged_same_connection]. repeat split.
  - (* Alarm *)
    destruct (alarms w !! alarm_name); [|discriminate]. injection H as <-.
    unfold onAlarm. destruct (String.eqb alarm_name ALARM_HEALTH_CHECK); [|exact Hinv].
    apply sendMessageToNative_invariant.
    revert Hinv. apply connection_invariant_same. repeat split.
  - (* Startup *)
    injection H as <-. revert Hinv. apply connection_invariant_same.
    unfold onStartup.
    eapply same_connection_trans; [|apply reset_state_same_connection]. repeat split.
  - (* Installed *)
    injection H as <-. revert Hinv. apply connection_invariant_same.
    unfold onInstalled.
    eapply same_connection_trans; [|apply reset_state_same_connection]. repeat split.
Qed.

Lemma reachable_connection_invariant w : reachable w -> connection_invariant w.
Proof.
  induction 1 as [|e w w' _ IH H].
  - apply connection_invariant_initial.
  - eapply step_connection_invariant; eassumption.
Qed.

Lemma reachable_run trace : forall w w', reachable w -> run trace w = Some w' -> reachable w'.
Proof.
  induction trace as [|e trace IH]; intros w w' Hr; simpl.
  - intros [= <-]. exact Hr.
  - destruct (step e w) as [w1|] eqn:Hs; [|discriminate].
    apply IH. eapply reachable_step; eassumption.
Qed.

Lemma reachable_after trace : reachable (after trace).
Proof.
  unfold after. destruct (run trace initial) as [w|] eqn:H; simpl.
  - eapply reachable_run; [apply reachable_initial | exact H].
  - apply reachable_initial.
Qed.

End Connection.

Section Acquire.

Lemma getWebSocket_keeps_closed w :
  open_connection w = None -> open_connection (getWebSocket w).2 = None.
Proof.
  intros Ho. destruct (connectionPromise w) as [p|] eqn:Hp.
  { rewrite (getWebSocket_pending w p Ho Hp). exact Ho. }
  destruct (getWebSocket_fresh w Ho Hp) as (_ & Hs & _ & Hn).
  unfold open_connection, is_open in *. rewrite Hn, Hs.
  destruct (nativeWebSocket w) as [ws|]; [|reflexivity].
  destruct (decide (ws < length (sockets w))) as [Hlt|Hge].
  - rewrite lookup_app_l by assumption. exact Ho.
  - rewrite lookup_app_r by lia.
    destruct (ws - length (sockets w)) as [|k]; [reflexivity|].
    simpl. reflexivity.
Qed.

(** While an attempt is in flight, every call joins it. *)
Lemma acquire_pending n : forall w p,
  open_connection w = None -> connectionPromise w = Some p ->
  (acquire n w).1 = replicate n (Awaiting p) /\
  sockets (acquire n w).2 = sockets w /\
  connectionPromise (acquire n w).2 = Some p.
Proof.
  induction n as [|n IH]; intros w p Ho Hp; [repeat split; assumption|].
  cbn [acquire fst snd]. rewrite (getWebSocket_pending w p Ho Hp). cbn [fst snd].
  destruct (IH (emit (console_log "Waiting for an existing connection attempt...") w) p Ho Hp)
    as (Hh & Hs & Hc).
  rewrite Hh, Hs, Hc. repeat split.
Qed.

Lemma acquire_shared n w :
  open_connection w = None ->
  exists p,
    (acquire (S n) w).1 = replicate (S n) (Awaiting p) /\
    connectionPromise (acquire (S n) w).2 = Some p /\
    sockets (acquire (S n) w).2
      = sockets w ++ match connectionPromise w with Some _ => [] | None => [new_socket] end.
Proof.
  intros Ho. destruct (connectionPromise w) as [p|] eqn:Hp.
  - exists p. destruct (acquire_pending (S n) w p Ho Hp) as (Hh & Hs & Hc).
    rewrite app_nil_r. auto.
  - destruct (getWebSocket_fresh w Ho Hp) as (Hh & Hs & Hc & _).
    exists (length (sockets w)). cbn [acquire fst snd].
    destruct (acquire_pending n (getWebSocket w).2 (length (sockets w))
                (getWebSocket_keeps_closed w Ho) Hc) as (Hh' & Hs' & Hc').
    cbn zeta in Hh. rewrite Hh, Hh', Hs', Hc', Hs. repeat split.
Qed.

Lemma settled_by_open w w' p :
  connection_invariant w -> connecting w p -> step (SocketOpen p) w = Some w' ->
  await (Awaiting p) w' = Some (Normal p).
Proof.
  intros Hinv Hc. simpl. unfold connecting in Hc. rewrite Hc. intros [= <-].
  apply socket_state_lookup in Hc as (s & Hl & Hr).
  destruct (onopen_connection p (alter_socket (with_readyState OPEN) p w)) as (Hs & _).
  unfold await. rewrite Hs. unfold alter_socket. simpl.
  rewrite !list_lookup_alter_eq, Hl. simpl.
  assert (Hp : promise s = Pending) by (apply (proj2 Hinv p s Hl), Hr).
  unfold settle. simpl. rewrite Hp. reflexivity.
Qed.

Lemma settled_by_error w w' p :
  connection_invariant w -> connecting w p -> step (SocketError p) w = Some w' ->
  await (Awaiting p) w' = Some (Throw ConnectionFailed).
Proof.
  intros Hinv Hc. simpl. unfold connecting in Hc. rewrite Hc. intros [= <-].
  apply socket_state_lookup in Hc as (s & Hl & Hr).
  destruct (onerror_connection p (alter_socket (with_readyState CLOSED) p w)) as (Hs & _).
  unfold await. rewrite Hs. unfold alter_socket. simpl.
  rewrite !list_lookup_alter_eq, Hl. simpl.
  assert (Hp : promise s = Pending) by (apply (proj2 Hinv p s Hl), Hr).
  unfold settle. simpl. rewrite Hp. reflexivity.
Qed.

End Acquire.

(** What holds of the sharing of attempts.  The socket held in
    [nativeWebSocket] is returned at once when its state is OPEN.
    While the marker [connectionPromise] is set and that socket is not
    open, a call returns the attempt the marker names and creates no
    socket, and the marker names a socket that is connecting.  Calls
    made in a row while no connection is open return one and the same
    promise and between them create at most one socket; that promise is
    fulfilled with the socket when it opens and rejected when it
    fails. *)
Lemma attempt_is_shared_while_marked w :
  reachable w ->
  (forall ws, nativeWebSocket w = Some ws -> socket_state w ws = Some OPEN ->
     getWebSocket w = (Immediate ws, w)) /\
  (forall p, open_connection w = None -> connectionPromise w = Some p ->
     connecting w p /\
     getWebSocket w
     = (Awaiting p, emit (console_log "Waiting for an existing connection attempt...") w)) /\
  (open_connection w = None ->
   forall n, exists p,
     (acquire (S n) w).1 = replicate (S n) (Awaiting p) /\
     connectionPromise (acquire (S n) w).2 = Some p /\
     sockets (acquire (S n) w).2
       = sockets w ++ match connectionPromise w with Some _ => [] | None => [new_socket] end) /\
  (forall p w', connecting w p ->
     (step (SocketOpen p) w = Some w' -> await (Awaiting p) w' = Some (Normal p)) /\
     (step (SocketError p) w = Some w' ->
      await (Awaiting p) w' = Some (Throw ConnectionFailed))).
Proof.
  intros Hr. pose proof (reachable_connection_invariant w Hr) as Hinv.
  split.
  { intros ws Hn Hst. apply getWebSocket_open. unfold open_connection, is_open.
    rewrite Hn. apply socket_state_lookup in Hst as (s & -> & ->). reflexivity. }
  split.
  { intros p Ho Hp. split; [apply (proj1 Hinv), Hp|].
    apply getWebSocket_pending; assumption. }
  split; [intros Ho n; apply acquire_shared, Ho|].
  intros p w' Hc. split.
  - apply settled_by_open; assumption.
  - apply settled_by_error; assumption.
Qed.

(** The close handler does not look at which socket closed: when an
    older socket closes after a newer one has opened, the global is
    cleared although the newer socket is open, and the next call starts
    another attempt. *)
Lemma close_of_older_socket_clears_global :
  let w := after [PortConnect "popup-connection"; AttachStep; AttachStep; SocketOpen 0;
                  SocketClosing 0; PortMessage 0 (JObj [("type", JStr "GET_STATUS")]);
                  SocketOpen 1; SocketClose 0] in
  socket_state w 1 = Some OPEN /\ nativeWebSocket w = None /\
  (getWebSocket w).1 = Awaiting 2.
Proof. vm_compute. repeat split. Qed.

(** C2, the failing input: the error handler of a socket stays
    installed after the socket has opened, and its [cleanup] clears
    [connectionPromise] whichever attempt the marker names.  Socket 0
    has opened and is closing when a command of the popup starts the
    attempt on socket 1; the connection of socket 0 is then lost, and
    its error handler clears the marker of the attempt on socket 1.
    The next command finds neither an open socket nor a marker and
    starts a second attempt, on socket 2, while socket 1 is still
    connecting: two attempts are in flight and the two commands wait on
    different promises. *)
Lemma stale_error_starts_second_attempt :
  exists w1 w2,
    run [PortConnect "popup-connection"; AttachStep; AttachStep; SocketOpen 0;
         SendResume 0 false; SendResume 0 false; SocketClosing 0;
         PortMessage 0 (JObj [("type", JStr "GET_STATUS")])] initial = Some w1 /\
    run [SocketLost 0; PortMessage 0 (JObj [("type", JStr "GET_DEVICES")])] w1 = Some w2 /\
    reachable w2 /\
    open_connection w1 = None /\ connecting w1 1 /\ connectionPromise w1 = Some 1 /\
    sends w1 = [(Awaiting 1, {| action := "get_status"; data := None |})] /\
    open_connection w2 = None /\ connecting w2 1 /\ connecting w2 2 /\
    length (sockets w2) = 3 /\
    sends w2 = [(Awaiting 1, {| action := "get_status"; data := None |});
                (Awaiting 2, {| action := "get_devices"; data := None |})].
Proof.
  eexists. eexists. split; [vm_compute; reflexivity|].
  split; [vm_compute; reflexivity|].
  split.
  { apply (reachable_run
      [PortConnect "popup-connection"; AttachStep; AttachStep; SocketOpen 0;
       SendResume 0 false; SendResume 0 false; SocketClosing 0;
       PortMessage 0 (JObj [("type", JStr "GET_STATUS")]);
       SocketLost 0; PortMessage 0 (JObj [("type", JStr "GET_DEVICES")])]
      initial _ reachable_initial).
    vm_compute. reflexivity. }
  vm_compute. repeat split.
Qed.

(** ** The health-check alarm *)

Section HealthCheck.

Lemma linked_snoc seen pending stored v :
  linked seen pending stored ->
  linked seen (pending ++ [{| oldValue := stored; newValue := v |}]) v.
Proof.
  revert seen. induction pending as [|c pending IH]; intros seen; simpl.
  - intros ->. split; reflexivity.
  - intros [Ho Hl]. split; [exact Ho | apply IH, Hl].
Qed.

Lemma session_set_pending items w :
  pending_flag_changes (session_set items w)
  = pending_flag_changes w
    ++ option_list ((area_set items (session w)).2 !! STORAGE_KEYS.isRecording).
Proof.
  unfold session_set.
  match goal with |- context [notify ?ns ?c ?x] =>
    destruct (notify_cases ns c x) as [[He ->] | [_ ->]] end.
  - rewrite He, lookup_empty. simpl. rewrite app_nil_r. reflexivity.
  - unfold pending_flag_changes. simpl. rewrite omap_app. f_equal.
Qed.

Lemma flag_items_written items w :
  flag_items items ->
  exists b,
    session (session_set items w) !! STORAGE_KEYS.isRecording = Some (JBool b) /\
    (area_set items (session w)).2 !! STORAGE_KEYS.isRecording
    = if bool_decide (session w !! STORAGE_KEYS.isRecording = Some (JBool b)) then None
      else Some {| oldValue := session w !! STORAGE_KEYS.isRecording;
                   newValue := Some (JBool b) |}.
Proof.
  intros [b [-> | ->]]; exists b.
  - rewrite session_set_flag, area_set_one. simpl. split; [apply lookup_insert_eq|].
    destruct (bool_decide _); [apply lookup_empty | apply lookup_singleton_eq].
  - rewrite session_set_two, area_set_two. simpl. split.
    + rewrite lookup_insert_ne by discriminate. apply lookup_insert_eq.
    + destruct (bool_decide (<[STORAGE_KEYS.isRecording:=JBool b]> (session w)
                               !! STORAGE_KEYS.config = Some (JObj []))).
      * destruct (bool_decide _); [apply lookup_empty | apply lookup_singleton_eq].
      * rewrite lookup_insert_ne by discriminate.
        destruct (bool_decide _); [apply lookup_empty | apply lookup_singleton_eq].
Qed.

Lemma session_set_alarms items w : alarms (session_set items w) = alarms w.
Proof. destruct (session_set_frame items w) as (_ & _ & _ & _ & _ & _ & H & _). exact H. Qed.

Lemma alarm_invariant_initial : alarm_invariant initial.
Proof.
  split; [left; reflexivity|]. split; [intros name a; simpl; rewrite lookup_empty; discriminate|].
  split; [constructor|]. exists None. split; [reflexivity|].
  unfold timer_active. simpl. rewrite lookup_empty. split; discriminate.
Qed.

Lemma alarm_invariant_same w w' :
  same_flag w w' -> alarm_invariant w -> alarm_invariant w'.
Proof.
  intros (Hs & Hp & Ha). unfold alarm_invariant, timer_active.
  rewrite Hs, Hp, Ha. auto.
Qed.

Lemma alarm_invariant_write items w :
  flag_items items -> alarm_invariant w -> alarm_invariant (session_set items w).
Proof.
  intros Hi (Hb & Hwf & Hall & seen & Hl & Ht).
  destruct (flag_items_written items w Hi) as (b & Hs & Hc).
  unfold alarm_invariant, timer_active.
  rewrite session_set_pending, session_set_alarms, Hs, Hc.
  split; [right; eauto|]. split; [exact Hwf|].
  destruct (bool_decide (session w !! STORAGE_KEYS.isRecording = Some (JBool b))) eqn:Hd.
  - apply bool_decide_eq_true in Hd. simpl. rewrite app_nil_r.
    split; [exact Hall|]. exists seen. rewrite <- Hd. auto.
  - apply bool_decide_eq_false in Hd. simpl. split.
    + apply Forall_app. split; [exact Hall|]. constructor; [|constructor].
      split; simpl; [eauto | exact Hd].
    + exists seen. split; [apply linked_snoc, Hl | exact Ht].
Qed.

(** What the listener does with a notification. *)
Lemma onChanged_cases ev w :
  (flag_change ev = None /\ onChanged ev w = w) \/
  (exists c,
     flag_change ev = Some c /\
     session (onChanged ev w) = session w /\
     changeEvents (onChanged ev w) = changeEvents w /\
     alarms (onChanged ev w)
     = if truthy (newValue c) then <[ALARM_HEALTH_CHECK := health_check]> (alarms w)
       else delete ALARM_HEALTH_CHECK (alarms w)).
Proof.
  unfold onChanged, flag_change.
  destruct (String.eqb (namespace ev) "session"); [|left; auto].
  destruct (changes ev !! STORAGE_KEYS.isRecording) as [c|]; [|left; auto].
  right. exists c. split; [reflexivity|].
  destruct (output_only_updateBadge (truthy (newValue c)) w) as [es ->].
  destruct (truthy (newValue c)); repeat split.
Qed.

Lemma alarm_invariant_onChanged ev rest w :
  changeEvents w = ev :: rest -> alarm_invariant w ->
  alarm_invariant (onChanged ev (with_changeEvents rest w)).
Proof.
  intros Hq (Hb & Hwf & Hall & seen & Hl & Ht).
  unfold pending_flag_changes in Hl, Hall. rewrite Hq in Hl, Hall. simpl in Hl, Hall.
  destruct (onChanged_cases ev (with_changeEvents rest w))
    as [[Hn ->] | (c & Hc & Hs & Hce & Ha)].
  - rewrite Hn in Hl, Hall.
    split; [exact Hb|]. split; [exact Hwf|]. split; [exact Hall|]. exists seen. auto.
  - rewrite Hc in Hl, Hall. simpl in Hl. destruct Hl as [Ho Hl].
    apply Forall_cons in Hall as [[[b Hnew] _] Hall].
    unfold alarm_invariant, timer_active, pending_flag_changes.
    rewrite Hs, Hce, Ha. simpl. rewrite Hnew. simpl.
    split; [exact Hb|]. split; [|split; [exact Hall|]].
    + intros name a. destruct b.
      * destruct (decide (name = ALARM_HEALTH_CHECK)) as [->|Hne].
        -- rewrite lookup_insert_eq. intros [= <-]. auto.
        -- rewrite lookup_insert_ne by congruence. apply Hwf.
      * intros H. apply lookup_delete_Some in H as [Hne H].
        apply Hwf in H as [H _]. congruence.
    + exists (Some (JBool b)). rewrite <- Hnew. split; [exact Hl|].
      rewrite Hnew. simpl. destruct b.
      * rewrite lookup_insert_eq. split; reflexivity.
      * rewrite lookup_delete_eq. split; discriminate.
Qed.

Lemma step_alarm_invariant e w w' :
  step e w = Some w' -> alarm_invariant w -> alarm_invariant w'.
Proof.
  intros H Hinv.
  destruct (step_flag_cases e w w' H)
    as [Hs | [(_ & w1 & items & H1 & Hi & H2) | (_ & ev & rest & Hq & ->)]].
  - eapply alarm_invariant_same; eassumption.
  - eapply alarm_invariant_same; [exact H2|].
    apply alarm_invariant_write; [exact Hi|].
    eapply alarm_invariant_same; eassumption.
  - apply alarm_invariant_onChanged; assumption.
Qed.

Lemma reachable_alarm_invariant w : reachable w -> alarm_invariant w.
Proof.
  induction 1 as [|e w w' _ IH H].
  - apply alarm_invariant_initial.
  - eapply step_alarm_invariant; eassumption.
Qed.




End HealthCheck.




(** * Further properties *)

(** * Further properties of the background script *)

(** ** Observable output *)

Section Output.

Lemma wire_emit e w : wire (emit e w) = wire w ++ option_list (sent_frame e).
Proof.
  unfold wire, emit. simpl. rewrite omap_app. reflexivity.
Qed.

Lemma posted_emit e w : posted (emit e w) = posted w ++ option_list (posted_message e).
Proof.
  unfold posted, emit. simpl. rewrite omap_app. reflexivity.
Qed.

Lemma quiet_output_only f : quiet f -> output_only f.
Proof. intros H w. destruct (H w) as (es & -> & _). eauto. Qed.

Lemma quiet_wire f w : quiet f -> wire (f w) = wire w.
Proof.
  intros H. destruct (H w) as (es & -> & Hs & _). unfold wire. simpl.
  rewrite omap_app, Hs. apply app_nil_r.
Qed.

Lemma quiet_posted f w : quiet f -> posted (f w) = posted w.
Proof.
  intros H. destruct (H w) as (es & -> & _ & Hp). unfold posted. simpl.
  rewrite omap_app, Hp. apply app_nil_r.
Qed.

Lemma quiet_id : quiet (fun w => w).
Proof.
  intros w. exists []. rewrite app_nil_r, with_effects_id. repeat split.
Qed.

Lemma quiet_emit e : sent_frame e = None -> posted_message e = None -> quiet (emit e).
Proof.
  intros Hs Hp w. exists [e]. simpl. rewrite Hs, Hp. repeat split.
Qed.

Lemma quiet_compose f g : quiet f -> quiet g -> quiet (fun w => g (f w)).
Proof.
  intros Hf Hg w. destruct (Hf w) as (es & -> & Hs & Hp).
  destruct (Hg (with_effects (effects w ++ es) w)) as (es' & -> & Hs' & Hp').
  exists (es ++ es'). simpl. rewrite app_assoc, !omap_app, Hs, Hs', Hp, Hp'.
  repeat split.
Qed.

Lemma quiet_updateIcon state : quiet (updateIcon state).
Proof.
  unfold updateIcon. destruct (ICONS state); [|apply quiet_id].
  apply quiet_emit; reflexivity.
Qed.

Lemma quiet_updateBadge b : quiet (updateBadge b).
Proof.
  intros w. unfold updateBadge. destruct b.
  - apply (quiet_compose
      (fun w => emit (setTitle "Audio Capture - Đang ghi âm")
         (emit (setBadgeBackgroundColor "#FF0000") (emit (setBadgeText "REC") w)))
      (updateIcon "recording")); [|apply quiet_updateIcon].
    apply (quiet_compose
      (fun w => emit (setBadgeBackgroundColor "#FF0000") (emit (setBadgeText "REC") w))
      (emit (setTitle "Audio Capture - Đang ghi âm"))); [|apply quiet_emit; reflexivity].
    apply (quiet_compose (emit (setBadgeText "REC"))
             (emit (setBadgeBackgroundColor "#FF0000"))); apply quiet_emit; reflexivity.
  - assert (Hq : quiet (fun w => emit (setTitle "Audio Capture") (emit (setBadgeText "") w))).
    { apply (quiet_compose (emit (setBadgeText "")) (emit (setTitle "Audio Capture")));
        apply quiet_emit; reflexivity. }
    cbn zeta. simpl nativeWebSocket.
    destruct (nativeWebSocket w) as [ws|];
      [destruct (is_open _ ws)|].
    + apply (quiet_compose _ (updateIcon "idle") Hq (quiet_updateIcon "idle")).
    + apply (quiet_compose _ (updateIcon "error") Hq (quiet_updateIcon "error")).
    + apply (quiet_compose _ (updateIcon "idle") Hq (quiet_updateIcon "idle")).
Qed.

Lemma session_set_effects items w : effects (session_set items w) = effects w.
Proof.
  destruct (session_set_frame items w) as (_ & _ & _ & _ & _ & _ & _ & _ & _ & _ & H).
  exact H.
Qed.

Lemma local_set_effects items w : effects (local_set items w) = effects w.
Proof.
  destruct (local_set_frame items w) as (_ & _ & _ & _ & _ & _ & _ & _ & _ & _ & H).
  exact H.
Qed.

Lemma observer_attached w port p :
  popupPort w = Some port -> ports w !! port = Some p -> connected p = true ->
  observer w = Some port.
Proof. intros Hp Hl Hc. unfold observer. rewrite Hp, Hl, Hc. reflexivity. Qed.

Lemma broadcastToUI_cases message w :
  match observer w with
  | Some port =>
      broadcastToUI message w = (Normal tt, emit (port_postMessage port message) w)
  | None =>
      broadcastToUI message w = (Normal tt, w) \/
      broadcastToUI message w
      = (Normal tt,
         emit (console_warn "Could not send message via port, it might be closing.") w)
  end.
Proof.
  unfold observer, broadcastToUI, try_catch, postMessage, lift.
  destruct (popupPort w) as [port|]; [|left; reflexivity].
  destruct (ports w !! port) as [p|]; [destruct (connected p)|]; auto.
Qed.

Lemma broadcastToUI_posted message w :
  posted (broadcastToUI message w).2
  = posted w ++ match observer w with Some port => [(port, message)] | None => [] end /\
  wire (broadcastToUI message w).2 = wire w.
Proof.
  pose proof (broadcastToUI_cases message w) as H.
  destruct (observer w) as [port|].
  - rewrite H. simpl. rewrite posted_emit, wire_emit. simpl. rewrite app_nil_r. auto.
  - destruct H as [-> | ->]; simpl.
    + rewrite app_nil_r. auto.
    + rewrite posted_emit, wire_emit. simpl. rewrite !app_nil_r. auto.
Qed.

End Output.

(** X1: [broadcastToUI] never throws.  The envelope is posted, once,
    to the port held in [popupPort] when that port is connected;
    otherwise nothing is posted (with no popup attached nothing
    happens at all).  Nothing is written to a socket, and only the
    output changes. *)
Theorem broadcast_reaches_observer_or_is_dropped message w :
  let r := broadcastToUI message w in
  fst r = Normal tt /\
  posted (snd r)
  = posted w ++ match observer w with Some port => [(port, message)] | None => [] end /\
  wire (snd r) = wire w /\
  (exists es, snd r = with_effects (effects w ++ es) w) /\
  (popupPort w = None -> snd r = w).
Proof.
  cbn zeta. pose proof (broadcastToUI_cases message w) as H.
  destruct (observer w) as [port|] eqn:Ho.
  - rewrite H. simpl. rewrite posted_emit, wire_emit. simpl. rewrite app_nil_r.
    split; [reflexivity|]. split; [reflexivity|]. split; [reflexivity|].
    split; [eexists; reflexivity|].
    intros Hp. unfold observer in Ho. rewrite Hp in Ho. discriminate.
  - assert (Hnone : popupPort w = None -> broadcastToUI message w = (Normal tt, w)).
    { intros Hp. unfold broadcastToUI. rewrite Hp. reflexivity. }
    destruct H as [H | H]; rewrite H in *; simpl.
    + rewrite app_nil_r.
      split; [reflexivity|]. split; [reflexivity|]. split; [reflexivity|].
      split; [|auto].
      exists []. rewrite app_nil_r. symmetry. apply with_effects_id.
    + rewrite posted_emit, wire_emit. simpl. rewrite !app_nil_r.
      split; [reflexivity|]. split; [reflexivity|]. split; [reflexivity|].
      split; [eexists; reflexivity|].
      intros Hp. apply Hnone in Hp. congruence.
Qed.

(** ** The router: forwarding and the remaining rules *)

Section Router.

Lemma fire_output fields now r w :
  effects (fire fields now r w) = effects w /\
  popupPort (fire fields now r w) = popupPort w /\
  ports (fire fields now r w) = ports w.
Proof.
  destruct r; simpl.
  - destruct (session_set_frame
      [(STORAGE_KEYS.isRecording,
        JBool (strict_eq (assoc "is_recording" fields) (JBool true)))] w)
      as (_ & Hp & _ & _ & Hq & _ & _ & _ & _ & _ & He). auto.
  - destruct (session_set_frame [(STORAGE_KEYS.isRecording, JBool false)] w)
      as (_ & Hp & _ & _ & Hq & _ & _ & _ & _ & _ & He). auto.
  - auto.
  - destruct (local_set_frame
      [(STORAGE_KEYS.summary, JStr (summary_block now (assoc "text" fields)))] w)
      as (_ & Hp & _ & _ & Hq & _ & _ & _ & _ & _ & He). auto.
Qed.

Lemma observer_same w w' :
  popupPort w' = popupPort w -> ports w' = ports w -> observer w' = observer w.
Proof. intros Hp Hq. unfold observer. rewrite Hp, Hq. reflexivity. Qed.

Lemma posted_same w w' : effects w' = effects w -> posted w' = posted w.
Proof. intros H. unfold posted. rewrite H. reflexivity. Qed.

Lemma wire_same w w' : effects w' = effects w -> wire w' = wire w.
Proof. intros H. unfold wire. rewrite H. reflexivity. Qed.

Lemma forward_posted fields w :
  posted (forward fields w)
  = posted w ++ match observer w with
                | Some port => [(port, NATIVE_APP_MESSAGE (JObj fields))]
                | None => []
                end /\
  wire (forward fields w) = wire w.
Proof.
  unfold forward, run_handler.
  pose proof (broadcastToUI_cases (NATIVE_APP_MESSAGE (JObj fields)) w) as H.
  destruct (observer w) as [port|].
  - rewrite H. simpl. rewrite posted_emit, wire_emit. simpl. rewrite app_nil_r. auto.
  - destruct H as [-> | ->]; simpl.
    + rewrite app_nil_r. auto.
    + rewrite posted_emit, wire_emit. simpl. rewrite !app_nil_r. auto.
Qed.

Lemma dropped_output w :
  posted (dropped (received w)) = posted w /\ wire (dropped (received w)) = wire w /\
  sends (dropped (received w)) = sends w /\ alarms (dropped (received w)) = alarms w /\
  popupPort (dropped (received w)) = popupPort w /\ ports (dropped (received w)) = ports w.
Proof.
  unfold dropped, received. rewrite !posted_emit, !wire_emit. simpl.
  rewrite !app_nil_r. repeat split.
Qed.

Lemma route_first_match_posted fields now w :
  posted (route_first_match fields now w)
  = posted w ++ match forwarded (Some (JObj fields)), observer w with
                | Some message, Some port => [(port, NATIVE_APP_MESSAGE message)]
                | _, _ => []
                end /\
  wire (route_first_match fields now w) = wire w.
Proof.
  assert (Hr : posted (received w) = posted w /\ wire (received w) = wire w).
  { unfold received. rewrite posted_emit, wire_emit. simpl. rewrite !app_nil_r. auto. }
  destruct Hr as [Hrp Hrw].
  unfold route_first_match, forwarded.
  destruct (find (matches fields) rules) as [r|].
  - destruct (completes fields r).
    + destruct (fire_output fields now r (received w)) as (He & Hp & Hq).
      destruct (forward_posted fields (fire fields now r (received w))) as [-> ->].
      rewrite (observer_same (received w) _ Hp Hq).
      rewrite (posted_same _ _ He), (wire_same _ _ He), Hrp, Hrw.
      change (observer (received w)) with (observer w). auto.
    + destruct (dropped_output w) as (-> & -> & _).
      destruct (observer w); rewrite app_nil_r; auto.
  - destruct (forward_posted fields (received w)) as [-> ->].
    rewrite Hrp, Hrw. change (observer (received w)) with (observer w). auto.
Qed.

End Router.

Section RouterCases.

Lemma onmessage_plain message now w :
  message <> JNull -> (forall fields, message <> JObj fields) ->
  onmessage (Some message) now w
  = (Normal tt, run_handler (broadcastToUI (NATIVE_APP_MESSAGE message)) (received w)).
Proof.
  intros Hn Ho. unfold run_handler, received.
  unfold onmessage, onmessage_try, try_catch, bind, JSON_parse, ret, lift, of_completion.
  destruct message as [| | | | |fields]; try congruence; simpl.
  all: match goal with |- context [broadcastToUI ?m ?x] =>
         destruct (broadcastToUI_normal m x) as [es ->] end; reflexivity.
Qed.

Lemma fire_rest fields now r w :
  sends (fire fields now r w) = sends w /\ alarms (fire fields now r w) = alarms w /\
  attaches (fire fields now r w) = attaches w.
Proof.
  destruct r; simpl.
  - destruct (session_set_frame
      [(STORAGE_KEYS.isRecording,
        JBool (strict_eq (assoc "is_recording" fields) (JBool true)))] w)
      as (_ & _ & _ & _ & _ & _ & Ha & _ & Hs & Ht & _). auto.
  - destruct (session_set_frame [(STORAGE_KEYS.isRecording, JBool false)] w)
      as (_ & _ & _ & _ & _ & _ & Ha & _ & Hs & Ht & _). auto.
  - auto.
  - destruct (local_set_frame
      [(STORAGE_KEYS.summary, JStr (summary_block now (assoc "text" fields)))] w)
      as (_ & _ & _ & _ & _ & _ & Ha & _ & Hs & Ht & _). auto.
Qed.

Lemma route_first_match_rest fields now w :
  sends (route_first_match fields now w) = sends w /\
  alarms (route_first_match fields now w) = alarms w /\
  popupPort (route_first_match fields now w) = popupPort w /\
  ports (route_first_match fields now w) = ports w.
Proof.
  unfold route_first_match.
  destruct (find (matches fields) rules) as [r|].
  - destruct (completes fields r).
    + destruct (forward_output_only fields (fire fields now r (received w))) as [es ->].
      destruct (fire_rest fields now r (received w)) as (Hs & Ha & _).
      destruct (fire_output fields now r (received w)) as (_ & Hp & Hq).
      cbn [sends alarms popupPort ports with_effects]. rewrite Hs, Ha, Hp, Hq. repeat split.
    + destruct (dropped_output w) as (_ & _ & -> & -> & -> & ->). repeat split.
  - destruct (forward_output_only fields (received w)) as [es ->]. repeat split.
Qed.

End RouterCases.

Lemma onmessage_output event now w :
  posted (run_handler (onmessage event now) w)
  = posted w ++ match forwarded event, observer w with
                | Some message, Some port => [(port, NATIVE_APP_MESSAGE message)]
                | _, _ => []
                end /\
  wire (run_handler (onmessage event now) w) = wire w /\
  sends (run_handler (onmessage event now) w) = sends w /\
  alarms (run_handler (onmessage event now) w) = alarms w.
Proof.
  unfold run_handler. destruct event as [message|].
  2: { rewrite onmessage_syntax_error. simpl. rewrite posted_emit, wire_emit. simpl.
       rewrite !app_nil_r. auto. }
  destruct message as [| | | | |fields].
  1: { rewrite onmessage_null. unfold received. simpl.
       rewrite !posted_emit, !wire_emit. simpl. rewrite !app_nil_r. auto. }
  5: { rewrite onmessage_object. simpl.
       destruct (route_first_match_posted fields now w) as [-> ->].
       destruct (route_first_match_rest fields now w) as (-> & -> & _). auto. }
  all: rewrite onmessage_plain by discriminate; cbn [snd]; unfold run_handler.
  all: match goal with |- context [broadcastToUI ?m ?x] =>
         destruct (broadcastToUI_posted m x) as [Hp Hw];
         destruct (broadcastToUI_normal m x) as [es He] end.
  all: rewrite Hp, Hw, He; unfold received; simpl.
  all: rewrite posted_emit, wire_emit; simpl; rewrite !app_nil_r; auto.
Qed.

(** X2: the router forwards every frame whose handling did not throw,
    whatever rule fired: one [NATIVE_APP_MESSAGE] envelope carrying the
    whole message goes to the connected popup port, and nothing when no
    popup is attached.  Three kinds of frame are not forwarded: a frame
    that does not parse, the JSON value [null], and a summary update
    (a message on which the summary rule is the first to match) whose
    text cannot be converted to a string; every other message is, so in
    particular every object whose [text] converts to a string.  The
    router never writes to a socket, never queues a command and never
    touches the connection or the alarms. *)
Theorem router_forwards_every_message event now w :
  let w' := run_handler (onmessage event now) w in
  posted w'
  = posted w ++ match forwarded event, observer w with
                | Some message, Some port => [(port, NATIVE_APP_MESSAGE message)]
                | _, _ => []
                end /\
  (forwarded event = None <->
   event = None \/ event = Some JNull \/
   exists fields, event = Some (JObj fields) /\
     find (matches fields) rules = Some SummaryUpdate /\
     convertible (assoc "text" fields) = false) /\
  wire w' = wire w /\ sends w' = sends w /\ alarms w' = alarms w /\
  nativeWebSocket w' = nativeWebSocket w /\ connectionPromise w' = connectionPromise w /\
  sockets w' = sockets w.
Proof.
  cbn zeta.
  destruct (onmessage_same_connection event now w) as (Hn & Hc & Hs).
  destruct (onmessage_output event now w) as (Hp & Hw & Hse & Ha).
  rewrite Hn, Hc, Hs, Hp, Hw, Hse, Ha.
  split; [reflexivity|]. split; [|repeat split].
  unfold forwarded. destruct event as [[| | | | |fields]|].
  1: { split; auto. }
  6: { split; auto. }
  1-4: split; [discriminate | intros [H | [H | (f & H & _)]]; discriminate].
  destruct (find (matches fields) rules) as [[]|] eqn:Hf; cbn [completes].
  1-3, 5: split; [discriminate|];
    intros [H | [H | (f & [= <-] & H1 & H2)]]; try discriminate; congruence.
  destruct (convertible (assoc "text" fields)) eqn:Hcv.
  - split; [discriminate|].
    intros [H | [H | (f & [= <-] & H1 & H2)]]; try discriminate; congruence.
  - split; [|reflexivity]. intros _. right. right. exists fields. auto.
Qed.

(** X3: a parsed frame that is not a JSON object (a number, a string, a
    boolean, an array or [null]) matches no rule: session storage, local
    storage, the pending notifications and the transcript updates in
    flight are left as they were. *)
Theorem non_object_message_changes_no_state message now w :
  (forall fields, message <> JObj fields) ->
  let w' := run_handler (onmessage (Some message) now) w in
  session w' = session w /\ local w' = local w /\
  changeEvents w' = changeEvents w /\ transcriptUpdates w' = transcriptUpdates w.
Proof.
  intros Ho. cbn zeta.
  destruct (onmessage_cases (Some message) now w) as [[es ->] | (fields & [= ->] & _)].
  - repeat split.
  - exfalso. eapply Ho. reflexivity.
Qed.

Lemma non_object_message_changes_no_state_witness :
  let w' := run_handler (onmessage (Some (JArr [JStr "get_status"])) 0) initial in
  (forall fields, JArr [JStr "get_status"] <> JObj fields) /\
  session w' = session initial /\ local w' = local initial.
Proof.
  assert (H : forall fields, JArr [JStr "get_status"] <> JObj fields) by discriminate.
  split; [exact H|].
  destruct (non_object_message_changes_no_state (JArr [JStr "get_status"]) 0%N initial H)
    as (Hs & Hl & _).
  split; assumption.
Defined.

(** ** The summary and error rules *)

Section Rules.

Lemma summary_update_rule fields :
  summary_update fields -> find (matches fields) rules = Some SummaryUpdate.
Proof.
  intros [Ha Hs]. unfold rules. cbn [find matches].
  rewrite Ha, (strict_eq_false _ _ Hs). reflexivity.
Qed.

Lemma onmessage_summary fields now w :
  summary_update fields ->
  run_handler (onmessage (Some (JObj fields)) now) w
  = if convertible (assoc "text" fields)
    then forward fields
           (local_set
              [(STORAGE_KEYS.summary, JStr (summary_block now (assoc "text" fields)))]
              (received w))
    else dropped (received w).
Proof.
  intros H. unfold run_handler. rewrite onmessage_object. simpl.
  unfold route_first_match. rewrite (summary_update_rule fields H). reflexivity.
Qed.

Lemma onmessage_error fields now w :
  error_report fields ->
  run_handler (onmessage (Some (JObj fields)) now) w
  = forward fields (session_set [(STORAGE_KEYS.isRecording, JBool false)] (received w)).
Proof.
  intros [Hs Ha]. unfold run_handler. rewrite onmessage_object. simpl.
  unfold route_first_match, rules. cbn [find matches].
  rewrite Hs, (strict_eq_false _ _ Ha). reflexivity.
Qed.

Lemma forward_frame fields w :
  session (forward fields w) = session w /\ local (forward fields w) = local w /\
  changeEvents (forward fields w) = changeEvents w /\
  transcriptUpdates (forward fields w) = transcriptUpdates w.
Proof. destruct (forward_output_only fields w) as [es ->]. repeat split. Qed.

End Rules.

(** X4: a summary update that is not an error report, and whose text
    converts to a string, replaces the stored summary by the single
    block [[HH:MM:SS] \n text], whatever the summary was before (the
    second of two such updates leaves only its own block); the stored
    transcript, session storage and the transcript updates in flight
    are untouched.  When the text does not convert to a string (an
    object with a [toString] member of its own, or an array holding
    one), the update throws before the write: storage is as it was,
    the error is logged and nothing is posted to the popup. *)
Theorem summary_update_replaces_summary fields now w :
  summary_update fields ->
  let w' := run_handler (onmessage (Some (JObj fields)) now) w in
  (forall text, ToString_opt (assoc "text" fields) = Normal text ->
     local w' !! STORAGE_KEYS.summary
       = Some (JStr ("[" +:+ toLocaleTimeString now +:+ "] " +:+ newline +:+ " " +:+ text)) /\
     local w' !! STORAGE_KEYS.transcript = local w !! STORAGE_KEYS.transcript /\
     session w' = session w /\ transcriptUpdates w' = transcriptUpdates w /\
     forall fields2 now2 text2, summary_update fields2 ->
       ToString_opt (assoc "text" fields2) = Normal text2 ->
       local (run_handler (onmessage (Some (JObj fields2)) now2) w') !! STORAGE_KEYS.summary
       = Some (JStr ("[" +:+ toLocaleTimeString now2 +:+ "] " +:+ newline +:+ " "
                     +:+ text2))) /\
  (forall e, ToString_opt (assoc "text" fields) = Throw e ->
     local w' = local w /\ session w' = session w /\
     transcriptUpdates w' = transcriptUpdates w /\ posted w' = posted w /\
     effects w' = effects w ++ [console_log "Received from native app:";
                                console_error "Error parsing native message:"]).
Proof.
  intros H. cbn zeta.
  assert (Hone : forall f n x t, summary_update f ->
    ToString_opt (assoc "text" f) = Normal t ->
    local (run_handler (onmessage (Some (JObj f)) n) x)
    = <[STORAGE_KEYS.summary :=
          JStr ("[" +:+ toLocaleTimeString n +:+ "] " +:+ newline +:+ " " +:+ t)]> (local x)).
  { intros f n x t Hf Ht. rewrite (onmessage_summary f n x Hf).
    unfold convertible, summary_block, rendered. rewrite Ht.
    match goal with |- context [forward f ?y] =>
      destruct (forward_frame f y) as (_ & -> & _) end.
    rewrite local_set_one. reflexivity. }
  split.
  - intros text Ht. rewrite (Hone fields now w text H Ht).
    split; [apply lookup_insert_eq|].
    split; [apply lookup_insert_ne; discriminate|].
    rewrite (onmessage_summary fields now w H).
    unfold convertible. rewrite Ht.
    destruct (forward_frame fields
      (local_set [(STORAGE_KEYS.summary, JStr (summary_block now (assoc "text" fields)))]
         (received w))) as (Hs & _ & _ & Hu).
    destruct (local_set_frame
      [(STORAGE_KEYS.summary, JStr (summary_block now (assoc "text" fields)))] (received w))
      as (_ & _ & _ & _ & _ & Hs' & _ & Hu' & _).
    split; [rewrite Hs; exact Hs'|]. split; [rewrite Hu; exact Hu'|].
    intros fields2 now2 text2 H2 Ht2. rewrite (Hone fields2 now2 _ text2 H2 Ht2).
    apply lookup_insert_eq.
  - intros e He. rewrite (onmessage_summary fields now w H).
    unfold convertible. rewrite He.
    destruct (dropped_output w) as (Hp & _).
    split; [reflexivity|]. split; [reflexivity|]. split; [reflexivity|].
    split; [exact Hp|].
    unfold dropped, received, emit. cbn [effects with_effects].
    rewrite <- app_assoc. reflexivity.
Qed.

Lemma summary_update_replaces_summary_witness :
  let fields := [("action", JStr "summary_update"); ("text", JStr "agenda")] in
  let broken := [("action", JStr "summary_update");
                 ("text", JObj [("toString", JNum "1")])] in
  let w := run_handler (onmessage (Some (JObj fields)) 3600) initial in
  let w' := run_handler (onmessage (Some (JObj fields)) 3661) w in
  let w'' := run_handler (onmessage (Some (JObj broken)) 3725) w' in
  summary_update fields /\ summary_update broken /\
  local w !! STORAGE_KEYS.summary = Some (JStr ("[01:00:00] " +:+ newline +:+ " agenda")) /\
  local w' !! STORAGE_KEYS.summary = Some (JStr ("[01:01:01] " +:+ newline +:+ " agenda")) /\
  local w'' = local w' /\ posted w'' = posted w'.
Proof.
  assert (H : summary_update [("action", JStr "summary_update"); ("text", JStr "agenda")])
    by (split; [reflexivity | simpl; discriminate]).
  assert (Hb : summary_update [("action", JStr "summary_update");
                               ("text", JObj [("toString", JNum "1")])])
    by (split; [reflexivity | simpl; discriminate]).
  split; [exact H|]. split; [exact Hb|].
  split; [vm_compute; reflexivity|].
  split.
  - exact (proj1 (proj1 (summary_update_replaces_summary _ 3661%N _ H) "agenda" eq_refl)).
  - destruct (proj2 (summary_update_replaces_summary _ 3725%N
        (run_handler (onmessage (Some (JObj [("action", JStr "summary_update");
                                              ("text", JStr "agenda")])) 3661%N)
           (run_handler (onmessage (Some (JObj [("action", JStr "summary_update");
                                                 ("text", JStr "agenda")])) 3600%N) initial))
        Hb) TypeError eq_refl) as (Hl & _ & _ & Hp & _).
    split; [exact Hl | exact Hp].
Defined.

(** X5: an error report (other than a status report) sets the
    recording flag to false, leaves local storage and the transcript
    updates in flight alone, and is forwarded whole to the connected
    popup port. *)
Theorem error_report_clears_flag fields now w :
  error_report fields ->
  let w' := run_handler (onmessage (Some (JObj fields)) now) w in
  session w' !! STORAGE_KEYS.isRecording = Some (JBool false) /\
  local w' = local w /\ transcriptUpdates w' = transcriptUpdates w /\
  posted w'
  = posted w ++ match observer w with
                | Some port => [(port, NATIVE_APP_MESSAGE (JObj fields))]
                | None => []
                end.
Proof.
  intros H. cbn zeta. rewrite (onmessage_error fields now w H).
  destruct (forward_frame fields
    (session_set [(STORAGE_KEYS.isRecording, JBool false)] (received w)))
    as (Hs & Hl & _ & Ht).
  destruct (session_set_frame [(STORAGE_KEYS.isRecording, JBool false)] (received w))
    as (_ & Hp & _ & _ & Hq & Hl' & _ & Ht' & _ & _ & He).
  rewrite Hs, Hl, Ht, session_set_flag.
  split; [apply lookup_insert_eq|]. split; [exact Hl'|]. split; [exact Ht'|].
  destruct (forward_posted fields
    (session_set [(STORAGE_KEYS.isRecording, JBool false)] (received w))) as [-> _].
  rewrite (observer_same (received w) _ Hp Hq), (posted_same _ _ He).
  unfold received. rewrite posted_emit. simpl. rewrite app_nil_r. reflexivity.
Qed.

Lemma error_report_clears_flag_witness :
  let fields := [("status", JStr "error"); ("message", JStr "device lost")] in
  let w := after [PortConnect "popup-connection"] in
  let w' := run_handler (onmessage (Some (JObj fields)) 0) w in
  error_report fields /\
  session w' !! STORAGE_KEYS.isRecording = Some (JBool false) /\
  posted w' = [(0, NATIVE_APP_MESSAGE (JObj fields))].
Proof.
  assert (H : error_report [("status", JStr "error"); ("message", JStr "device lost")])
    by (split; [reflexivity | simpl; discriminate]).
  split; [exact H|].
  destruct (error_report_clears_flag _ 0%N (after [PortConnect "popup-connection"]) H)
    as (Hs & _ & _ & Hp).
  split; [exact Hs | exact Hp].
Defined.

(** ** The lifecycle resets *)

Section Reset.

Lemma reset_state_storage w :
  session (reset_state w)
  = <[STORAGE_KEYS.config := JObj []]>
      (<[STORAGE_KEYS.isRecording := JBool false]> (session w)) /\
  local (reset_state w)
  = <[STORAGE_KEYS.summary := JStr ""]>
      (<[STORAGE_KEYS.transcript := JStr ""]> (local w)) /\
  alarms (reset_state w) = alarms w /\
  transcriptUpdates (reset_state w) = transcriptUpdates w /\
  sends (reset_state w) = sends w.
Proof.
  unfold reset_state.
  match goal with |- context [updateBadge false ?x] =>
    destruct (output_only_updateBadge false x) as [es ->] end.
  cbn [session local alarms transcriptUpdates sends with_effects].
  match goal with |- context [local_set ?i ?x] =>
    destruct (local_set_frame i x) as (_ & _ & _ & _ & _ & Hs & Ha & Ht & Hse & _);
    rewrite Hs, Ha, Ht, Hse, (local_set_two _ _ _ _ x) end.
  match goal with |- context [session_set ?i ?x] =>
    destruct (session_set_frame i x) as (_ & _ & _ & _ & _ & Hl & Ha' & Ht' & Hse' & _);
    rewrite Hl, Ha', Ht', Hse', (session_set_two _ _ _ _ x) end.
  repeat split.
Qed.

End Reset.

(** X6: whatever the state, a browser start or an install leaves the
    recording flag false, the configuration empty and the stored
    transcript and summary empty.  The reset touches neither the
    connection nor the alarms, and it cancels no transcript update or
    command that is in flight. *)
Theorem lifecycle_reset_clears_state reason w :
  let reset_ok w' :=
    session w' !! STORAGE_KEYS.isRecording = Some (JBool false) /\
    session w' !! STORAGE_KEYS.config = Some (JObj []) /\
    local w' !! STORAGE_KEYS.transcript = Some (JStr "") /\
    local w' !! STORAGE_KEYS.summary = Some (JStr "") /\
    same_connection w w' /\ alarms w' = alarms w /\
    transcriptUpdates w' = transcriptUpdates w /\ sends w' = sends w in
  reset_ok (onStartup w) /\ reset_ok (onInstalled reason w).
Proof.
  cbn zeta. unfold onStartup, onInstalled.
  split.
  all: match goal with |- context [reset_state ?x] =>
         destruct (reset_state_storage x) as (-> & -> & -> & -> & ->);
         pose proof (reset_state_same_connection x) as Hc end.
  all: split; [rewrite lookup_insert_ne by discriminate; apply lookup_insert_eq|].
  all: split; [apply lookup_insert_eq|].
  all: split; [rewrite lookup_insert_ne by discriminate; apply lookup_insert_eq|].
  all: split; [apply lookup_insert_eq|].
  all: split; [|repeat split].
  all: eapply same_connection_trans; [|exact Hc]; repeat split.
Qed.

(** ** Acquiring the connection *)

Section GetWebSocket.

Lemma open_connection_Some w ws :
  open_connection w = Some ws ->
  nativeWebSocket w = Some ws /\ socket_state w ws = Some OPEN.
Proof.
  unfold open_connection, is_open, socket_state.
  destruct (nativeWebSocket w) as [ws'|]; [|discriminate].
  destruct (sockets w !! ws') as [s|] eqn:Hl; [|discriminate].
  destruct (readyState s) eqn:Hr; try discriminate.
  intros [= <-]. rewrite Hl. simpl. rewrite Hr. auto.
Qed.

Lemma getWebSocket_output w :
  wire (getWebSocket w).2 = wire w /\ posted (getWebSocket w).2 = posted w /\
  sends (getWebSocket w).2 = sends w /\ local (getWebSocket w).2 = local w /\
  popupPort (getWebSocket w).2 = popupPort w /\ ports (getWebSocket w).2 = ports w /\
  attaches (getWebSocket w).2 = attaches w /\
  transcriptUpdates (getWebSocket w).2 = transcriptUpdates w /\
  changeEvents (getWebSocket w).2 = changeEvents w.
Proof.
  unfold getWebSocket. destruct (open_connection w); [repeat split|].
  destruct (connectionPromise w); simpl.
  all: rewrite ?wire_emit, ?posted_emit; simpl; rewrite ?app_nil_r; repeat split.
  all: unfold wire, posted; simpl; rewrite omap_app; simpl; apply app_nil_r.
Qed.

End GetWebSocket.

(** X7: [getWebSocket] hands out a socket at once only when it is the
    one held in [nativeWebSocket] and its state is OPEN, and then it
    changes nothing.  When there is neither an open connection nor an
    attempt in flight it creates exactly one socket, to
    [ws://localhost:8766], in the connecting state, and records it in
    [connectionPromise].  In no case does it touch storage, the alarms
    or the queues, post to the popup or write to a socket. *)
Theorem getWebSocket_outcomes w :
  let r := getWebSocket w in
  (forall ws, r.1 = Immediate ws ->
     nativeWebSocket w = Some ws /\ socket_state w ws = Some OPEN /\ r.2 = w) /\
  (open_connection w = None -> connectionPromise w = None ->
     r.1 = Awaiting (length (sockets w)) /\
     sockets r.2
     = sockets w ++ [{| url := "ws://localhost:8766"; readyState := CONNECTING;
                        promise := Pending |}] /\
     connectionPromise r.2 = Some (length (sockets w))) /\
  same_flag w r.2 /\ local r.2 = local w /\ sends r.2 = sends w /\
  wire r.2 = wire w /\ posted r.2 = posted w.
Proof.
  cbn zeta. split; [|split].
  - intros ws. unfold getWebSocket.
    destruct (open_connection w) as [ws'|] eqn:Ho.
    + simpl. intros [= ->]. apply open_connection_Some in Ho as [Hn Hs]. auto.
    + destruct (connectionPromise w); discriminate.
  - intros Ho Hp. destruct (getWebSocket_fresh w Ho Hp) as (Hh & Hs & Hc & _). auto.
  - destruct (getWebSocket_output w) as (Hw & Hp & Hs & Hl & _).
    split; [apply getWebSocket_same_flag|]. auto.
Qed.

(** ** Commands of the popup *)

Section Commands.

Lemma sendMessageToNative_output c w :
  sends (sendMessageToNative c w) = sends w ++ [((getWebSocket w).1, c)] /\
  wire (sendMessageToNative c w) = wire w /\ posted (sendMessageToNative c w) = posted w /\
  local (sendMessageToNative c w) = local w /\
  popupPort (sendMessageToNative c w) = popupPort w /\
  ports (sendMessageToNative c w) = ports w /\
  attaches (sendMessageToNative c w) = attaches w /\
  transcriptUpdates (sendMessageToNative c w) = transcriptUpdates w /\
  changeEvents (sendMessageToNative c w) = changeEvents w.
Proof.
  unfold sendMessageToNative.
  destruct (getWebSocket_output w) as (Hw & Hp & Hs & Hl & Hpp & Hpo & Ha & Ht & Hc).
  unfold wire, posted in *. simpl. rewrite Hs. repeat split; assumption.
Qed.

Lemma handleUICommand_outbound fields c w :
  outbound_command fields = Some c ->
  run_handler (handleUICommand (JObj fields)) w = sendMessageToNative c w.
Proof.
  unfold outbound_command, run_handler, handleUICommand, bind, of_completion, lift, ret.
  simpl. destruct (assoc "type" fields) as [[| | |type| |]|]; try discriminate.
  simpl.
  destruct (String.eqb type "START_CAPTURE"); [intros [= <-]; reflexivity|].
  destruct (String.eqb type "STOP_CAPTURE"); [intros [= <-]; reflexivity|].
  destruct (String.eqb type "CLEAR_TRANSCRIPT") eqn:Hc.
  { apply String.eqb_eq in Hc. subst type. discriminate. }
  destruct (String.eqb type "GET_DEVICES"); [intros [= <-]; reflexivity|].
  destruct (String.eqb type "GET_STATUS"); [intros [= <-]; reflexivity|].
  discriminate.
Qed.

Lemma outbound_command_known fields c : outbound_command fields = Some c -> known_command c.
Proof.
  unfold outbound_command, known_command, command_actions.
  destruct (assoc "type" fields) as [[| | |type| |]|]; try discriminate.
  destruct (String.eqb type "START_CAPTURE"); [intros [= <-]; simpl; auto|].
  destruct (String.eqb type "STOP_CAPTURE"); [intros [= <-]; simpl; auto|].
  destruct (String.eqb type "GET_DEVICES"); [intros [= <-]; simpl; auto|].
  destruct (String.eqb type "GET_STATUS"); [intros [= <-]; simpl; auto|].
  discriminate.
Qed.

Lemma handleUICommand_ignored message w :
  (forall fields, message = JObj fields ->
     outbound_command fields = None /\
     assoc "type" fields <> Some (JStr "CLEAR_TRANSCRIPT")) ->
  run_handler (handleUICommand message) w = w.
Proof.
  intros H. destruct message as [| | | | |fields]; try reflexivity.
  destruct (H fields eq_refl) as [Ho Hc]. revert Ho.
  unfold outbound_command, run_handler, handleUICommand, bind, of_completion, lift, ret.
  simpl. destruct (assoc "type" fields) as [[| | |type| |]|]; try reflexivity.
  simpl.
  destruct (String.eqb type "START_CAPTURE"); [discriminate|].
  destruct (String.eqb type "STOP_CAPTURE"); [discriminate|].
  destruct (String.eqb type "CLEAR_TRANSCRIPT") eqn:Hc'.
  { apply String.eqb_eq in Hc'. subst type. contradiction. }
  destruct (String.eqb type "GET_DEVICES"); [discriminate|].
  destruct (String.eqb type "GET_STATUS"); [discriminate|].
  reflexivity.
Qed.

End Commands.

(** X8: each of [START_CAPTURE], [STOP_CAPTURE], [GET_DEVICES] and
    [GET_STATUS] queues exactly one outbound command, with the action
    [start_capture] (carrying the [config] of the message as its data),
    [stop_capture], [get_devices] or [get_status]; handling it changes
    neither storage nor the alarms, posts nothing to the popup and
    writes nothing to a socket by itself. *)
Theorem ui_command_queues_one_command fields c w :
  outbound_command fields = Some c ->
  let w' := run_handler (handleUICommand (JObj fields)) w in
  (exists h, sends w' = sends w ++ [(h, c)]) /\
  known_command c /\
  (assoc "type" fields = Some (JStr "START_CAPTURE") ->
   c = {| action := "start_capture"; data := assoc "config" fields |}) /\
  session w' = session w /\ local w' = local w /\ alarms w' = alarms w /\
  posted w' = posted w /\ wire w' = wire w.
Proof.
  intros H. cbn zeta. rewrite (handleUICommand_outbound fields c w H).
  destruct (sendMessageToNative_output c w) as (Hs & Hw & Hp & Hl & _).
  destruct (sendMessageToNative_same_flag c w) as (Hse & _ & Ha).
  split; [eexists; exact Hs|].
  split; [eapply outbound_command_known, H|].
  split; [|auto].
  intros Ht. unfold outbound_command in H. rewrite Ht in H. simpl in H. congruence.
Qed.

Lemma ui_command_queues_one_command_witness :
  let fields := [("type", JStr "START_CAPTURE");
                 ("config", JObj [("micDevice", JStr "1"); ("systemDevice", JStr "2");
                                  ("language", JStr "vi")])] in
  let c := {| action := "start_capture";
              data := Some (JObj [("micDevice", JStr "1"); ("systemDevice", JStr "2");
                                  ("language", JStr "vi")]) |} in
  outbound_command fields = Some c /\
  exists h, sends (run_handler (handleUICommand (JObj fields)) initial) = [(h, c)].
Proof.
  split; [reflexivity|].
  apply (ui_command_queues_one_command
    [("type", JStr "START_CAPTURE");
     ("config", JObj [("micDevice", JStr "1"); ("systemDevice", JStr "2");
                      ("language", JStr "vi")])] _ initial).
  reflexivity.
Defined.

(** X9: a popup message that is not an object, has no [type], or has a
    [type] other than the five commands is ignored: the state is left
    exactly as it was. *)
Theorem unknown_ui_command_is_ignored message w :
  (forall fields, message = JObj fields ->
     outbound_command fields = None /\
     assoc "type" fields <> Some (JStr "CLEAR_TRANSCRIPT")) ->
  run_handler (handleUICommand message) w = w.
Proof. apply handleUICommand_ignored. Qed.

Lemma unknown_ui_command_is_ignored_witness :
  run_handler (handleUICommand (JObj [("type", JStr "PAUSE_CAPTURE")])) initial = initial.
Proof.
  apply (unknown_ui_command_is_ignored (JObj [("type", JStr "PAUSE_CAPTURE")]) initial).
  intros fields [= <-]. split; [reflexivity | simpl; discriminate].
Defined.

(** ** Popup attachment and detachment *)

Section Attach.

Lemma getWebSocket_twice w :
  (getWebSocket (getWebSocket w).2).1 = (getWebSocket w).1 /\
  sockets (getWebSocket (getWebSocket w).2).2 = sockets (getWebSocket w).2.
Proof.
  destruct (open_connection w) as [ws|] eqn:Ho.
  { rewrite (getWebSocket_open w ws Ho). cbn [fst snd].
    rewrite (getWebSocket_open w ws Ho). auto. }
  destruct (connectionPromise w) as [p|] eqn:Hp.
  { rewrite (getWebSocket_pending w p Ho Hp). cbn [fst snd].
    rewrite (getWebSocket_pending
      (emit (console_log "Waiting for an existing connection attempt...") w) p Ho Hp).
    auto. }
  pose proof (getWebSocket_keeps_closed w Ho) as Ho'.
  destruct (getWebSocket_fresh w Ho Hp) as (Hh & Hs & Hc & _). cbn zeta in *.
  rewrite (getWebSocket_pending _ _ Ho' Hc). cbn [fst snd]. rewrite Hh. auto.
Qed.

Lemma sockets_grow_by_one w :
  length (sockets (getWebSocket w).2) <= S (length (sockets w)).
Proof.
  unfold getWebSocket. destruct (open_connection w); [simpl; lia|].
  destruct (connectionPromise w); simpl; [lia|].
  rewrite length_app. simpl. lia.
Qed.

Lemma getWebSocket_with_sends q w :
  (getWebSocket (with_sends q w)).1 = (getWebSocket w).1 /\
  sockets (getWebSocket (with_sends q w)).2 = sockets (getWebSocket w).2.
Proof.
  unfold getWebSocket, open_connection, is_open. simpl.
  destruct (nativeWebSocket w) as [ws|].
  - destruct (sockets w !! ws) as [s|]; [destruct (readyState s)|];
      try (split; reflexivity); destruct (connectionPromise w); split; reflexivity.
  - destruct (connectionPromise w); split; reflexivity.
Qed.

(** Two commands sent in a row share the handle of the first. *)
Lemma send_pair c1 c2 w :
  let w' := sendMessageToNative c2 (sendMessageToNative c1 w) in
  sends w' = sends w ++ [((getWebSocket w).1, c1); ((getWebSocket w).1, c2)] /\
  length (sockets w') <= S (length (sockets w)) /\
  wire w' = wire w /\ posted w' = posted w /\ local w' = local w /\
  session w' = session w /\ popupPort w' = popupPort w /\ attaches w' = attaches w.
Proof.
  cbn zeta.
  destruct (sendMessageToNative_output c2 (sendMessageToNative c1 w))
    as (Hs2 & Hw2 & Hp2 & Hl2 & Hpp2 & _ & Hat2 & _).
  destruct (sendMessageToNative_output c1 w)
    as (Hs1 & Hw1 & Hp1 & Hl1 & Hpp1 & _ & Hat1 & _).
  destruct (sendMessageToNative_same_flag c2 (sendMessageToNative c1 w)) as (Hse2 & _).
  destruct (sendMessageToNative_same_flag c1 w) as (Hse1 & _).
  rewrite Hs2, Hs1, Hw2, Hw1, Hp2, Hp1, Hl2, Hl1, Hse2, Hse1, Hpp2, Hpp1, Hat2, Hat1.
  assert (Hh : (getWebSocket (sendMessageToNative c1 w)).1 = (getWebSocket w).1
               /\ sockets (sendMessageToNative c2 (sendMessageToNative c1 w))
                  = sockets (getWebSocket w).2).
  { unfold sendMessageToNative. simpl.
    destruct (getWebSocket_with_sends
      (sends (getWebSocket w).2 ++ [((getWebSocket w).1, c1)]) (getWebSocket w).2)
      as [H1 H2].
    destruct (getWebSocket_twice w) as [H3 H4].
    rewrite H1, H2, H3, H4. auto. }
  destruct Hh as [-> ->].
  split; [rewrite <- app_assoc; reflexivity|].
  split; [apply sockets_grow_by_one|]. repeat split.
Qed.

End Attach.

(** X10: a popup that attaches under the name [popup-connection],
    while no earlier attach block is waiting, becomes the observer.
    When the two storage reads of its attach block are answered with no
    other event in between, it is sent one [INITIAL_STATE] envelope
    holding the recording flag, transcript and summary stored at the
    time of attaching, with [false] and empty strings where nothing is
    stored; then [get_status] and [get_devices] are queued, in this
    order, on a single connection handle, creating at most one socket.
    When instead the popup disconnects before the reads are answered,
    the post throws on the disconnected port and ends the block:
    no envelope is posted, no command is queued and no socket is
    created. *)
Theorem popup_attach_sends_snapshot_then_refreshes w :
  attaches w = [] ->
  let port := length (ports w) in
  let w1 := onConnect "popup-connection" w in
  (exists w2 w3,
    step AttachStep w1 = Some w2 /\ step AttachStep w2 = Some w3 /\
    popupPort w3 = Some port /\
    posted w3 = posted w ++ [(port, initial_state w)] /\
    (exists h, sends w3 = sends w ++ [(h, get_status_command); (h, get_devices_command)]) /\
    length (sockets w3) <= S (length (sockets w)) /\
    wire w3 = wire w /\ session w3 = session w /\ local w3 = local w /\
    attaches w3 = []) /\
  (exists wd wd2 wd3,
    step (PortDisconnect port) w1 = Some wd /\
    step AttachStep wd = Some wd2 /\ step AttachStep wd2 = Some wd3 /\
    popupPort wd3 = None /\ posted wd3 = posted w /\ sends wd3 = sends w /\
    sockets wd3 = sockets w /\ wire wd3 = wire w /\
    session wd3 = session w /\ local wd3 = local w /\ attaches wd3 = []).
Proof.
  intros Ha. cbn zeta.
  unfold onConnect. simpl (String.eqb _ _). cbv iota.
  split.
  - eexists. eexists. split.
    { simpl. rewrite Ha. simpl. reflexivity. }
    split.
    { simpl. unfold run_handler, attach_resume, bind, lift, postMessage. simpl.
      rewrite lookup_app_r by lia. rewrite Nat.sub_diag. simpl. reflexivity. }
    match goal with |- context [sendMessageToNative _ (sendMessageToNative _ ?x)] =>
      set (w0 := x);
      destruct (send_pair get_status_command get_devices_command w0)
        as (Hs & Hk & Hw & Hp & Hl & Hse & Hpp & Hat) end.
    fold get_status_command get_devices_command.
    rewrite Hs, Hw, Hp, Hl, Hse, Hpp, Hat.
    split; [reflexivity|].
    split.
    { unfold w0. rewrite posted_emit. simpl. unfold posted. simpl.
      rewrite omap_app. simpl. rewrite app_nil_r. reflexivity. }
    split; [eexists; reflexivity|].
    split; [exact Hk|].
    split.
    { unfold w0. rewrite wire_emit. simpl. unfold wire. simpl.
      rewrite omap_app. simpl. rewrite !app_nil_r. reflexivity. }
    repeat split.
  - eexists. eexists. eexists. split.
    { simpl. rewrite lookup_app_r by lia. rewrite Nat.sub_diag. simpl. reflexivity. }
    split.
    { simpl. rewrite Ha. simpl. reflexivity. }
    split.
    { simpl. unfold run_handler, attach_resume, bind, lift, postMessage. simpl.
      rewrite list_lookup_alter, lookup_app_r by lia. rewrite Nat.sub_diag. simpl.
      reflexivity. }
    simpl. destruct (decide (length (ports w) = length (ports w))); [|congruence].
    simpl. unfold posted, wire. simpl.
    rewrite !omap_app. simpl. rewrite !app_nil_r. repeat split.
Qed.

Lemma popup_attach_sends_snapshot_then_refreshes_witness :
  let w := after [PortConnect "popup-connection"; AttachStep; AttachStep; SocketOpen 0;
                  SocketMessage 0 (Some (final_segment "old")) 3600; TranscriptRead 3600;
                  SocketMessage 0 (Some (JObj [("action", JStr "get_status");
                                               ("is_recording", JBool true)])) 3601;
                  PortDisconnect 0] in
  attaches w = [] /\
  (exists w2 w3,
    step AttachStep (onConnect "popup-connection" w) = Some w2 /\
    step AttachStep w2 = Some w3 /\
    posted w3
    = posted w ++ [(1, INITIAL_STATE (JBool true) (JStr "[01:00:00] old") (JStr ""))] /\
    exists h, sends w3 = sends w ++ [(h, get_status_command); (h, get_devices_command)]) /\
  (exists wd wd2 wd3,
    step (PortDisconnect 1) (onConnect "popup-connection" w) = Some wd /\
    step AttachStep wd = Some wd2 /\ step AttachStep wd2 = Some wd3 /\
    posted wd3 = posted w /\ sends wd3 = sends w).
Proof.
  cbn zeta. split; [vm_compute; reflexivity|].
  destruct (popup_attach_sends_snapshot_then_refreshes
    (after [PortConnect "popup-connection"; AttachStep; AttachStep; SocketOpen 0;
            SocketMessage 0 (Some (final_segment "old")) 3600; TranscriptRead 3600;
            SocketMessage 0 (Some (JObj [("action", JStr "get_status");
                                         ("is_recording", JBool true)])) 3601;
            PortDisconnect 0]))
    as [(w2 & w3 & H2 & H3 & _ & Hp & Hs & _) (wd & wd2 & wd3 & Hd & Hd2 & Hd3 & _ & Hdp & Hds & _)].
  { vm_compute. reflexivity. }
  split.
  - exists w2, w3. split; [exact H2|]. split; [exact H3|]. split; [|exact Hs].
    rewrite Hp. vm_compute. reflexivity.
  - exists wd, wd2, wd3. split; [exact Hd|]. split; [exact Hd2|]. split; [exact Hd3|].
    split; [exact Hdp | exact Hds].
Defined.

(** X11: when a popup port disconnects, the observer reference is
    cleared, whichever popup port it held; from then on the router
    posts nothing (messages are dropped, not queued), while it still
    updates storage as before.  Session and local storage are not
    touched by the disconnection. *)
Theorem popup_detach_drops_broadcasts port p w w' :
  ports w !! port = Some p -> name p = "popup-connection" ->
  step (PortDisconnect port) w = Some w' ->
  popupPort w' = None /\ observer w' = None /\
  session w' = session w /\ local w' = local w /\
  forall event now,
    posted (run_handler (onmessage event now) w') = posted w' /\
    wire (run_handler (onmessage event now) w') = wire w'.
Proof.
  intros Hl Hn. simpl. rewrite Hl. destruct (connected p); [|discriminate].
  rewrite Hn. simpl. intros [= <-].
  split; [reflexivity|]. split; [reflexivity|]. split; [reflexivity|].
  split; [reflexivity|].
  intros event now.
  match goal with |- context [onmessage event now] =>
    match goal with |- context [run_handler (onmessage event now) ?x] =>
      destruct (onmessage_output event now x) as (Hp & Hw & _) end end.
  rewrite Hp, Hw. split; [|reflexivity].
  destruct (forwarded event); simpl; apply app_nil_r.
Qed.

Lemma popup_detach_drops_broadcasts_witness :
  let w := after [PortConnect "popup-connection"] in
  exists w',
    step (PortDisconnect 0) w = Some w' /\ popupPort w' = None /\
    posted (run_handler
              (onmessage (Some (JObj [("action", JStr "get_status")])) 0) w') = posted w'.
Proof.
  cbn zeta. eexists. split; [reflexivity|].
  destruct (popup_detach_drops_broadcasts 0 {| name := "popup-connection"; connected := true |}
    (after [PortConnect "popup-connection"]) _ eq_refl eq_refl eq_refl)
    as (Hp & _ & _ & _ & H).
  split; [exact Hp|]. apply H.
Defined.

(** ** Transcript updates in flight *)

(** X12: a final transcript segment without a [text] field still
    appends a line: the text rendered is [undefined].  The line is
    appended to the stored transcript, which is a string (or absent)
    whenever the extension itself has written it. *)
Theorem final_segment_without_text_appends_undefined fields now w :
  transcriptUpdates w = [] -> final_transcript fields -> assoc "text" fields = None ->
  convertible (local w !! STORAGE_KEYS.transcript) = true ->
  local (deliver w (fields, now)) !! STORAGE_KEYS.transcript
  = Some (JStr (String.concat newline
       (stored_lines (local w !! STORAGE_KEYS.transcript)
        ++ ["[" +:+ toLocaleTimeString now +:+ "] undefined"]))).
Proof.
  intros Hq Hf Ht Hc.
  assert (Hv : convertible (assoc "text" fields) = true) by (rewrite Ht; reflexivity).
  destruct (deliver_final w fields now Hq Hf Hv Hc) as [H _].
  rewrite H, Ht. reflexivity.
Qed.

Lemma final_segment_without_text_appends_undefined_witness :
  let w := after [PortConnect "popup-connection"; AttachStep; AttachStep; SocketOpen 0;
                  SocketMessage 0 (Some (final_segment "old")) 3600; TranscriptRead 3600] in
  local w !! STORAGE_KEYS.transcript = Some (JStr "[01:00:00] old") /\
  local (deliver w ([("action", JStr "transcript"); ("type", JStr "final")], 3661%N))
    !! STORAGE_KEYS.transcript
  = Some (JStr ("[01:00:00] old" +:+ newline +:+ "[01:01:01] undefined")).
Proof.
  cbv zeta. split; [vm_compute; reflexivity|].
  eapply eq_trans.
  - apply (final_segment_without_text_appends_undefined
      [("action", JStr "transcript"); ("type", JStr "final")] 3661%N
      (after [PortConnect "popup-connection"; AttachStep; AttachStep; SocketOpen 0;
              SocketMessage 0 (Some (final_segment "old")) 3600; TranscriptRead 3600])).
    + vm_compute. reflexivity.
    + repeat split; simpl; discriminate.
    + reflexivity.
    + vm_compute. reflexivity.
  - vm_compute. reflexivity.
Defined.

(** Why the stored transcript must convert: were it an object with a
    [toString] member of its own, the concatenation would throw and
    the update would write nothing. *)
Lemma stored_object_blocks_the_append :
  let stored := JObj [("toString", JNum "1")] in
  let w := with_local (<[STORAGE_KEYS.transcript := stored]> (local initial)) initial in
  local (deliver w ([("action", JStr "transcript"); ("type", JStr "final")], 3661%N))
    !! STORAGE_KEYS.transcript
  = Some stored.
Proof. vm_compute. reflexivity. Qed.

(** X13: when a second final segment arrives before the storage read
    of the first is answered, both updates start from the same stored
    transcript; after both reads are answered, and provided the text of
    the second segment and the stored transcript convert to strings,
    the transcript holds the earlier content and the second line only,
    whatever the first update did (its line is overwritten, or was
    never written because its text cannot be converted). *)
Theorem overlapping_updates_keep_the_last_line f1 f2 n1 n2 t1 t2 w :
  transcriptUpdates w = [] -> final_transcript f1 -> final_transcript f2 ->
  convertible (assoc "text" f2) = true ->
  convertible (local w !! STORAGE_KEYS.transcript) = true ->
  let w2 := run_handler (onmessage (Some (JObj f2)) n2)
              (run_handler (onmessage (Some (JObj f1)) n1) w) in
  transcriptUpdates w2
  = [(local w !! STORAGE_KEYS.transcript, assoc "text" f1);
     (local w !! STORAGE_KEYS.transcript, assoc "text" f2)] /\
  local (drain [t1; t2] w2) !! STORAGE_KEYS.transcript
  = Some (JStr (String.concat newline
       (stored_lines (local w !! STORAGE_KEYS.transcript)
        ++ [transcript_line t2 (assoc "text" f2)]))).
Proof.
  intros Hq H1 H2 Hv Hc. cbn zeta.
  destruct (onmessage_final_queue f1 n1 w H1) as [Hq1 Hl1].
  destruct (onmessage_final_queue f2 n2
              (run_handler (onmessage (Some (JObj f1)) n1) w) H2) as [Hq2 _].
  rewrite Hq1, Hl1, Hq in Hq2. simpl in Hq2.
  split; [exact Hq2|].
  destruct (drain_last [t1; t2] _ [(local w !! STORAGE_KEYS.transcript, assoc "text" f1)]
              _ _ Hq2 eq_refl Hv Hc) as [H _].
  exact H.
Qed.

Lemma overlapping_updates_keep_the_last_line_witness :
  let f1 := [("action", JStr "transcript"); ("type", JStr "final"); ("text", JStr "hello")] in
  let f2 := [("action", JStr "transcript"); ("type", JStr "final"); ("text", JStr "world")] in
  let w := after [PortConnect "popup-connection"; AttachStep; AttachStep; SocketOpen 0;
                  SocketMessage 0 (Some (final_segment "old")) 3600; TranscriptRead 3600] in
  let w2 := run_handler (onmessage (Some (JObj f2)) 0)
              (run_handler (onmessage (Some (JObj f1)) 0) w) in
  local w !! STORAGE_KEYS.transcript = Some (JStr "[01:00:00] old") /\
  local (drain [3661%N; 3662%N] w2) !! STORAGE_KEYS.transcript
  = Some (JStr ("[01:00:00] old" +:+ newline +:+ "[01:01:02] world")).
Proof.
  cbn zeta. split; [vm_compute; reflexivity|].
  destruct (overlapping_updates_keep_the_last_line
    [("action", JStr "transcript"); ("type", JStr "final"); ("text", JStr "hello")]
    [("action", JStr "transcript"); ("type", JStr "final"); ("text", JStr "world")]
    0%N 0%N 3661%N 3662%N
    (after [PortConnect "popup-connection"; AttachStep; AttachStep; SocketOpen 0;
            SocketMessage 0 (Some (final_segment "old")) 3600; TranscriptRead 3600]))
    as [_ H].
  - vm_compute. reflexivity.
  - repeat split; simpl; discriminate.
  - repeat split; simpl; discriminate.
  - reflexivity.
  - vm_compute. reflexivity.
  - eapply eq_trans; [exact H|]. vm_compute. reflexivity.
Defined.

(** X14: a [CLEAR_TRANSCRIPT] that arrives while a transcript update
    is in flight empties the stored transcript only until that update
    writes: provided the text of the segment and the transcript it read
    convert to strings, the update appends its line to the transcript
    it read before the clear, so the earlier content is stored
    again. *)
Theorem update_in_flight_survives_clear fields clear now t w :
  transcriptUpdates w = [] -> final_transcript fields ->
  assoc "type" clear = Some (JStr "CLEAR_TRANSCRIPT") ->
  convertible (assoc "text" fields) = true ->
  convertible (local w !! STORAGE_KEYS.transcript) = true ->
  let w1 := run_handler (onmessage (Some (JObj fields)) now) w in
  let w2 := run_handler (handleUICommand (JObj clear)) w1 in
  local w2 !! STORAGE_KEYS.transcript = Some (JStr "") /\
  local (drain [t] w2) !! STORAGE_KEYS.transcript
  = Some (JStr (String.concat newline
       (stored_lines (local w !! STORAGE_KEYS.transcript)
        ++ [transcript_line t (assoc "text" fields)]))).
Proof.
  intros Hq Hf Hc Hv Hcv. cbn zeta.
  destruct (onmessage_final_queue fields now w Hf) as [Hq1 Hl1].
  rewrite Hq in Hq1. simpl in Hq1.
  rewrite (handleUICommand_clear clear _ Hc).
  match goal with |- context [run_handler (broadcastToUI cleared) ?x] =>
    destruct (output_only_broadcastToUI cleared x) as [es ->] end.
  match goal with |- context [local_set ?i ?x] =>
    destruct (local_set_frame i x) as (_ & _ & _ & _ & _ & _ & _ & Ht & _);
    pose proof (local_set_two STORAGE_KEYS.transcript (JStr "")
                  STORAGE_KEYS.summary (JStr "") x) as Hl end.
  split.
  { simpl. rewrite Hl, lookup_insert_ne by discriminate. apply lookup_insert_eq. }
  match goal with |- context [drain [t] ?x] =>
    assert (Hx : transcriptUpdates x
                 = [] ++ [(local w !! STORAGE_KEYS.transcript, assoc "text" fields)])
      by (simpl; rewrite Ht; exact Hq1);
    destruct (drain_last [t] x [] _ _ Hx eq_refl Hv Hcv) as [H _] end.
  exact H.
Qed.

Lemma update_in_flight_survives_clear_witness :
  let w := after [PortConnect "popup-connection"; AttachStep; AttachStep; SocketOpen 0;
                  SocketMessage 0 (Some (final_segment "old")) 3600; TranscriptRead 3600] in
  let w1 := run_handler (onmessage (Some (final_segment "new")) 3661) w in
  let w2 := run_handler (handleUICommand (JObj [("type", JStr "CLEAR_TRANSCRIPT")])) w1 in
  local w2 !! STORAGE_KEYS.transcript = Some (JStr "") /\
  local (drain [3662%N] w2) !! STORAGE_KEYS.transcript
  = Some (JStr ("[01:00:00] old" +:+ newline +:+ "[01:01:02] new")).
Proof.
  cbn zeta.
  destruct (update_in_flight_survives_clear
    [("action", JStr "transcript"); ("type", JStr "final"); ("text", JStr "new")]
    [("type", JStr "CLEAR_TRANSCRIPT")] 3661%N 3662%N
    (after [PortConnect "popup-connection"; AttachStep; AttachStep; SocketOpen 0;
            SocketMessage 0 (Some (final_segment "old")) 3600; TranscriptRead 3600]))
    as [H1 H2].
  - vm_compute. reflexivity.
  - repeat split; simpl; discriminate.
  - reflexivity.
  - reflexivity.
  - vm_compute. reflexivity.
  - split; [exact H1|]. eapply eq_trans; [exact H2|]. vm_compute. reflexivity.
Defined.

(** ** Delivery of the notifications *)

Section Notifications.

Lemma onChanged_frame ev w :
  changeEvents (onChanged ev w) = changeEvents w /\
  session (onChanged ev w) = session w /\ local (onChanged ev w) = local w /\
  sends (onChanged ev w) = sends w /\ wire (onChanged ev w) = wire w /\
  posted (onChanged ev w) = posted w.
Proof.
  unfold onChanged. destruct (String.eqb (namespace ev) "session"); [|repeat split].
  destruct (changes ev !! STORAGE_KEYS.isRecording) as [c|]; [|repeat split].
  cbn zeta.
  pose proof (quiet_wire (updateBadge (truthy (newValue c))) w
                (quiet_updateBadge _)) as Hw.
  pose proof (quiet_posted (updateBadge (truthy (newValue c))) w
                (quiet_updateBadge _)) as Hp.
  destruct (output_only_updateBadge (truthy (newValue c)) w) as [es He].
  assert (Hf : changeEvents (updateBadge (truthy (newValue c)) w) = changeEvents w /\
               session (updateBadge (truthy (newValue c)) w) = session w /\
               local (updateBadge (truthy (newValue c)) w) = local w /\
               sends (updateBadge (truthy (newValue c)) w) = sends w)
    by (rewrite He; repeat split).
  destruct Hf as (H1 & H2 & H3 & H4).
  destruct (truthy (newValue c)).
  - split; [exact H1|]. split; [exact H2|]. split; [exact H3|]. split; [exact H4|].
    split; [rewrite <- Hw; apply wire_same; reflexivity|].
    rewrite <- Hp. apply posted_same. reflexivity.
  - split; [exact H1|]. split; [exact H2|]. split; [exact H3|]. split; [exact H4|].
    split; [rewrite <- Hw; apply wire_same; reflexivity|].
    rewrite <- Hp. apply posted_same. reflexivity.
Qed.


End Notifications.



(** ** Socket events *)

Section SocketEvents.

Lemma updateIcon_frame state w :
  session (updateIcon state w) = session w /\ local (updateIcon state w) = local w /\
  sends (updateIcon state w) = sends w /\ wire (updateIcon state w) = wire w /\
  posted (updateIcon state w) = posted w.
Proof.
  pose proof (quiet_wire (updateIcon state) w (quiet_updateIcon _)) as Hw.
  pose proof (quiet_posted (updateIcon state) w (quiet_updateIcon _)) as Hp.
  destruct (output_only_updateIcon state w) as [es He].
  split; [rewrite He; reflexivity|]. split; [rewrite He; reflexivity|].
  split; [rewrite He; reflexivity|]. split; assumption.
Qed.

Lemma emit_frame e w :
  sent_frame e = None -> posted_message e = None ->
  wire (emit e w) = wire w /\ posted (emit e w) = posted w.
Proof.
  intros H1 H2. unfold wire, posted, emit. simpl.
  rewrite !omap_app. simpl. rewrite H1, H2, !app_nil_r. split; reflexivity.
Qed.

Lemma onopen_frame ws w :
  session (onopen ws w) = session w /\ local (onopen ws w) = local w /\
  sends (onopen ws w) = sends w /\ wire (onopen ws w) = wire w /\
  posted (onopen ws w) = posted w.
Proof.
  unfold onopen. cbn zeta.
  destruct (updateIcon_frame "idle"
    (with_nativeWebSocket (Some ws)
       (emit (console_log "WebSocket connection established.") w)))
    as (H1 & H2 & H3 & H4 & H5).
  destruct (emit_frame (console_log "WebSocket connection established.") w
              eq_refl eq_refl) as (H6 & H7).
  split; [etransitivity; [|exact H1]; reflexivity|].
  split; [etransitivity; [|exact H2]; reflexivity|].
  split; [etransitivity; [|exact H3]; reflexivity|].
  split.
  - etransitivity; [|exact H6]. etransitivity; [|exact H4]. reflexivity.
  - etransitivity; [|exact H7]. etransitivity; [|exact H5]. reflexivity.
Qed.

Lemma onerror_frame ws w :
  session (onerror ws w) = session w /\ local (onerror ws w) = local w /\
  sends (onerror ws w) = sends w /\ wire (onerror ws w) = wire w /\
  posted (onerror ws w) = posted w.
Proof.
  unfold onerror. cbn zeta.
  destruct (updateIcon_frame "error"
    (with_nativeWebSocket None
       (emit (console_error "WebSocket connection error.") w)))
    as (H1 & H2 & H3 & H4 & H5).
  destruct (emit_frame (console_error "WebSocket connection error.") w
              eq_refl eq_refl) as (H6 & H7).
  split; [etransitivity; [|exact H1]; reflexivity|].
  split; [etransitivity; [|exact H2]; reflexivity|].
  split; [etransitivity; [|exact H3]; reflexivity|].
  split.
  - etransitivity; [|exact H6]. etransitivity; [|exact H4]. reflexivity.
  - etransitivity; [|exact H7]. etransitivity; [|exact H5]. reflexivity.
Qed.

Lemma onclose_frame w :
  nativeWebSocket (onclose w) = None /\
  session (onclose w) = <[STORAGE_KEYS.isRecording := JBool false]> (session w) /\
  local (onclose w) = local w /\ sends (onclose w) = sends w /\
  wire (onclose w) = wire w /\ posted (onclose w) = posted w.
Proof.
  unfold onclose. cbn zeta.
  set (x := updateIcon "error" (with_nativeWebSocket None
               (emit (console_log "WebSocket connection closed.") w))).
  destruct (session_set_frame [(STORAGE_KEYS.isRecording, JBool false)] x)
    as (Hn & _ & _ & _ & _ & Hl & _ & _ & Hs & _ & He).
  destruct (updateIcon_frame "error"
    (with_nativeWebSocket None
       (emit (console_log "WebSocket connection closed.") w)))
    as (H1 & H2 & H3 & H4 & H5).
  fold x in H1, H2, H3, H4, H5.
  destruct (emit_frame (console_log "WebSocket connection closed.") w
              eq_refl eq_refl) as (H6 & H7).
  destruct (output_only_updateIcon "error" (with_nativeWebSocket None
               (emit (console_log "WebSocket connection closed.") w))) as [es Hx].
  fold x in Hx.
  split; [rewrite Hn, Hx; reflexivity|].
  split; [rewrite session_set_flag, H1; reflexivity|].
  split; [rewrite Hl, H2; reflexivity|].
  split; [rewrite Hs, H3; reflexivity|].
  split.
  - rewrite (wire_same x _ He), H4. exact H6.
  - rewrite (posted_same x _ He), H5. exact H7.
Qed.

End SocketEvents.

(** X16: when the socket of the attempt opens it becomes the shared
    connection: the marker of the attempt is cleared and the next
    [getWebSocket()] returns this socket at once.  Opening changes
    neither storage nor the queue of commands, and posts and sends
    nothing. *)
Theorem open_socket_becomes_the_connection p w w' :
  step (SocketOpen p) w = Some w' ->
  nativeWebSocket w' = Some p /\ connectionPromise w' = None /\
  getWebSocket w' = (Immediate p, w') /\
  session w' = session w /\ local w' = local w /\ sends w' = sends w /\
  wire w' = wire w /\ posted w' = posted w.
Proof.
  simpl. destruct (socket_state w p) as [r|] eqn:Hst; [|discriminate].
  destruct r; try discriminate. intros [= <-].
  apply socket_state_lookup in Hst as (s & Hl & Hr).
  destruct (onopen_connection p (alter_socket (with_readyState OPEN) p w)) as (Hs & Hc & Hn).
  destruct (onopen_frame p (alter_socket (with_readyState OPEN) p w))
    as (Hse & Hlo & Hsn & Hw & Hp).
  split; [exact Hn|]. split; [exact Hc|].
  split; [|rewrite Hse, Hlo, Hsn, Hw, Hp; repeat split].
  apply getWebSocket_open. unfold open_connection, is_open. rewrite Hn, Hs.
  unfold alter_socket. simpl. rewrite !list_lookup_alter_eq, Hl. simpl.
  unfold settle. simpl. destruct (promise s); reflexivity.
Qed.

Lemma open_socket_becomes_the_connection_witness :
  let w := after [PortConnect "popup-connection"; AttachStep; AttachStep] in
  exists w', step (SocketOpen 0) w = Some w' /\ getWebSocket w' = (Immediate 0, w').
Proof.
  cbn zeta. eexists. split; [vm_compute; reflexivity|].
  apply (open_socket_becomes_the_connection 0
           (after [PortConnect "popup-connection"; AttachStep; AttachStep])).
  vm_compute. reflexivity.
Defined.

(** X17: when the attempt fails, both the shared connection and the
    marker of the attempt are cleared, so the next [getWebSocket()]
    starts a new attempt on a new socket.  The failure itself leaves
    the recording flag and all storage alone and posts nothing: the
    callers waiting on the attempt report it. *)
Theorem failed_attempt_can_be_retried p w w' :
  step (SocketError p) w = Some w' ->
  nativeWebSocket w' = None /\ connectionPromise w' = None /\
  length (sockets w') = length (sockets w) /\
  (getWebSocket w').1 = Awaiting (length (sockets w)) /\
  sockets (getWebSocket w').2 = sockets w' ++ [new_socket] /\
  session w' = session w /\ local w' = local w /\ sends w' = sends w /\
  wire w' = wire w /\ posted w' = posted w.
Proof.
  simpl. destruct (socket_state w p) as [r|] eqn:Hst; [|discriminate].
  destruct r; try discriminate. intros [= <-].
  destruct (onerror_connection p (alter_socket (with_readyState CLOSED) p w))
    as (Hs & Hc & Hn).
  destruct (onerror_frame p (alter_socket (with_readyState CLOSED) p w))
    as (Hse & Hlo & Hsn & Hw & Hp).
  assert (Hlen : length (sockets (onerror p (alter_socket (with_readyState CLOSED) p w)))
                 = length (sockets w)).
  { rewrite Hs. unfold alter_socket. simpl. rewrite !length_alter. reflexivity. }
  assert (Ho : open_connection (onerror p (alter_socket (with_readyState CLOSED) p w)) = None)
    by (unfold open_connection; rewrite Hn; reflexivity).
  destruct (getWebSocket_fresh _ Ho Hc) as (Hh & Hso & _).
  cbn zeta in Hh, Hso. rewrite Hlen in Hh.
  split; [exact Hn|]. split; [exact Hc|]. split; [exact Hlen|].
  split; [exact Hh|]. split; [exact Hso|].
  rewrite Hse, Hlo, Hsn, Hw, Hp. repeat split.
Qed.

Lemma failed_attempt_can_be_retried_witness :
  let w := after [PortConnect "popup-connection"; AttachStep; AttachStep] in
  exists w', step (SocketError 0) w = Some w' /\ (getWebSocket w').1 = Awaiting 1.
Proof.
  cbn zeta. eexists. split; [vm_compute; reflexivity|].
  apply (failed_attempt_can_be_retried 0
           (after [PortConnect "popup-connection"; AttachStep; AttachStep])).
  vm_compute. reflexivity.
Defined.



(** ** The way of a command to the native application *)

Section Relay.

Lemma resume_sent ws c w :
  run_handler (sendMessageToNative_resume (Normal ws) false c) w = emit (ws_send ws c) w.
Proof.
  destruct (sendMessageToNative_resume_cases (Normal ws) false c w)
    as [(ws' & Hs & _ & ->) | [[[e He] | Ht] _]].
  - injection Hs as ->. reflexivity.
  - discriminate.
  - discriminate.
Qed.


Lemma send_failed_frame w :
  session (send_failed w) !! STORAGE_KEYS.isRecording = Some (JBool false) /\
  local (send_failed w) = local w /\ sends (send_failed w) = sends w /\
  wire (send_failed w) = wire w /\
  posted (send_failed w)
  = posted w ++ match observer w with
                | Some port => [(port, connectivity_error)]
                | None => []
                end.
Proof.
  unfold send_failed.
  set (x := emit (console_error "Failed to send message to native app") w).
  destruct (session_set_frame [(STORAGE_KEYS.isRecording, JBool false)]
              (run_handler (broadcastToUI connectivity_error) x))
    as (_ & _ & _ & _ & _ & Hl & _ & _ & Hs & _ & He).
  destruct (broadcastToUI_posted connectivity_error x) as (Hp & Hw).
  destruct (output_only_broadcastToUI connectivity_error x) as [es Hx].
  destruct (emit_frame (console_error "Failed to send message to native app") w
              eq_refl eq_refl) as (Hw0 & Hp0).
  fold x in Hw0, Hp0.
  split; [rewrite session_set_flag; apply lookup_insert_eq|].
  split; [rewrite Hl, Hx; reflexivity|].
  split; [rewrite Hs, Hx; reflexivity|].
  split.
  - rewrite (wire_same _ _ He). unfold run_handler. rewrite Hw. exact Hw0.
  - rewrite (posted_same _ _ He). unfold run_handler. rewrite Hp, Hp0.
    rewrite (observer_same w x); reflexivity.
Qed.

Lemma queued_at_end (l : list (Handle * Command)) x : (l ++ [x]) !! length l = Some x.
Proof. apply list_lookup_middle. reflexivity. Qed.

Lemma delete_at_end (l : list (Handle * Command)) x : delete (length l) (l ++ [x]) = l.
Proof. rewrite delete_middle. apply app_nil_r. Qed.


End Relay.

(** X19: a command of the popup on an open connection.  The handler
    queues the command behind [getWebSocket()], which returns the open
    socket at once; when the function resumes and the transmit does not
    throw, exactly this command is written to exactly this socket.
    Nothing is posted to the popup, no storage is written and the
    connection state stays as it was. *)
Theorem command_is_sent_on_open_connection fields c ws port w :
  outbound_command fields = Some c ->
  open_connection w = Some ws ->
  popup_port w port = true ->
  exists w1 w2,
    step (PortMessage port (JObj fields)) w = Some w1 /\
    step (SendResume (length (sends w)) false) w1 = Some w2 /\
    wire w2 = wire w ++ [(ws, c)] /\ sends w2 = sends w /\
    posted w2 = posted w /\ session w2 = session w /\ local w2 = local w /\
    same_connection w w2.
Proof.
  intros Hc Ho Hp.
  exists (with_sends (sends w ++ [(Immediate ws, c)]) w).
  exists (emit (ws_send ws c) (with_sends (sends w) w)).
  split.
  { simpl. rewrite Hp. f_equal. rewrite (handleUICommand_outbound fields c w Hc).
    unfold sendMessageToNative. rewrite (getWebSocket_open w ws Ho). reflexivity. }
  split.
  { cbn [step sends with_sends]. rewrite queued_at_end. cbn [await].
    rewrite resume_sent, delete_at_end. reflexivity. }
  split; [unfold wire, emit; simpl; rewrite omap_app; reflexivity|].
  split; [reflexivity|].
  split; [unfold posted, emit; simpl; rewrite omap_app; simpl; apply app_nil_r|].
  repeat split.
Qed.

Lemma command_is_sent_on_open_connection_witness :
  let w := after [PortConnect "popup-connection"; AttachStep; AttachStep; SocketOpen 0;
                  SendResume 0 false; SendResume 0 false] in
  let c := {| action := "stop_capture"; data := None |} in
  exists w1 w2,
    step (PortMessage 0 (JObj [("type", JStr "STOP_CAPTURE")])) w = Some w1 /\
    step (SendResume 0 false) w1 = Some w2 /\
    wire w2 = [(0, get_status_command); (0, get_devices_command); (0, c)].
Proof.
  cbn zeta.
  destruct (command_is_sent_on_open_connection [("type", JStr "STOP_CAPTURE")]
              {| action := "stop_capture"; data := None |} 0 0
              (after [PortConnect "popup-connection"; AttachStep; AttachStep; SocketOpen 0;
                      SendResume 0 false; SendResume 0 false]))
    as (w1 & w2 & H1 & H2 & Hw & _);
    [reflexivity | vm_compute; reflexivity | vm_compute; reflexivity |].
  exists w1, w2. split; [exact H1|]. split; [exact H2|]. exact Hw.
Defined.

Section Waiting.

Variables (c : Command) (w : World).
Hypothesis closed : open_connection w = None.
Hypothesis idle : connectionPromise w = None.

Let p := length (sockets w).
Let w1 := sendMessageToNative c w.







End Waiting.

Section Resumed.









End Resumed.



(** ** The queue of commands *)

Section Queue.

Lemma queue_invariant_frame w w' :
  Forall (fun s => url s = NATIVE_WS_URL) (sockets w') ->
  length (sockets w) <= length (sockets w') ->
  sends w' = sends w -> wire w' = wire w ->
  queue_invariant w -> queue_invariant w'.
Proof.
  intros Hu Hl Hs Hw (_ & H2 & H3). split; [exact Hu|]. rewrite Hs, Hw. split.
  - eapply Forall_impl; [exact H2|]. intros q [Ha Hb]. split; [lia | exact Hb].
  - eapply Forall_impl; [exact H3|]. intros q [Ha Hb]. split; [lia | exact Hb].
Qed.

Lemma queue_invariant_same w w' :
  sockets w' = sockets w -> sends w' = sends w -> wire w' = wire w ->
  queue_invariant w -> queue_invariant w'.
Proof.
  intros Hso Hs Hw Hinv.
  apply (queue_invariant_frame w); [rewrite Hso; apply Hinv | rewrite Hso; lia | | |];
    assumption.
Qed.

Lemma queue_invariant_alter f ws w w' :
  (forall s, url (f s) = url s) ->
  sockets w' = alter f ws (sockets w) -> sends w' = sends w -> wire w' = wire w ->
  queue_invariant w -> queue_invariant w'.
Proof.
  intros Hf Hso Hs Hw Hinv.
  apply (queue_invariant_frame w); [|rewrite Hso, length_alter; lia | | |]; try assumption.
  rewrite Hso. apply Forall_alter; [apply Hinv|]. intros s _ Hu. rewrite Hf. exact Hu.
Qed.

Lemma queue_invariant_initial : queue_invariant initial.
Proof. repeat split; constructor. Qed.

Lemma settle_url p s : url (settle p s) = url s.
Proof. unfold settle. destruct (promise s); reflexivity. Qed.

Lemma getWebSocket_queue w :
  connection_invariant w -> queue_invariant w ->
  queue_invariant (getWebSocket w).2 /\
  handle_socket (getWebSocket w).1 < length (sockets (getWebSocket w).2).
Proof.
  intros Hc Hq.
  destruct (getWebSocket_output w) as (Hw & _ & Hs & _).
  destruct (open_connection w) as [ws|] eqn:Ho.
  { rewrite (getWebSocket_open w ws Ho). split; [exact Hq|]. cbn [fst snd handle_socket].
    apply open_connection_Some in Ho as (_ & Hst).
    apply socket_state_lookup in Hst as (s & Hl & _). eapply lookup_lt_Some, Hl. }
  destruct (connectionPromise w) as [p|] eqn:Hp.
  { rewrite (getWebSocket_pending w p Ho Hp) in *. cbn [fst snd handle_socket] in *. split.
    - revert Hq. apply queue_invariant_same; [reflexivity | exact Hs | exact Hw].
    - apply (proj1 Hc) in Hp. apply socket_state_lookup in Hp as (s & Hl & _).
      eapply lookup_lt_Some, Hl. }
  destruct (getWebSocket_fresh w Ho Hp) as (Hh & Hso & _). cbn zeta in Hh, Hso.
  split.
  - apply (queue_invariant_frame w); [|rewrite Hso, length_app; lia | | |]; try assumption.
    rewrite Hso. apply Forall_app. split; [apply Hq|].
    constructor; [reflexivity | constructor].
  - rewrite Hh, Hso, length_app. simpl. lia.
Qed.

Lemma sendMessageToNative_queue c w :
  known_command c -> connection_invariant w -> queue_invariant w ->
  queue_invariant (sendMessageToNative c w).
Proof.
  intros Hk Hc Hq. destruct (getWebSocket_queue w Hc Hq) as ((H1 & H2 & H3) & Hh).
  unfold sendMessageToNative. cbn zeta. split; [exact H1|]. split; [|exact H3].
  cbn [sends with_sends]. apply Forall_app. split; [exact H2|].
  constructor; [split; [exact Hh | exact Hk] | constructor].
Qed.

Lemma await_socket h w ws : await h w = Some (Normal ws) -> ws = handle_socket h.
Proof.
  destruct h as [ws'|p]; simpl.
  - intros [= ->]. reflexivity.
  - destruct (sockets w !! p) as [s|]; [|discriminate].
    destruct (promise s); [discriminate | intros [= ->]; reflexivity | discriminate].
Qed.

Lemma send_failed_queue w : queue_invariant w -> queue_invariant (send_failed w).
Proof.
  destruct (send_failed_frame w) as (_ & _ & Hs & Hw & _).
  destruct (send_failed_same_connection w) as (_ & _ & Hso).
  apply queue_invariant_same; assumption.
Qed.

Lemma resume_queue i throws h c settled w :
  sends w !! i = Some (h, c) -> await h w = Some settled -> queue_invariant w ->
  queue_invariant (run_handler (sendMessageToNative_resume settled throws c)
                     (with_sends (delete i (sends w)) w)).
Proof.
  intros Hi Ha (H1 & H2 & H3).
  pose proof (Forall_lookup_1 _ _ _ _ H2 Hi) as [Hb Hk]. cbn [fst snd] in Hb, Hk.
  assert (Hx : queue_invariant (with_sends (delete i (sends w)) w)).
  { split; [exact H1|]. split; [apply Forall_delete, H2 | exact H3]. }
  destruct (sendMessageToNative_resume_cases settled throws c
              (with_sends (delete i (sends w)) w)) as [(ws & -> & -> & ->) | [_ ->]].
  - apply await_socket in Ha. subst ws.
    destruct Hx as (X1 & X2 & X3).
    split; [exact X1|]. split; [exact X2|].
    rewrite wire_emit. apply Forall_app. split; [exact X3|].
    constructor; [split; [exact Hb | exact Hk] | constructor].
  - apply send_failed_queue, Hx.
Qed.

Lemma handleUICommand_commands message w :
  let w' := run_handler (handleUICommand message) w in
  w' = w \/
  (exists c, known_command c /\ w' = sendMessageToNative c w) \/
  w' = run_handler (broadcastToUI cleared)
         (local_set [(STORAGE_KEYS.transcript, JStr ""); (STORAGE_KEYS.summary, JStr "")] w).
Proof.
  cbn zeta. destruct message as [| | | | |fields];
    try (left; apply handleUICommand_ignored; intros fields [=]).
  destruct (outbound_command fields) as [c|] eqn:Hc.
  - right. left. exists c. split; [eapply outbound_command_known, Hc|].
    apply handleUICommand_outbound, Hc.
  - destruct (decide (assoc "type" fields = Some (JStr "CLEAR_TRANSCRIPT"))) as [He|He].
    + right. right. apply handleUICommand_clear, He.
    + left. apply handleUICommand_ignored. intros fields' [= <-]. auto.
Qed.

Lemma emit_queue e w :
  sent_frame e = None -> queue_invariant w -> queue_invariant (emit e w).
Proof.
  intros He. apply queue_invariant_same; [reflexivity | reflexivity |].
  rewrite wire_emit, He. apply app_nil_r.
Qed.

Lemma reset_state_queue w : queue_invariant w -> queue_invariant (reset_state w).
Proof.
  destruct (reset_state_same_connection w) as (_ & _ & Hso).
  destruct (reset_state_storage w) as (_ & _ & _ & _ & Hs).
  apply queue_invariant_same; [exact Hso | exact Hs|].
  unfold reset_state. rewrite (quiet_wire _ _ (quiet_updateBadge false)).
  etransitivity; [apply wire_same, local_set_effects|].
  apply wire_same, session_set_effects.
Qed.

Lemma step_queue_invariant e w w' :
  step e w = Some w' -> connection_invariant w -> queue_invariant w -> queue_invariant w'.
Proof.
  destruct e; simpl; intros H Hc Hq.
  - (* PortConnect *)
    injection H as <-. revert Hq. unfold onConnect. cbn zeta.
    destruct (String.eqb port_name "popup-connection").
    + intros Hq. apply (emit_queue (console_log "Popup connected.")) in Hq; [|reflexivity].
      exact Hq.
    + apply queue_invariant_same; reflexivity.
  - (* PortDisconnect *)
    destruct (ports w !! port) as [p|]; [|discriminate].
    destruct (connected p); [|discriminate]. injection H as <-.
    destruct (String.eqb (name p) "popup-connection").
    + unfold onDisconnect.
      apply (emit_queue (console_log "Popup disconnected.")) in Hq; [|reflexivity].
      exact Hq.
    + exact Hq.
  - (* PortMessage *)
    destruct (popup_port w port); [|discriminate]. injection H as <-.
    destruct (handleUICommand_commands message w) as [-> | [(c & Hk & ->) | ->]].
    + exact Hq.
    + apply sendMessageToNative_queue; assumption.
    + revert Hq.
      destruct (broadcastToUI_posted cleared
                  (local_set [(STORAGE_KEYS.transcript, JStr "");
                              (STORAGE_KEYS.summary, JStr "")] w)) as (_ & Hw).
      destruct (output_only_broadcastToUI cleared
                  (local_set [(STORAGE_KEYS.transcript, JStr "");
                              (STORAGE_KEYS.summary, JStr "")] w)) as [es He].
      destruct (local_set_frame [(STORAGE_KEYS.transcript, JStr "");
                                 (STORAGE_KEYS.summary, JStr "")] w)
        as (_ & _ & _ & Hso & _ & _ & _ & _ & Hs & _ & Hef).
      apply queue_invariant_same.
      * rewrite He. exact Hso.
      * rewrite He. exact Hs.
      * unfold run_handler. rewrite Hw. apply wire_same, Hef.
  - (* AttachStep *)
    destruct (attaches w) as [|task rest]; [discriminate|]. injection H as <-.
    assert (Hq' : queue_invariant (with_attaches rest w)) by exact Hq.
    assert (Hc' : connection_invariant (with_attaches rest w))
      by (revert Hc; apply connection_invariant_same; repeat split).
    destruct (attach_resume_cases task (with_attaches rest w))
      as [[q ->] | [-> | (port & m & ->)]].
    + exact Hq.
    + exact Hq.
    + apply sendMessageToNative_queue;
        [unfold known_command, command_actions; simpl; auto 10 | |].
      * apply sendMessageToNative_invariant.
        revert Hc'. apply connection_invariant_same. repeat split.
      * apply sendMessageToNative_queue;
          [unfold known_command, command_actions; simpl; auto 10 | |].
        -- revert Hc'. apply connection_invariant_same. repeat split.
        -- apply emit_queue; [reflexivity | exact Hq'].
  - (* SocketOpen *)
    destruct (socket_state w ws) as [[]|]; try discriminate. injection H as <-.
    destruct (onopen_connection ws (alter_socket (with_readyState OPEN) ws w)) as (Hs & _).
    destruct (onopen_frame ws (alter_socket (with_readyState OPEN) ws w))
      as (_ & _ & Hse & Hw & _).
    apply (queue_invariant_alter (settle Fulfilled) ws
             (alter_socket (with_readyState OPEN) ws w));
      [apply settle_url | exact Hs | exact Hse | exact Hw |].
    revert Hq. apply (queue_invariant_alter (with_readyState OPEN) ws); reflexivity.
  - (* SocketError *)
    destruct (socket_state w ws) as [[]|]; try discriminate. injection H as <-.
    destruct (onerror_connection ws (alter_socket (with_readyState CLOSED) ws w)) as (Hs & _).
    destruct (onerror_frame ws (alter_socket (with_readyState CLOSED) ws w))
      as (_ & _ & Hse & Hw & _).
    apply (queue_invariant_alter (settle Rejected) ws
             (alter_socket (with_readyState CLOSED) ws w));
      [apply settle_url | exact Hs | exact Hse | exact Hw |].
    revert Hq. apply (queue_invariant_alter (with_readyState CLOSED) ws); reflexivity.
  - (* SocketClosing *)
    destruct (socket_state w ws) as [[]|]; try discriminate. injection H as <-.
    revert Hq. apply (queue_invariant_alter (with_readyState CLOSING) ws); reflexivity.
  - (* SocketClose *)
    assert (Hw' : w' = onclose (alter_socket (with_readyState CLOSED) ws w))
      by (destruct (socket_state w ws) as [[]|]; congruence).
    subst w'. clear H.
    destruct (onclose_connection (alter_socket (with_readyState CLOSED) ws w)) as (Hs & _).
    destruct (onclose_frame (alter_socket (with_readyState CLOSED) ws w))
      as (_ & _ & _ & Hse & Hw & _).
    apply (queue_invariant_same (alter_socket (with_readyState CLOSED) ws w));
      [exact Hs | exact Hse | exact Hw |].
    revert Hq. apply (queue_invariant_alter (with_readyState CLOSED) ws); reflexivity.
  - (* SocketLost *)
    assert (Hw' : w' = onclose (onerror ws (alter_socket (with_readyState CLOSED) ws w)))
      by (destruct (socket_state w ws) as [[]|]; congruence).
    subst w'. clear H.
    destruct (onclose_connection (onerror ws (alter_socket (with_readyState CLOSED) ws w)))
      as (Hs & _).
    destruct (onclose_frame (onerror ws (alter_socket (with_readyState CLOSED) ws w)))
      as (_ & _ & _ & Hse & Hw & _).
    apply (queue_invariant_same (onerror ws (alter_socket (with_readyState CLOSED) ws w)));
      [exact Hs | exact Hse | exact Hw |].
    destruct (onerror_connection ws (alter_socket (with_readyState CLOSED) ws w))
      as (Hs1 & _).
    destruct (onerror_frame ws (alter_socket (with_readyState CLOSED) ws w))
      as (_ & _ & Hse1 & Hw1 & _).
    apply (queue_invariant_alter (settle Rejected) ws
             (alter_socket (with_readyState CLOSED) ws w));
      [apply settle_url | exact Hs1 | exact Hse1 | exact Hw1 |].
    revert Hq. apply (queue_invariant_alter (with_readyState CLOSED) ws); reflexivity.
  - (* SocketMessage *)
    assert (Hw' : w' = run_handler (onmessage event now) w)
      by (destruct (socket_state w ws) as [[]|]; congruence).
    subst w'. clear H.
    destruct (onmessage_output event now w) as (_ & Hw & Hs & _).
    destruct (onmessage_same_connection event now w) as (_ & _ & Hso).
    revert Hq. apply queue_invariant_same; assumption.
  - (* TranscriptRead *)
    destruct (transcriptUpdates w) as [|[cur text] rest]; [discriminate|].
    injection H as <-. rewrite updateTranscriptStorage_resume_cases.
    destruct (convertible text && convertible cur); [|exact Hq].
    match goal with |- context [local_set ?i ?x] =>
      destruct (local_set_frame i x)
        as (_ & _ & _ & Hso & _ & _ & _ & _ & Hs & _ & He) end.
    revert Hq. apply queue_invariant_same; [exact Hso | exact Hs | apply wire_same, He].
  - (* SendResume *)
    destruct (sends w !! i) as [[h message]|] eqn:Hi; [|discriminate].
    destruct (await h w) as [settled|] eqn:Ha; [|discriminate]. injection H as <-.
    eapply resume_queue; eassumption.
  - (* StorageChanged *)
    destruct (changeEvents w) as [|ev rest]; [discriminate|]. injection H as <-.
    destruct (onChanged_frame ev (with_changeEvents rest w)) as (_ & _ & _ & Hs & Hw & _).
    destruct (onChanged_same_connection ev (with_changeEvents rest w)) as (_ & _ & Hso).
    revert Hq. apply queue_invariant_same; assumption.
  - (* Alarm *)
    destruct (alarms w !! alarm_name); [|discriminate]. injection H as <-.
    unfold onAlarm. destruct (String.eqb alarm_name ALARM_HEALTH_CHECK); [|exact Hq].
    apply sendMessageToNative_queue;
      [unfold known_command, command_actions; simpl; auto 10 | |].
    + revert Hc. apply connection_invariant_same. repeat split.
    + apply emit_queue; [reflexivity | exact Hq].
  - (* Startup *)
    injection H as <-. unfold onStartup. apply reset_state_queue, emit_queue;
      [reflexivity | exact Hq].
  - (* Installed *)
    injection H as <-. unfold onInstalled. apply reset_state_queue, emit_queue;
      [reflexivity | exact Hq].
Qed.

Lemma reachable_queue_invariant w : reachable w -> queue_invariant w.
Proof.
  induction 1 as [|e w w' Hr IH H]; [apply queue_invariant_initial|].
  eapply step_queue_invariant; [exact H | | exact IH].
  apply reachable_connection_invariant, Hr.
Qed.

Lemma resume_blocked i throws h c w :
  sends w !! i = Some (h, c) ->
  step (SendResume i throws) w = None <-> await h w = None.
Proof.
  intros Hi. cbn [step]. rewrite Hi. destruct (await h w); split; congruence.
Qed.

End Queue.

(** X21: in every state the script can reach, every socket it made
    was made for the address of the native application, and every
    command that waits in [sendMessageToNative] and every frame written
    to a socket names a socket that exists and carries one of the five
    actions [start_capture], [stop_capture], [get_status], [get_devices]
    and [ping].  Nothing a popup or the native application sends can
    put another action on the wire. *)
Theorem only_known_commands_reach_the_wire w :
  reachable w ->
  Forall (fun s => url s = "ws://localhost:8766") (sockets w) /\
  Forall (fun q => handle_socket q.1 < length (sockets w) /\
                   In (action q.2) ["start_capture"; "stop_capture"; "get_status";
                                    "get_devices"; "ping"]) (sends w) /\
  Forall (fun f => f.1 < length (sockets w) /\
                   In (action f.2) ["start_capture"; "stop_capture"; "get_status";
                                    "get_devices"; "ping"]) (wire w).
Proof.
  intros Hr.
  assert (H : connection_invariant w /\ queue_invariant w).
  { induction Hr as [|e w w' _ [IHc IHq] H].
    - split; [apply connection_invariant_initial | apply queue_invariant_initial].
    - split; [eapply step_connection_invariant | eapply step_queue_invariant];
        eassumption. }
  exact (proj2 H).
Qed.

Lemma only_known_commands_reach_the_wire_witness :
  let w := after [PortConnect "popup-connection"; AttachStep; AttachStep; SocketOpen 0;
                  SendResume 0 false] in
  wire w = [(0, get_status_command)] /\
  Forall (fun f => f.1 < length (sockets w) /\
                   In (action f.2) ["start_capture"; "stop_capture"; "get_status";
                                    "get_devices"; "ping"]) (wire w).
Proof.
  cbn zeta. split; [vm_compute; reflexivity|].
  apply (only_known_commands_reach_the_wire
           (after [PortConnect "popup-connection"; AttachStep; AttachStep; SocketOpen 0;
                   SendResume 0 false])).
  apply reachable_after.
Defined.

(** X22: a command that waits in [sendMessageToNative] can resume in
    every reachable state but one: when the connection attempt it waits
    on is still in flight, its socket still CONNECTING.  The attempt the
    marker [connectionPromise] names is always in flight, but it need
    not be the only one: after a connection was lost while a later
    attempt was opening, the marker is cleared and the next command
    starts a further attempt, and commands wait on both.  A command
    queued on an open socket, or on an attempt that has opened or
    failed, is never held back, and whether its transmit will throw
    plays no part. *)
Theorem queued_command_waits_only_for_the_attempt w i h c throws :
  reachable w -> sends w !! i = Some (h, c) ->
  (step (SendResume i throws) w = None <-> exists p, h = Awaiting p /\ connecting w p) /\
  (forall p, connectionPromise w = Some p -> connecting w p).
Proof.
  intros Hr Hi.
  pose proof (reachable_connection_invariant w Hr) as [C1 C2].
  destruct (reachable_queue_invariant w Hr) as (_ & Q2 & _).
  pose proof (Forall_lookup_1 _ _ _ _ Q2 Hi) as [Hb _]. cbn [fst] in Hb.
  split; [|exact C1].
  rewrite (resume_blocked i throws h c w Hi).
  destruct h as [ws|p]; cbn [await handle_socket] in *.
  - split; [discriminate | intros (p & [=] & _)].
  - destruct (lookup_lt_is_Some_2 _ _ Hb) as [s Hs]. rewrite Hs.
    specialize (C2 p s Hs).
    unfold connecting, socket_state. 
    split.
    + intros Hp. exists p. split; [reflexivity|]. rewrite Hs.
      cbn [fmap option_fmap option_map].
      destruct (promise s) eqn:Hps; try discriminate.
      f_equal. apply C2. reflexivity.
    + intros (p' & [= <-] & Hm). rewrite Hs in Hm.
      cbn [fmap option_fmap option_map] in Hm. injection Hm as Hm.
      apply C2 in Hm. rewrite Hm. reflexivity.
Qed.

Lemma queued_command_waits_only_for_the_attempt_witness :
  let w := after [PortConnect "popup-connection"; AttachStep; AttachStep; SocketOpen 0;
                  SendResume 0 false; SendResume 0 false; SocketClosing 0;
                  PortMessage 0 (JObj [("type", JStr "GET_STATUS")]);
                  SocketLost 0;
                  PortMessage 0 (JObj [("type", JStr "GET_DEVICES")])] in
  sends w !! 0 = Some (Awaiting 1, get_status_command) /\
  connectionPromise w = Some 2 /\ connecting w 2 /\
  step (SendResume 0 false) w = None.
Proof.
  cbn zeta.
  split; [vm_compute; reflexivity|]. split; [vm_compute; reflexivity|].
  destruct (queued_command_waits_only_for_the_attempt
    (after [PortConnect "popup-connection"; AttachStep; AttachStep; SocketOpen 0;
            SendResume 0 false; SendResume 0 false; SocketClosing 0;
            PortMessage 0 (JObj [("type", JStr "GET_STATUS")]);
            SocketLost 0;
            PortMessage 0 (JObj [("type", JStr "GET_DEVICES")])])
    0 (Awaiting 1) get_status_command false) as [H1 H2].
  - apply reachable_after.
  - vm_compute. reflexivity.
  - split; [apply H2; vm_compute; reflexivity|].
    apply H1. exists 1. split; [reflexivity | vm_compute; reflexivity].
Defined.

(** ** Writers of local storage *)

Section LocalStorage.

Lemma onmessage_local event now w :
  let w' := run_handler (onmessage event now) w in
  local w' = local w \/
  exists fields,
    event = Some (JObj fields) /\ find (matches fields) rules = Some SummaryUpdate /\
    local w'
    = <[STORAGE_KEYS.summary := JStr (summary_block now (assoc "text" fields))]> (local w).
Proof.
  cbn zeta. destruct (onmessage_cases event now w) as [[es ->] | (fields & -> & ->)].
  - left. reflexivity.
  - unfold route_first_match.
    destruct (find (matches fields) rules) as [[]|] eqn:Hf; cbn [completes].
    + left. cbn [fire].
      match goal with |- context [forward fields ?x] =>
        destruct (forward_frame fields x) as (_ & -> & _) end.
      match goal with |- context [session_set ?i ?x] =>
        destruct (session_set_frame i x) as (_ & _ & _ & _ & _ & -> & _) end.
      reflexivity.
    + left. cbn [fire].
      match goal with |- context [forward fields ?x] =>
        destruct (forward_frame fields x) as (_ & -> & _) end.
      match goal with |- context [session_set ?i ?x] =>
        destruct (session_set_frame i x) as (_ & _ & _ & _ & _ & -> & _) end.
      reflexivity.
    + left.
      match goal with |- context [forward fields ?x] =>
        destruct (forward_frame fields x) as (_ & -> & _) end.
      reflexivity.
    + destruct (convertible (assoc "text" fields)).
      * right. exists fields. split; [reflexivity|]. split; [exact Hf|].
        match goal with |- context [forward fields ?x] =>
          destruct (forward_frame fields x) as (_ & -> & _) end.
        cbn [fire]. rewrite local_set_one. reflexivity.
      * left. reflexivity.
    + left.
      match goal with |- context [forward fields ?x] =>
        destruct (forward_frame fields x) as (_ & -> & _) end.
      reflexivity.
Qed.

Lemma handleUICommand_local message w :
  let w' := run_handler (handleUICommand message) w in
  local w' = local w \/
  exists fields,
    message = JObj fields /\ assoc "type" fields = Some (JStr "CLEAR_TRANSCRIPT").
Proof.
  cbn zeta. destruct message as [| | | | |fields];
    try (left; rewrite handleUICommand_ignored; [reflexivity | intros fields [=]]).
  destruct (outbound_command fields) as [c|] eqn:Hc.
  - left. rewrite (handleUICommand_outbound fields c w Hc).
    apply (sendMessageToNative_output c w).
  - destruct (decide (assoc "type" fields = Some (JStr "CLEAR_TRANSCRIPT"))) as [He|He].
    + right. exists fields. auto.
    + left. rewrite handleUICommand_ignored; [reflexivity|]. intros fields' [= <-]. auto.
Qed.

Lemma sendMessageToNative_local c w : local (sendMessageToNative c w) = local w.
Proof. apply (sendMessageToNative_output c w). Qed.

Lemma step_local e w w' :
  step e w = Some w' -> local w' = local w \/ writes_local e.
Proof.
  destruct e; simpl; intros H.
  - (* PortConnect *)
    injection H as <-. left. unfold onConnect.
    destruct (String.eqb port_name "popup-connection"); reflexivity.
  - (* PortDisconnect *)
    destruct (ports w !! port) as [p|]; [|discriminate].
    destruct (connected p); [|discriminate]. injection H as <-. left.
    destruct (String.eqb (name p) "popup-connection"); reflexivity.
  - (* PortMessage *)
    destruct (popup_port w port); [|discriminate]. injection H as <-.
    destruct (handleUICommand_local message w) as [Hl | (fields & -> & Hf)];
      [left; exact Hl | right; exact Hf].
  - (* AttachStep *)
    destruct (attaches w) as [|task rest]; [discriminate|]. injection H as <-. left.
    destruct (attach_resume_cases task (with_attaches rest w))
      as [[q ->] | [-> | (port & m & ->)]]; [reflexivity | reflexivity |].
    rewrite !sendMessageToNative_local. reflexivity.
  - (* SocketOpen *)
    destruct (socket_state w ws) as [[]|]; try discriminate. injection H as <-. left.
    apply (onopen_frame ws (alter_socket (with_readyState OPEN) ws w)).
  - (* SocketError *)
    destruct (socket_state w ws) as [[]|]; try discriminate. injection H as <-. left.
    apply (onerror_frame ws (alter_socket (with_readyState CLOSED) ws w)).
  - (* SocketClosing *)
    destruct (socket_state w ws) as [[]|]; try discriminate. injection H as <-. left.
    reflexivity.
  - (* SocketClose *)
    assert (Hw' : w' = onclose (alter_socket (with_readyState CLOSED) ws w))
      by (destruct (socket_state w ws) as [[]|]; congruence).
    subst w'. left.
    apply (onclose_frame (alter_socket (with_readyState CLOSED) ws w)).
  - (* SocketLost *)
    assert (Hw' : w' = onclose (onerror ws (alter_socket (with_readyState CLOSED) ws w)))
      by (destruct (socket_state w ws) as [[]|]; congruence).
    subst w'. left.
    etransitivity;
      [apply (onclose_frame (onerror ws (alter_socket (with_readyState CLOSED) ws w)))|].
    apply (onerror_frame ws (alter_socket (with_readyState CLOSED) ws w)).
  - (* SocketMessage *)
    assert (Hw' : w' = run_handler (onmessage event now) w)
      by (destruct (socket_state w ws) as [[]|]; congruence).
    subst w'.
    destruct (onmessage_local event now w) as [Hl | (fields & -> & Hf & _)];
      [left; exact Hl | right; exact Hf].
  - (* TranscriptRead *) right. exact I.
  - (* SendResume *)
    destruct (sends w !! i) as [[h message]|] eqn:Hi; [|discriminate].
    destruct (await h w) as [settled|] eqn:Ha; [|discriminate]. injection H as <-. left.
    destruct (sendMessageToNative_resume_cases settled throws message
                (with_sends (delete i (sends w)) w)) as [(ws & _ & _ & ->) | [_ ->]].
    + reflexivity.
    + apply (send_failed_frame (with_sends (delete i (sends w)) w)).
  - (* StorageChanged *)
    destruct (changeEvents w) as [|ev rest]; [discriminate|]. injection H as <-. left.
    apply (onChanged_frame ev (with_changeEvents rest w)).
  - (* Alarm *)
    destruct (alarms w !! alarm_name); [|discriminate]. injection H as <-. left.
    unfold onAlarm. destruct (String.eqb alarm_name ALARM_HEALTH_CHECK); [|reflexivity].
    rewrite sendMessageToNative_local. reflexivity.
  - (* Startup *) right. exact I.
  - (* Installed *) right. exact I.
Qed.

(** Every write to the stored transcript or summary writes a string. *)
Lemma step_stored_text e w w' :
  step e w = Some w' ->
  is_text (local w !! STORAGE_KEYS.transcript) /\ is_text (local w !! STORAGE_KEYS.summary) ->
  is_text (local w' !! STORAGE_KEYS.transcript) /\ is_text (local w' !! STORAGE_KEYS.summary).
Proof.
  intros H [It Is]. destruct (step_local e w w' H) as [-> | Hw]; [split; assumption|].
  assert (Hclear : forall x : gmap string JsVal,
    is_text (<[STORAGE_KEYS.summary := JStr ""]> (<[STORAGE_KEYS.transcript := JStr ""]> x)
               !! STORAGE_KEYS.transcript) /\
    is_text (<[STORAGE_KEYS.summary := JStr ""]> (<[STORAGE_KEYS.transcript := JStr ""]> x)
               !! STORAGE_KEYS.summary)).
  { intros x. rewrite lookup_insert_ne by discriminate. rewrite !lookup_insert_eq.
    split; exact I. }
  destruct e; try contradiction; simpl in H.
  - (* PortMessage *)
    destruct (popup_port w port); [|discriminate]. injection H as <-.
    destruct message as [| | | | |fields]; try contradiction.
    rewrite (handleUICommand_clear fields w Hw).
    match goal with |- context [run_handler (broadcastToUI cleared) ?x] =>
      destruct (output_only_broadcastToUI cleared x) as [es ->] end.
    cbn [local with_effects].
    rewrite (local_set_two STORAGE_KEYS.transcript (JStr "") STORAGE_KEYS.summary (JStr "") w).
    apply Hclear.
  - (* SocketMessage *)
    assert (Hw' : w' = run_handler (onmessage event now) w)
      by (destruct (socket_state w ws) as [[]|]; congruence).
    subst w'.
    destruct (onmessage_local event now w) as [-> | (fields & _ & _ & ->)];
      [split; assumption|].
    rewrite lookup_insert_ne by discriminate. rewrite lookup_insert_eq.
    split; [exact It | exact I].
  - (* TranscriptRead *)
    destruct (transcriptUpdates w) as [|[cur text] rest]; [discriminate|].
    injection H as <-. rewrite updateTranscriptStorage_resume_cases.
    destruct (convertible text && convertible cur); [|split; assumption].
    rewrite local_set_one. rewrite lookup_insert_eq.
    rewrite lookup_insert_ne by discriminate. split; [exact I | exact Is].
  - (* Startup *)
    injection H as <-. unfold onStartup.
    match goal with |- context [reset_state ?x] =>
      destruct (reset_state_storage x) as (_ & -> & _) end.
    apply Hclear.
  - (* Installed *)
    injection H as <-. unfold onInstalled.
    match goal with |- context [reset_state ?x] =>
      destruct (reset_state_storage x) as (_ & -> & _) end.
    apply Hclear.
Qed.

(** In every state the script can reach, the stored transcript and
    the stored summary are absent or strings. *)
Lemma stored_text w :
  reachable w ->
  is_text (local w !! STORAGE_KEYS.transcript) /\ is_text (local w !! STORAGE_KEYS.summary).
Proof.
  induction 1 as [|e w w' _ IH H]; [split; exact I|].
  exact (step_stored_text e w w' H IH).
Qed.

Lemma is_text_convertible v : is_text v -> convertible v = true.
Proof. destruct v as [[]|]; try contradiction; reflexivity. Qed.

(** So the stored transcript converts to a string in every reachable
    state. *)
Lemma stored_transcript_convertible w :
  reachable w -> convertible (local w !! STORAGE_KEYS.transcript) = true.
Proof. intros Hr. apply is_text_convertible, (stored_text w Hr). Qed.

End LocalStorage.

(** X23: local storage, which holds the transcript and the summary,
    is written by five events and by nothing else: a summary update of
    the native application (when the summary rule is the first rule of
    the router to match), the answer to the storage read of
    [updateTranscriptStorage], the [CLEAR_TRANSCRIPT] command, and the
    two resets.  The router itself never touches the stored transcript:
    a final segment only issues the read, and the write happens when
    the read is answered; that write leaves the summary alone. *)
Theorem local_storage_writers e w w' :
  step e w = Some w' ->
  (local w' <> local w -> writes_local e) /\
  (forall ws event now, e = SocketMessage ws event now ->
     local w' !! STORAGE_KEYS.transcript = local w !! STORAGE_KEYS.transcript) /\
  (forall now, e = TranscriptRead now ->
     local w' !! STORAGE_KEYS.summary = local w !! STORAGE_KEYS.summary).
Proof.
  intros H. split; [|split].
  - intros Hn. destruct (step_local e w w' H) as [Hl | Hw]; [contradiction | exact Hw].
  - intros ws event now ->. simpl in H.
    assert (Hw' : w' = run_handler (onmessage event now) w)
      by (destruct (socket_state w ws) as [[]|]; congruence).
    subst w'.
    destruct (onmessage_local event now w) as [-> | (fields & _ & _ & ->)];
      [reflexivity|].
    apply lookup_insert_ne. discriminate.
  - intros now ->. simpl in H.
    destruct (transcriptUpdates w) as [|[cur text] rest]; [discriminate|].
    injection H as <-. rewrite updateTranscriptStorage_resume_cases.
    destruct (convertible text && convertible cur); [|reflexivity].
    rewrite local_set_one. apply lookup_insert_ne. discriminate.
Qed.

Lemma local_storage_writers_witness :
  let e := SocketMessage 0 (Some (JObj [("action", JStr "summary_update");
                                        ("text", JStr "agenda")])) 3661 in
  let w := after [PortConnect "popup-connection"; AttachStep; AttachStep; SocketOpen 0] in
  exists w', step e w = Some w' /\ local w' <> local w /\ writes_local e.
Proof.
  cbn zeta. eexists. split; [vm_compute; reflexivity|].
  assert (Hn : forall a b : gmap string JsVal,
             a !! STORAGE_KEYS.summary <> b !! STORAGE_KEYS.summary -> a <> b)
    by (intros a b Hab ->; apply Hab; reflexivity).
  split; [apply Hn; vm_compute; discriminate|].
  eapply (local_storage_writers
            (SocketMessage 0 (Some (JObj [("action", JStr "summary_update");
                                          ("text", JStr "agenda")])) 3661)
            (after [PortConnect "popup-connection"; AttachStep; AttachStep; SocketOpen 0])).
  - vm_compute. reflexivity.
  - apply Hn. vm_compute. discriminate.
Defined.

(** ** The popup and the background script *)

Section PopupScript.

Lemma or_else_idempotent (a : option JsVal) (b : JsVal) :
  truthy (Some b) = false -> or_else (Some (or_else a b)) b = or_else a b.
Proof.
  intros Hb. unfold or_else at 1.
  destruct (truthy (Some (or_else a b))) eqn:H; [reflexivity|].
  unfold or_else in *. destruct a as [v|]; [|reflexivity].
  destruct (truthy (Some v)) eqn:Hv; [congruence | reflexivity].
Qed.

Lemma truthy_or_false (a : option JsVal) :
  truthy (Some (or_else a (JBool false))) = truthy a.
Proof.
  unfold or_else. destruct a as [v|]; [|reflexivity].
  destruct (truthy (Some v)) eqn:Hv; [exact Hv | reflexivity].
Qed.

Lemma ToString_or_else (a : option JsVal) (b : string) :
  ToString (or_else a (JStr b)) = if truthy a then ToString_opt a else Normal b.
Proof.
  unfold or_else. destruct a as [v|]; [|reflexivity].
  destruct (truthy (Some v)); reflexivity.
Qed.

Lemma text_of_or_else (a : option JsVal) (b : string) :
  popup.text_of (Some (or_else a (JStr b))) = ToString (or_else a (JStr b)).
Proof.
  unfold or_else. destruct a as [v|]; [|reflexivity].
  destruct (truthy (Some v)) eqn:Hv; [|reflexivity].
  destruct v; try reflexivity. discriminate.
Qed.

Lemma text_of_cases (v : option JsVal) :
  (forall text, ToString_opt v = Normal text -> exists text', popup.text_of v = Normal text') /\
  (forall e, ToString_opt v = Throw e -> popup.text_of v = Throw e).
Proof.
  destruct v as [[]|]; split; intros x H; try discriminate; eauto.
Qed.

Lemma falsy_ToString_opt (v : option JsVal) :
  truthy v = false -> exists text, ToString_opt v = Normal text.
Proof.
  intros H. apply falsy_convertible, convertible_rendered in H. eauto.
Qed.

(** [updateRecordingUI]: the class of the status line is set first; the
    buttons are set only when the assignment of the text returns. *)
Lemma updateRecordingUI_cases isRecording message p :
  let className := if truthy isRecording then "status recording" else "status ready" in
  let fallback := if truthy isRecording then "Trạng thái: Đang ghi âm..."
                  else "Trạng thái: Sẵn sàng" in
  popup.updateRecordingUI isRecording message p
  = match ToString (or_else message (JStr fallback)) with
    | Normal text =>
        (Normal tt,
         popup.with_buttons (truthy isRecording) (negb (truthy isRecording))
           (popup.with_status className text p))
    | Throw e => (Throw e, popup.with_status className (popup.statusDiv_textContent p) p)
    end.
Proof.
  cbn zeta. unfold popup.updateRecordingUI.
  destruct (truthy isRecording); unfold popup.and_then, popup.effect, popup.set_textContent;
    rewrite text_of_or_else;
    match goal with |- context [ToString ?x] => destruct (ToString x) end; reflexivity.
Qed.

Lemma showNotification_text message (t : string) p :
  popup.showNotification message (Some (JStr t)) p
  = match popup.text_of message with
    | Normal text => (Normal tt, popup.with_status ("status " +:+ t) text p)
    | Throw e =>
        (Throw e, popup.with_status ("status " +:+ t) (popup.statusDiv_textContent p) p)
    end.
Proof.
  unfold popup.showNotification, popup.and_then, popup.effect, popup.set_textContent.
  cbn [ToString]. cbn [popup.with_className popup.with_status popup.statusDiv_className].
  destruct (popup.text_of message); reflexivity.
Qed.

Lemma router_status_report fields now w :
  assoc "action" fields = Some (JStr "get_status") ->
  run_handler (onmessage (Some (JObj fields)) now) w
  = forward fields
      (session_set [(STORAGE_KEYS.isRecording,
                     JBool (strict_eq (assoc "is_recording" fields) (JBool true)))]
         (received w)).
Proof.
  intros Ha. unfold run_handler. rewrite onmessage_object. cbn [snd].
  unfold route_first_match, rules. cbn [find matches]. rewrite Ha. reflexivity.
Qed.

End PopupScript.

(** X24: a click on the start button, with the port connected.  The
    popup saves the three selections to sync storage, posts
    [START_CAPTURE] with the same three selections as its [config],
    shows the waiting notice and disables both buttons.  The background
    script, on receiving that message from its popup port, hands
    [sendMessageToNative] one [start_capture] command whose data is that
    [config], unchanged. *)
Theorem start_click_queues_capture_with_the_selection p port w :
  popup.port_open p = true -> popup_port w port = true ->
  let config := JObj [("micDevice", JStr (popup.micDeviceSelect_value p));
                      ("systemDevice", JStr (popup.systemDeviceSelect_value p));
                      ("language", JStr (popup.languageSelect_value p))] in
  let message := JObj [("type", JStr "START_CAPTURE"); ("config", config)] in
  exists p' w',
    popup.startBtn_click p = (Normal tt, p') /\
    popup.posts p' = popup.posts p ++ [message] /\
    popup.sync_sets p' = popup.sync_sets p ++ [popup.settings p] /\
    popup.startBtn_disabled p' = true /\ popup.stopBtn_disabled p' = true /\
    popup.statusDiv_className p' = "status recording" /\
    popup.statusDiv_textContent p' = "Đang khởi động..." /\
    step (PortMessage port message) w = Some w' /\
    (exists h, sends w' = sends w ++ [(h, {| action := "start_capture";
                                             data := Some config |})]) /\
    wire w' = wire w /\ posted w' = posted w.
Proof.
  intros Ho Hp. cbn zeta.
  unfold popup.startBtn_click, popup.and_then, popup.postMessage, popup.saveSettings.
  cbn [popup.port_open popup.with_sync_sets]. rewrite Ho.
  rewrite showNotification_text. cbn [popup.text_of ToString popup.effect].
  eexists. eexists. split; [reflexivity|].
  split; [reflexivity|]. split; [reflexivity|]. split; [reflexivity|].
  split; [reflexivity|]. split; [reflexivity|]. split; [reflexivity|].
  split.
  { cbn [step]. rewrite Hp. reflexivity. }
  rewrite (handleUICommand_outbound
             [("type", JStr "START_CAPTURE");
              ("config", JObj [("micDevice", JStr (popup.micDeviceSelect_value p));
                               ("systemDevice", JStr (popup.systemDeviceSelect_value p));
                               ("language", JStr (popup.languageSelect_value p))])]
             {| action := "start_capture";
                data := Some (JObj [("micDevice", JStr (popup.micDeviceSelect_value p));
                                    ("systemDevice", JStr (popup.systemDeviceSelect_value p));
                                    ("language", JStr (popup.languageSelect_value p))]) |}
             w eq_refl).
  match goal with |- context [sendMessageToNative ?c w] =>
    destruct (sendMessageToNative_output c w) as (Hs & Hw & Hpo & _) end.
  split; [eexists; exact Hs|]. split; assumption.
Qed.

Lemma start_click_queues_capture_with_the_selection_witness :
  let p := {| popup.statusDiv_className := "status ready";
              popup.statusDiv_textContent := "Trạng thái: Sẵn sàng";
              popup.startBtn_disabled := false; popup.stopBtn_disabled := true;
              popup.transcriptArea_value := ""; popup.summaryArea_value := "";
              popup.micDeviceSelect_value := "1"; popup.systemDeviceSelect_value := "4";
              popup.languageSelect_value := "vi";
              popup.port_open := true; popup.posts := []; popup.sync_sets := [];
              popup.sync_gets := []; popup.local_gets := []; popup.console := [] |} in
  exists p' w',
    popup.startBtn_click p = (Normal tt, p') /\
    step (PortMessage 0 (JObj [("type", JStr "START_CAPTURE");
                               ("config", JObj [("micDevice", JStr "1");
                                                ("systemDevice", JStr "4");
                                                ("language", JStr "vi")])]))
      (after [PortConnect "popup-connection"]) = Some w' /\
    exists h, sends w'
              = [(h, {| action := "start_capture";
                        data := Some (JObj [("micDevice", JStr "1");
                                            ("systemDevice", JStr "4");
                                            ("language", JStr "vi")]) |})].
Proof.
  cbn zeta.
  match goal with |- context [popup.startBtn_click ?p] =>
    destruct (start_click_queues_capture_with_the_selection p 0
                (after [PortConnect "popup-connection"]) eq_refl eq_refl)
      as (p' & w' & H1 & _ & _ & _ & _ & _ & _ & H2 & H3 & _) end.
  exists p', w'. split; [exact H1|]. split; [exact H2 | exact H3].
Defined.

(** X25: a status report of the native application, from the router
    to the buttons of the popup.  The router writes the recording flag
    as [is_recording === true] and forwards the report to the attached
    popup.  When the [message] of the report converts to a string (as
    it does when it is absent or a string), the popup disables the
    start button when [is_recording] is truthy and the stop button when
    it is not: exactly one of the two buttons is enabled.  When the
    [message] does not convert (an object with a [toString] member of
    its own, or an array holding one), the listener throws at the
    assignment of the status text: the class of the status line is
    already that of the new state, but the text and both buttons stay
    as they were.  When the flag becomes true [is_recording] is truthy,
    and on a boolean [is_recording] the flag and the buttons agree. *)
Theorem status_report_reaches_flag_and_buttons fields now port w p :
  assoc "action" fields = Some (JStr "get_status") ->
  observer w = Some port ->
  let v := assoc "is_recording" fields in
  let w' := run_handler (onmessage (Some (JObj fields)) now) w in
  posted w' = posted w ++ [(port, NATIVE_APP_MESSAGE (JObj fields))] /\
  session w' !! STORAGE_KEYS.isRecording = Some (JBool (strict_eq v (JBool true))) /\
  (forall text, ToString_opt (assoc "message" fields) = Normal text ->
     exists p',
       popup.port_onMessage (NATIVE_APP_MESSAGE (JObj fields)) p = (Normal tt, p') /\
       popup.startBtn_disabled p' = truthy v /\
       popup.stopBtn_disabled p' = negb (truthy v)) /\
  (forall e, ToString_opt (assoc "message" fields) = Throw e ->
     exists p',
       popup.port_onMessage (NATIVE_APP_MESSAGE (JObj fields)) p = (Throw e, p') /\
       popup.statusDiv_className p'
       = (if truthy v then "status recording" else "status ready") /\
       popup.statusDiv_textContent p' = popup.statusDiv_textContent p /\
       popup.startBtn_disabled p' = popup.startBtn_disabled p /\
       popup.stopBtn_disabled p' = popup.stopBtn_disabled p) /\
  (strict_eq v (JBool true) = true -> truthy v = true) /\
  (forall b, v = Some (JBool b) -> strict_eq v (JBool true) = b /\ truthy v = b).
Proof.
  intros Ha Hobs. cbn zeta.
  rewrite (router_status_report fields now w Ha).
  destruct (forward_posted fields
              (session_set [(STORAGE_KEYS.isRecording,
                             JBool (strict_eq (assoc "is_recording" fields) (JBool true)))]
                 (received w))) as (Hp & _).
  destruct (forward_frame fields
              (session_set [(STORAGE_KEYS.isRecording,
                             JBool (strict_eq (assoc "is_recording" fields) (JBool true)))]
                 (received w))) as (Hs & _).
  destruct (session_set_frame
              [(STORAGE_KEYS.isRecording,
                JBool (strict_eq (assoc "is_recording" fields) (JBool true)))]
              (received w)) as (_ & Hpp & _ & _ & Hq & _ & _ & _ & _ & _ & He).
  cbn zeta in Hpp, Hq, He.
  rewrite (observer_same (received w) _ Hpp Hq) in Hp.
  rewrite (posted_same (received w) _ He) in Hp.
  change (observer (received w)) with (observer w) in Hp. rewrite Hobs in Hp.
  destruct (emit_frame (console_log "Received from native app:") w eq_refl eq_refl)
    as (_ & Hr).
  change (emit (console_log "Received from native app:") w) with (received w) in Hr.
  rewrite Hr in Hp.
  split; [exact Hp|].
  split; [rewrite Hs, session_set_flag; apply lookup_insert_eq|].
  assert (Hon : popup.port_onMessage (NATIVE_APP_MESSAGE (JObj fields)) p
    = popup.and_then
        (popup.updateRecordingUI (assoc "is_recording" fields) (assoc "message" fields))
        (if strict_eq (assoc "status" fields) (JStr "error")
            || strict_eq (assoc "status" fields) (JStr "warning")
         then popup.showNotification (assoc "message" fields) (assoc "status" fields)
         else popup.effect id)
        (popup.console_log "Received message via port:" p)).
  { unfold popup.port_onMessage. cbn [get_prop]. rewrite Ha. reflexivity. }
  rewrite Hon. unfold popup.and_then. rewrite updateRecordingUI_cases. cbn zeta.
  rewrite ToString_or_else.
  split; [|split].
  - intros text Ht.
    assert (Hn : exists t, (if truthy (assoc "message" fields)
                            then ToString_opt (assoc "message" fields)
                            else Normal (if truthy (assoc "is_recording" fields)
                                         then "Trạng thái: Đang ghi âm..."
                                         else "Trạng thái: Sẵn sàng")) = Normal t)
      by (destruct (truthy (assoc "message" fields)); eauto).
    destruct Hn as [t ->].
    destruct (proj1 (text_of_cases (assoc "message" fields)) text Ht) as [text' Ht'].
    destruct (strict_eq (assoc "status" fields) (JStr "error")) eqn:E1.
    + apply strict_eq_true in E1. rewrite E1. cbn [orb].
      rewrite showNotification_text, Ht'. eexists. split; [reflexivity|].
      split; reflexivity.
    + destruct (strict_eq (assoc "status" fields) (JStr "warning")) eqn:E2.
      * apply strict_eq_true in E2. rewrite E2. cbn [orb].
        rewrite showNotification_text, Ht'. eexists. split; [reflexivity|].
        split; reflexivity.
      * cbn [orb]. eexists. split; [reflexivity|]. split; reflexivity.
  - intros e Ht.
    destruct (truthy (assoc "message" fields)) eqn:Hm.
    + rewrite Ht. eexists. split; [reflexivity|].
      split; [reflexivity|]. repeat split.
    + destruct (falsy_ToString_opt _ Hm) as [t Hn]. congruence.
  - split.
    + intros H. apply strict_eq_true in H. rewrite H. reflexivity.
    + intros b ->. destruct b; split; reflexivity.
Qed.

Lemma status_report_reaches_flag_and_buttons_witness :
  let fields := [("action", JStr "get_status"); ("is_recording", JNum "1")] in
  let broken := [("action", JStr "get_status"); ("is_recording", JBool true);
                 ("message", JObj [("toString", JNum "1")])] in
  let w := after [PortConnect "popup-connection"] in
  let p := {| popup.statusDiv_className := "status ready";
              popup.statusDiv_textContent := "Trạng thái: Sẵn sàng";
              popup.startBtn_disabled := false; popup.stopBtn_disabled := true;
              popup.transcriptArea_value := ""; popup.summaryArea_value := "";
              popup.micDeviceSelect_value := ""; popup.systemDeviceSelect_value := "";
              popup.languageSelect_value := "vi";
              popup.port_open := true; popup.posts := []; popup.sync_sets := [];
              popup.sync_gets := []; popup.local_gets := []; popup.console := [] |} in
  (exists p',
    session (run_handler (onmessage (Some (JObj fields)) 0) w) !! STORAGE_KEYS.isRecording
      = Some (JBool false) /\
    popup.port_onMessage (NATIVE_APP_MESSAGE (JObj fields)) p = (Normal tt, p') /\
    popup.startBtn_disabled p' = true /\ popup.stopBtn_disabled p' = false) /\
  (exists p',
    session (run_handler (onmessage (Some (JObj broken)) 0) w) !! STORAGE_KEYS.isRecording
      = Some (JBool true) /\
    popup.port_onMessage (NATIVE_APP_MESSAGE (JObj broken)) p = (Throw TypeError, p') /\
    popup.statusDiv_className p' = "status recording" /\
    popup.startBtn_disabled p' = false /\ popup.stopBtn_disabled p' = true).
Proof.
  cbn zeta. split.
  - match goal with |- context [popup.port_onMessage _ ?p] =>
      destruct (status_report_reaches_flag_and_buttons
                  [("action", JStr "get_status"); ("is_recording", JNum "1")] 0 0
                  (after [PortConnect "popup-connection"]) p eq_refl eq_refl)
        as (_ & H1 & H2 & _) end.
    destruct (H2 "undefined" eq_refl) as (p' & H3 & H4 & H5).
    exists p'. split; [exact H1|]. split; [exact H3|]. split; [exact H4 | exact H5].
  - match goal with |- context [popup.port_onMessage _ ?p] =>
      destruct (status_report_reaches_flag_and_buttons
                  [("action", JStr "get_status"); ("is_recording", JBool true);
                   ("message", JObj [("toString", JNum "1")])] 0 0
                  (after [PortConnect "popup-connection"]) p eq_refl eq_refl)
        as (_ & H1 & _ & H2 & _) end.
    destruct (H2 TypeError eq_refl) as (p' & H3 & H4 & _ & H5 & H6).
    exists p'. split; [exact H1|]. split; [exact H3|]. split; [exact H4|].
    split; [exact H5 | exact H6].
Defined.

Section PopupMessages.

Lemma popup_error_report fields p :
  error_report fields ->
  (forall a, assoc "action" fields = Some (JStr a) ->
     a <> "get_devices" /\ a <> "transcript" /\ a <> "summary_update") ->
  popup.port_onMessage (NATIVE_APP_MESSAGE (JObj fields)) p
  = popup.showNotification (assoc "message" fields) (Some (JStr "error"))
      (popup.console_log "Received message via port:" p).
Proof.
  intros [Hs Ha] Hn. unfold popup.port_onMessage. cbn [get_prop]. rewrite Hs.
  assert (H1 : strict_eq (assoc "action" fields) (JStr "get_status") = false)
    by (apply strict_eq_false, Ha).
  assert (H2 : strict_eq (assoc "action" fields) (JStr "get_devices") = false).
  { apply strict_eq_false. intros H. destruct (Hn _ H) as (N & _). apply N. reflexivity. }
  assert (H3 : strict_eq (assoc "action" fields) (JStr "transcript") = false).
  { apply strict_eq_false. intros H. destruct (Hn _ H) as (_ & N & _). apply N. reflexivity. }
  assert (H4 : strict_eq (assoc "action" fields) (JStr "summary_update") = false).
  { apply strict_eq_false. intros H. destruct (Hn _ H) as (_ & _ & N). apply N. reflexivity. }
  rewrite H1, H2, H3, H4. reflexivity.
Qed.

Lemma start_click_disables p0 p :
  popup.startBtn_click p0 = (Normal tt, p) ->
  popup.startBtn_disabled p = true /\ popup.stopBtn_disabled p = true.
Proof.
  unfold popup.startBtn_click, popup.and_then, popup.postMessage.
  destruct (popup.port_open (popup.saveSettings p0)); [|discriminate].
  rewrite showNotification_text. cbn [popup.text_of ToString popup.effect].
  intros [= <-]. split; reflexivity.
Qed.

(** The text a text area shows for a value read from storage. *)
Lemma ToString_stored (v : option JsVal) :
  is_text v ->
  ToString (or_else v (JStr ""))
  = Normal match v with Some (JStr s) => s | _ => "" end.
Proof.
  destruct v as [[| | |s| |]|]; try contradiction; intros _; [|reflexivity].
  destruct s; reflexivity.
Qed.

End PopupMessages.

(** X26: an error report that is not about devices, transcripts or
    summaries, such as the connectivity error of
    [sendMessageToNative], only changes the status line of the popup:
    it puts the status line in the [error] style and then shows the
    text of the report, nothing when the report has no [message].  The
    buttons stay as they were, so after a click on the start button,
    which disabled both, an error report leaves both disabled; the
    text areas are untouched, nothing is posted and no storage is
    read.  When the [message] of the report cannot be converted to a
    string, the listener throws at the assignment of the text: the
    status line has the [error] style and keeps its earlier text. *)
Theorem error_report_leaves_the_buttons fields p :
  error_report fields ->
  (forall a, assoc "action" fields = Some (JStr a) ->
     a <> "get_devices" /\ a <> "transcript" /\ a <> "summary_update") ->
  exists c p',
    popup.port_onMessage (NATIVE_APP_MESSAGE (JObj fields)) p = (c, p') /\
    popup.statusDiv_className p' = "status error" /\
    (forall text, popup.text_of (assoc "message" fields) = Normal text ->
       c = Normal tt /\ popup.statusDiv_textContent p' = text) /\
    (forall e, popup.text_of (assoc "message" fields) = Throw e ->
       c = Throw e /\ popup.statusDiv_textContent p' = popup.statusDiv_textContent p) /\
    popup.startBtn_disabled p' = popup.startBtn_disabled p /\
    popup.stopBtn_disabled p' = popup.stopBtn_disabled p /\
    popup.transcriptArea_value p' = popup.transcriptArea_value p /\
    popup.summaryArea_value p' = popup.summaryArea_value p /\
    popup.posts p' = popup.posts p /\ popup.local_gets p' = popup.local_gets p /\
    popup.sync_gets p' = popup.sync_gets p /\
    forall p0, popup.startBtn_click p0 = (Normal tt, p) ->
      popup.startBtn_disabled p' = true /\ popup.stopBtn_disabled p' = true.
Proof.
  intros He Hn. rewrite (popup_error_report fields p He Hn), showNotification_text.
  destruct (popup.text_of (assoc "message" fields)) as [text|e].
  - eexists. eexists. split; [reflexivity|]. split; [reflexivity|].
    split; [intros t [= <-]; split; reflexivity|]. split; [discriminate|].
    split; [reflexivity|]. split; [reflexivity|]. split; [reflexivity|].
    split; [reflexivity|]. split; [reflexivity|]. split; [reflexivity|].
    split; [reflexivity|].
    intros p0 H0. exact (start_click_disables p0 p H0).
  - eexists. eexists. split; [reflexivity|]. split; [reflexivity|].
    split; [discriminate|]. split; [intros e' [= <-]; split; reflexivity|].
    split; [reflexivity|]. split; [reflexivity|]. split; [reflexivity|].
    split; [reflexivity|]. split; [reflexivity|]. split; [reflexivity|].
    split; [reflexivity|].
    intros p0 H0. exact (start_click_disables p0 p H0).
Qed.

Lemma error_report_leaves_the_buttons_witness :
  let p0 := {| popup.statusDiv_className := "status ready";
               popup.statusDiv_textContent := "Trạng thái: Sẵn sàng";
               popup.startBtn_disabled := false; popup.stopBtn_disabled := true;
               popup.transcriptArea_value := ""; popup.summaryArea_value := "";
               popup.micDeviceSelect_value := "1"; popup.systemDeviceSelect_value := "4";
               popup.languageSelect_value := "vi";
               popup.port_open := true; popup.posts := []; popup.sync_sets := [];
               popup.sync_gets := []; popup.local_gets := []; popup.console := [] |} in
  let broken := [("status", JStr "error"); ("message", JObj [("toString", JNum "1")])] in
  (exists p',
    popup.port_onMessage connectivity_error (popup.startBtn_click p0).2 = (Normal tt, p') /\
    popup.statusDiv_textContent p' = "Không thể kết nối với ứng dụng native." /\
    popup.startBtn_disabled p' = true /\ popup.stopBtn_disabled p' = true) /\
  (exists p',
    popup.port_onMessage (NATIVE_APP_MESSAGE (JObj broken)) (popup.startBtn_click p0).2
    = (Throw TypeError, p') /\
    popup.statusDiv_className p' = "status error" /\
    popup.statusDiv_textContent p' = "Đang khởi động...").
Proof.
  cbn zeta. split.
  - match goal with |- context [popup.startBtn_click ?p0] =>
      destruct (error_report_leaves_the_buttons
                  [("status", JStr "error");
                   ("message", JStr "Không thể kết nối với ứng dụng native.")]
                  (popup.startBtn_click p0).2)
        as (c & p' & H1 & _ & H2 & _ & _ & _ & _ & _ & _ & _ & _ & H3);
        [split; [reflexivity | discriminate] | intros a; discriminate |];
      destruct (H3 p0 eq_refl) as [H4 H5] end.
    destruct (H2 _ eq_refl) as [-> H6].
    exists p'. split; [exact H1|]. split; [exact H6|]. split; [exact H4 | exact H5].
  - match goal with |- context [popup.startBtn_click ?p0] =>
      destruct (error_report_leaves_the_buttons
                  [("status", JStr "error"); ("message", JObj [("toString", JNum "1")])]
                  (popup.startBtn_click p0).2)
        as (c & p' & H1 & H2 & _ & H3 & _);
        [split; [reflexivity | discriminate] | intros a; discriminate |] end.
    destruct (H3 TypeError eq_refl) as [-> H4].
    exists p'. split; [exact H1|]. split; [exact H2 | exact H4].
Defined.

(** X27: the snapshot a popup gets on attaching, as the popup shows
    it.  In every reachable state of the background script, the popup
    that receives [INITIAL_STATE] handles it without throwing; it
    disables the start button exactly when the recording flag is true,
    and enables exactly one of the two buttons; the text areas show the
    stored transcript and summary, with every line break written CR LF
    or CR alone shown as a line feed, or nothing when there is none.
    The popup answers nothing and reads no storage. *)
Theorem attaching_popup_shows_stored_state w p :
  reachable w ->
  exists p',
    popup.port_onMessage (initial_state w) p = (Normal tt, p') /\
    (popup.startBtn_disabled p' = true <-> recording w) /\
    popup.stopBtn_disabled p' = negb (popup.startBtn_disabled p') /\
    popup.transcriptArea_value p'
    = match local w !! STORAGE_KEYS.transcript with
      | Some (JStr s) => popup.normalize_newlines s
      | _ => ""
      end /\
    popup.summaryArea_value p'
    = match local w !! STORAGE_KEYS.summary with
      | Some (JStr s) => popup.normalize_newlines s
      | _ => ""
      end /\
    popup.posts p' = popup.posts p /\ popup.local_gets p' = popup.local_gets p /\
    popup.sync_gets p' = popup.sync_gets p.
Proof.
  intros Hr. destruct (reachable_alarm_invariant w Hr) as (Hb & _).
  destruct (stored_text w Hr) as [It Is].
  unfold initial_state, popup.port_onMessage, popup.and_then.
  rewrite updateRecordingUI_cases. cbn zeta. rewrite !truthy_or_false.
  rewrite ToString_or_else.
  change (truthy None) with false. cbv iota.
  unfold popup.updateTranscriptUI, popup.updateSummaryUI.
  rewrite !or_else_idempotent by reflexivity.
  rewrite (ToString_stored _ It), (ToString_stored _ Is).
  eexists. split; [reflexivity|].
  cbn [popup.effect popup.console_log popup.with_console popup.with_summaryArea
       popup.with_transcriptArea popup.with_buttons popup.with_status
       popup.startBtn_disabled popup.stopBtn_disabled popup.transcriptArea_value
       popup.summaryArea_value popup.posts popup.local_gets popup.sync_gets snd].
  split.
  { unfold recording. destruct Hb as [-> | [b ->]].
    - cbn [truthy]. split; discriminate.
    - cbn [truthy]. destruct b; split; congruence. }
  split; [reflexivity|].
  split.
  { destruct (local w !! STORAGE_KEYS.transcript) as [[]|]; reflexivity. }
  split.
  { destruct (local w !! STORAGE_KEYS.summary) as [[]|]; reflexivity. }
  repeat split.
Qed.

Lemma attaching_popup_shows_stored_state_witness :
  let CR := String (ascii_of_nat 13) "" in
  let w := after [PortConnect "popup-connection"; AttachStep; AttachStep; SocketOpen 0;
                  SocketMessage 0 (Some (JObj [("action", JStr "get_status");
                                               ("is_recording", JBool true)])) 0;
                  SocketMessage 0 (Some (final_segment ("one" +:+ CR +:+ "two"))) 3600;
                  TranscriptRead 3600] in
  let p := {| popup.statusDiv_className := "status ready";
              popup.statusDiv_textContent := "Trạng thái: Sẵn sàng";
              popup.startBtn_disabled := false; popup.stopBtn_disabled := true;
              popup.transcriptArea_value := ""; popup.summaryArea_value := "";
              popup.micDeviceSelect_value := ""; popup.systemDeviceSelect_value := "";
              popup.languageSelect_value := "vi";
              popup.port_open := true; popup.posts := []; popup.sync_sets := [];
              popup.sync_gets := []; popup.local_gets := []; popup.console := [] |} in
  recording w /\
  local w !! STORAGE_KEYS.transcript = Some (JStr ("[01:00:00] one" +:+ CR +:+ "two")) /\
  exists p', popup.port_onMessage (initial_state w) p = (Normal tt, p') /\
             popup.startBtn_disabled p' = true /\ popup.stopBtn_disabled p' = false /\
             popup.transcriptArea_value p' = "[01:00:00] one" +:+ newline +:+ "two".
Proof.
  cbn zeta. split; [vm_compute; reflexivity|]. split; [vm_compute; reflexivity|].
  match goal with |- context [popup.port_onMessage (initial_state ?w) ?p] =>
    destruct (attaching_popup_shows_stored_state w p (reachable_after _))
      as (p' & H1 & H2 & H3 & H4 & _) end.
  exists p'. split; [exact H1|].
  assert (H5 : popup.startBtn_disabled p' = true) by (apply H2; vm_compute; reflexivity).
  split; [exact H5|]. split; [rewrite H3, H5; reflexivity|].
  rewrite H4. vm_compute. reflexivity.
Defined.

(** X28: a click on the clear button, with the port connected.  The
    popup posts [CLEAR_TRANSCRIPT] and empties both text areas at once.
    The background script, on receiving that message from its popup
    port, stores the empty string for the transcript and for the
    summary and broadcasts the [clear] message; on that message the
    popup empties both areas again, without reading storage and without
    touching the buttons. *)
Theorem clear_click_clears_both_sides p port w :
  popup.port_open p = true -> popup_port w port = true ->
  let message := JObj [("type", JStr "CLEAR_TRANSCRIPT")] in
  exists p' w' p'',
    popup.clearTranscriptBtn_click p = (Normal tt, p') /\
    popup.posts p' = popup.posts p ++ [message] /\
    popup.transcriptArea_value p' = "" /\ popup.summaryArea_value p' = "" /\
    step (PortMessage port message) w = Some w' /\
    local w' !! STORAGE_KEYS.transcript = Some (JStr "") /\
    local w' !! STORAGE_KEYS.summary = Some (JStr "") /\
    posted w' = posted w ++ match observer w with
                            | Some o => [(o, cleared)]
                            | None => []
                            end /\
    popup.port_onMessage cleared p' = (Normal tt, p'') /\
    popup.transcriptArea_value p'' = "" /\ popup.summaryArea_value p'' = "" /\
    popup.local_gets p'' = popup.local_gets p /\ popup.posts p'' = popup.posts p' /\
    popup.startBtn_disabled p'' = popup.startBtn_disabled p /\
    popup.stopBtn_disabled p'' = popup.stopBtn_disabled p.
Proof.
  intros Ho Hp. cbn zeta.
  unfold popup.clearTranscriptBtn_click, popup.and_then, popup.postMessage. rewrite Ho.
  cbn [popup.updateTranscriptUI popup.updateSummaryUI or_else truthy String.eqb negb
       ToString popup.normalize_newlines].
  eexists. exists (run_handler (handleUICommand (JObj [("type", JStr "CLEAR_TRANSCRIPT")])) w).
  eexists.
  split; [reflexivity|]. split; [reflexivity|]. split; [reflexivity|].
  split; [reflexivity|].
  split; [cbn [step]; rewrite Hp; reflexivity|].
  rewrite (handleUICommand_clear [("type", JStr "CLEAR_TRANSCRIPT")] w eq_refl).
  set (x := local_set [(STORAGE_KEYS.transcript, JStr ""); (STORAGE_KEYS.summary, JStr "")] w).
  destruct (broadcastToUI_posted cleared x) as (Hpo & _).
  destruct (output_only_broadcastToUI cleared x) as [es He].
  destruct (local_set_frame [(STORAGE_KEYS.transcript, JStr "");
                             (STORAGE_KEYS.summary, JStr "")] w)
    as (_ & Hpp & _ & _ & Hq & _ & _ & _ & _ & _ & Hef).
  fold x in Hpp, Hq, Hef.
  assert (Hl : local (run_handler (broadcastToUI cleared) x)
               = <[STORAGE_KEYS.summary := JStr ""]>
                   (<[STORAGE_KEYS.transcript := JStr ""]> (local w))).
  { rewrite He. cbn [local with_effects]. apply local_set_two. }
  split; [rewrite Hl; rewrite lookup_insert_ne by discriminate; apply lookup_insert_eq|].
  split; [rewrite Hl; apply lookup_insert_eq|].
  split.
  { unfold run_handler. rewrite Hpo, (observer_same w x Hpp Hq), (posted_same w x Hef).
    reflexivity. }
  repeat split.
Qed.

Lemma clear_click_clears_both_sides_witness :
  let p := {| popup.statusDiv_className := "status ready";
              popup.statusDiv_textContent := "Trạng thái: Sẵn sàng";
              popup.startBtn_disabled := false; popup.stopBtn_disabled := true;
              popup.transcriptArea_value := "[01:00:00] old"; popup.summaryArea_value := "";
              popup.micDeviceSelect_value := ""; popup.systemDeviceSelect_value := "";
              popup.languageSelect_value := "vi";
              popup.port_open := true; popup.posts := []; popup.sync_sets := [];
              popup.sync_gets := []; popup.local_gets := []; popup.console := [] |} in
  exists p' w',
    popup.clearTranscriptBtn_click p = (Normal tt, p') /\
    popup.transcriptArea_value p' = "" /\
    step (PortMessage 0 (JObj [("type", JStr "CLEAR_TRANSCRIPT")]))
      (after [PortConnect "popup-connection"]) = Some w' /\
    posted w' = [(0, cleared)].
Proof.
  cbn zeta.
  match goal with |- context [popup.clearTranscriptBtn_click ?p] =>
    destruct (clear_click_clears_both_sides p 0 (after [PortConnect "popup-connection"])
                eq_refl eq_refl)
      as (p' & w' & _ & H1 & _ & H2 & _ & H3 & _ & _ & H4 & _) end.
  exists p', w'. split; [exact H1|]. split; [exact H2|]. split; [exact H3 | exact H4].
Defined.

(** X29: when the port to the background script is gone.  The
    disconnect listener shows the reconnect notice and disables the
    start and stop buttons, without throwing; the clear button stays
    enabled, and a click on it then throws on [postMessage] before the
    text areas are emptied, so the popup keeps showing the transcript.
    A click handler of the start button that runs without the port has
    saved the settings but posts nothing and leaves the buttons
    alone. *)
Theorem closed_port_blocks_the_commands p :
  popup.port_open p = false ->
  exists q,
    popup.port_onDisconnect p = (Normal tt, q) /\
    popup.startBtn_disabled q = true /\ popup.stopBtn_disabled q = true /\
    popup.statusDiv_className q = "status error" /\
    popup.clearTranscriptBtn_click q = (Throw DisconnectedPort, q) /\
    popup.transcriptArea_value q = popup.transcriptArea_value p /\
    popup.summaryArea_value q = popup.summaryArea_value p /\
    popup.stopBtn_click p = (Throw DisconnectedPort, p) /\
    popup.startBtn_click p = (Throw DisconnectedPort, popup.saveSettings p).
Proof.
  intros Ho.
  unfold popup.port_onDisconnect, popup.and_then. rewrite showNotification_text.
  cbn [popup.text_of ToString popup.effect].
  eexists. split; [reflexivity|].
  unfold popup.clearTranscriptBtn_click, popup.stopBtn_click, popup.startBtn_click,
    popup.and_then, popup.postMessage.
  cbn [popup.port_open popup.with_buttons popup.with_status popup.saveSettings
       popup.with_sync_sets].
  rewrite Ho. repeat split.
Qed.

Lemma closed_port_blocks_the_commands_witness :
  let p := {| popup.statusDiv_className := "status recording";
              popup.statusDiv_textContent := "Trạng thái: Đang ghi âm...";
              popup.startBtn_disabled := true; popup.stopBtn_disabled := false;
              popup.transcriptArea_value := "[01:00:00] old"; popup.summaryArea_value := "";
              popup.micDeviceSelect_value := ""; popup.systemDeviceSelect_value := "";
              popup.languageSelect_value := "vi";
              popup.port_open := false; popup.posts := []; popup.sync_sets := [];
              popup.sync_gets := []; popup.local_gets := []; popup.console := [] |} in
  exists q,
    popup.port_onDisconnect p = (Normal tt, q) /\
    (popup.clearTranscriptBtn_click q).1 = Throw DisconnectedPort /\
    popup.transcriptArea_value (popup.clearTranscriptBtn_click q).2 = "[01:00:00] old".
Proof.
  cbn zeta.
  match goal with |- context [popup.port_onDisconnect ?p] =>
    destruct (closed_port_blocks_the_commands p eq_refl)
      as (q & H0 & _ & _ & _ & H & Ht & _) end.
  exists q. split; [exact H0|]. rewrite H. split; [reflexivity | exact Ht].
Defined.

(** X30: a transcript message other than [clear], final or partial,
    makes the popup read the stored transcript again, and that is all
    it does (unless the message is also an error or a warning): the
    state of the popup after the message does not depend on the text,
    or on any other field, of the message.  When the read returns a
    string, the transcript area shows it with every line break written
    CR LF or CR alone shown as a line feed, and it shows nothing when
    the read returns no transcript.  When the read returns a value that
    cannot be converted to a string, the callback throws and the area
    keeps its text.  So the popup never shows the text of a message
    itself, only what the background script has stored. *)
Theorem transcript_message_is_read_back_from_storage fields result p :
  assoc "action" fields = Some (JStr "transcript") ->
  assoc "type" fields <> Some (JStr "clear") ->
  assoc "status" fields <> Some (JStr "error") ->
  assoc "status" fields <> Some (JStr "warning") ->
  let p' := popup.with_local_gets (popup.local_gets p ++ [popup.ReadTranscript])
              (popup.console_log "Received message via port:" p) in
  let shown := popup.local_get_callback popup.ReadTranscript result p' in
  popup.port_onMessage (NATIVE_APP_MESSAGE (JObj fields)) p = (Normal tt, p') /\
  popup.transcriptArea_value p' = popup.transcriptArea_value p /\
  popup.summaryArea_value p' = popup.summaryArea_value p /\
  popup.statusDiv_textContent p' = popup.statusDiv_textContent p /\
  popup.posts p' = popup.posts p /\
  (forall s, result !! STORAGE_KEYS.transcript = Some (JStr s) ->
     shown.1 = Normal tt /\
     popup.transcriptArea_value shown.2 = popup.normalize_newlines s) /\
  (result !! STORAGE_KEYS.transcript = None ->
     shown.1 = Normal tt /\ popup.transcriptArea_value shown.2 = "") /\
  (forall s, ToString (or_else (result !! STORAGE_KEYS.transcript) (JStr "")) = Normal s ->
     shown.1 = Normal tt /\
     popup.transcriptArea_value shown.2 = popup.normalize_newlines s) /\
  (forall e, ToString (or_else (result !! STORAGE_KEYS.transcript) (JStr "")) = Throw e ->
     shown = (Throw e, p')) /\
  popup.summaryArea_value shown.2 = popup.summaryArea_value p.
Proof.
  intros Ha Ht He Hw. cbn zeta.
  split.
  { unfold popup.port_onMessage. cbn [get_prop]. rewrite Ha.
    rewrite (strict_eq_false _ _ Ht), (strict_eq_false _ _ He), (strict_eq_false _ _ Hw).
    reflexivity. }
  split; [reflexivity|]. split; [reflexivity|]. split; [reflexivity|].
  split; [reflexivity|].
  unfold popup.local_get_callback, popup.updateTranscriptUI.
  split.
  { intros s Hs. rewrite (ToString_stored (result !! STORAGE_KEYS.transcript))
      by (rewrite Hs; exact I).
    rewrite Hs. split; reflexivity. }
  split.
  { intros Hs. rewrite Hs. split; reflexivity. }
  split.
  { intros s Hs. rewrite Hs. split; reflexivity. }
  split.
  { intros e Hs. rewrite Hs. reflexivity. }
  destruct (ToString (or_else (result !! STORAGE_KEYS.transcript) (JStr ""))); reflexivity.
Qed.

Lemma transcript_message_is_read_back_from_storage_witness :
  let CR := String (ascii_of_nat 13) "" in
  let p := {| popup.statusDiv_className := "status recording";
              popup.statusDiv_textContent := "Trạng thái: Đang ghi âm...";
              popup.startBtn_disabled := true; popup.stopBtn_disabled := false;
              popup.transcriptArea_value := "[01:00:00] old"; popup.summaryArea_value := "";
              popup.micDeviceSelect_value := ""; popup.systemDeviceSelect_value := "";
              popup.languageSelect_value := "vi";
              popup.port_open := true; popup.posts := []; popup.sync_sets := [];
              popup.sync_gets := []; popup.local_gets := []; popup.console := [] |} in
  let partial := [("action", JStr "transcript"); ("type", JStr "partial");
                  ("text", JStr "hel")] in
  let result : gmap string JsVal :=
    {[ STORAGE_KEYS.transcript := JStr ("[01:00:00] old" +:+ CR +:+ newline +:+ "more") ]} in
  let p' := (popup.port_onMessage (NATIVE_APP_MESSAGE (JObj partial)) p).2 in
  popup.transcriptArea_value p' = "[01:00:00] old" /\
  popup.local_gets p' = [popup.ReadTranscript] /\
  popup.transcriptArea_value (popup.local_get_callback popup.ReadTranscript result p').2
  = "[01:00:00] old" +:+ newline +:+ "more".
Proof.
  cbn zeta.
  match goal with |- context [popup.port_onMessage (NATIVE_APP_MESSAGE (JObj ?f)) ?p] =>
    destruct (transcript_message_is_read_back_from_storage f
                {[ STORAGE_KEYS.transcript :=
                     JStr ("[01:00:00] old" +:+ String (ascii_of_nat 13) "" +:+ newline
                           +:+ "more") ]} p)
      as (H & _ & _ & _ & _ & H1 & _); [reflexivity | discriminate | discriminate | discriminate |] end.
  rewrite H. split; [reflexivity|]. split; [reflexivity|].
  destruct (H1 _ (lookup_singleton_eq _ _)) as [_ H2].
  eapply eq_trans; [exact H2|]. vm_compute. reflexivity.
Defined.
